(** * e-Khata: reminder notifications

    A shallow embedding of [backend/services/notificationService.js]
    (class [NotificationService]) and of the reminder scheduler that lives
    next to it (class [ReminderScheduler]), with the properties of the
    due-date detection and multi-channel dispatch pipeline.

    JavaScript [async] methods become computations in a small monad that
    threads the state of the outside world (clock, MongoDB collections,
    node-cron's task table), records every call that leaves the process
    (console, SMTP, HTTP, database) and carries JavaScript exceptions, so
    that [try { ... } catch (error) { ... }] is written as it is in the
    source. *)

From Stdlib Require Import ZArith QArith Qround List String Bool Lia.
Import ListNotations.

Local Open Scope string_scope.
Local Open Scope list_scope.
Local Open Scope Z_scope.

(** ** JavaScript values *)

(** A [Date] is its time value: milliseconds since the epoch. *)
Definition Date := Z.

(** A MongoDB [ObjectId], as its hexadecimal string. *)
Definition ObjectId := string.

(** An [Error] object; the services only ever read [error.message]. *)
Record JsError := { message : string }.

(** Truthiness of a value that is a string, [null] or [undefined]: the
    empty string is falsy, as are [null] and [undefined]. *)
Definition truthy (s : option string) : bool :=
  match s with
  | Some EmptyString => false
  | Some _ => true
  | None => false
  end.

(** [a || b] on such values. *)
Definition js_or (a b : option string) : option string :=
  if truthy a then a else b.

(** A path of a stored document that the schema does not require: the
    field is not in the document, it is there and holds [null], or it
    holds a value.  Read from the loaded document the first is
    [undefined] and the second [null]; a query tells them apart. *)
Inductive Field (A : Type) :=
| Missing
| Null
| Holds (a : A).
Arguments Missing {A}.
Arguments Null {A}.
Arguments Holds {A} a.

(** [a || b] where [a] is a [Date], [null] or [undefined] and [b] is a
    [Date]: [null] and [undefined] are falsy, a [Date] object is always
    truthy. *)
Definition date_or (a : Field Date) (b : Date) : Date :=
  match a with
  | Holds d => d
  | Missing | Null => b
  end.

(** [x < y] on exact quotients. *)
Definition Qltb (x y : Q) : bool := negb (Qle_bool y x).

(** ** Documents *)

Inductive Status := active | paused | completed.

Definition Status_eqb (a b : Status) : bool :=
  match a, b with
  | active, active | paused, paused | completed, completed => true
  | _, _ => false
  end.

Module Channels.
Record t := { email : bool; push : bool; inApp : bool }.
End Channels.

(** Modelled from the spec: the Mongoose schema [models/Reminder] is not
    among the sources.  The fields are the ones the two services read and
    write, typed after section 3 of the specification (an "obligation").
    [nextDueDate], [notificationEmail], [notes] and [lastNotificationSent]
    are optional paths; of [nextDueDate], which a query tests with
    [$exists], the document records whether the field is missing or holds
    [null]; [notificationChannels] is [None] for a document
    that lacks the sub-document, in which case reading one of its members
    raises a [TypeError].  [isOverdue] is read by the in-app sender and
    never computed by the services. *)
Module Reminder.
Record t := {
  _id : ObjectId;
  user : ObjectId;
  title : string;
  amount : Z;
  type : string;
  notes : option string;
  isRecurring : bool;
  repeat : string;
  status : Status;
  dueDate : Date;
  nextDueDate : Field Date;
  reminderTime : Z;
  notificationChannels : option Channels.t;
  notificationEmail : option string;
  lastNotificationSent : option Date;
  isOverdue : bool
}.

(** [reminder.lastNotificationSent = now], every other path untouched. *)
Definition set_lastNotificationSent (r : t) (now : Date) : t :=
  {| _id := _id r; user := user r; title := title r; amount := amount r;
     type := type r; notes := notes r; isRecurring := isRecurring r;
     repeat := repeat r; status := status r; dueDate := dueDate r;
     nextDueDate := nextDueDate r; reminderTime := reminderTime r;
     notificationChannels := notificationChannels r;
     notificationEmail := notificationEmail r;
     lastNotificationSent := Some now;
     isOverdue := isOverdue r |}.
End Reminder.

(** Modelled from the spec: the Mongoose schema [models/User] is not among
    the sources; section 3 gives identity, display name and registered
    email.  The email is optional here because the dispatcher itself tests
    whether an address could be resolved. *)
Module User.
Record t := { _id : ObjectId; name : string; email : option string }.
End User.

Inductive Priority := normal | high.

(** Modelled from the spec: the Mongoose schema [models/Notification] is not
    among the sources.  A stored notification has the paths the in-app
    sender writes plus the read flag and read timestamp of section 3, which
    the cleanup task queries. *)
Module Notification.
Record draft := {
  user : ObjectId;
  type : string;
  title : string;
  message : string;
  relatedId : ObjectId;
  relatedType : string;
  priority : Priority
}.

Record t := {
  _id : ObjectId;
  fields : draft;
  isRead : bool;
  readAt : option Date
}.
End Notification.

(** ** Requests sent to the gateways *)

(** The holes of the HTML template of the reminder email. *)
Record ReminderCard := {
  card_title : string;
  card_type_badge : string;
  card_amount : string;
  card_due : string;
  card_notes : option string;
  card_recurring : option string;
  card_hello : string;
  card_link : string
}.

Record MailOptions := {
  from_name : string;
  from_address : option string;
  to : string;
  subject : string;
  html : ReminderCard
}.

Record PushNotification := {
  app_id : option string;
  filter_userId : string;
  headings_en : string;
  contents_en : string;
  data_type : string;
  data_reminderId : string;
  data_url : string;
  authorization : option string
}.

(** ** What the dispatcher returns *)

(** The object a channel sender returns; the shapes are those of the
    [return] statements of the three senders. *)
Inductive ChannelResult :=
| EmailSent (messageId : string) (sentTo : string)
| EmailFailed (error : string) (attemptedEmail : string)
| PushSent (data : string)
| InAppCreated (notificationId : ObjectId)
| Failed (error : string).

(** The [success] member of a channel result. *)
Definition channel_success (c : ChannelResult) : bool :=
  match c with
  | EmailSent _ _ | PushSent _ | InAppCreated _ => true
  | EmailFailed _ _ | Failed _ => false
  end.

(** The [error] member of a channel result. *)
Definition channel_error (c : ChannelResult) : option string :=
  match c with
  | EmailFailed e _ | Failed e => Some e
  | _ => None
  end.

Module Results.
Record t := {
  email : option ChannelResult;
  push : option ChannelResult;
  inApp : option ChannelResult;
  success : bool;
  error : option string
}.

Definition set_email (c : ChannelResult) (r : t) : t :=
  {| email := Some c; push := push r; inApp := inApp r;
     success := success r; error := error r |}.
Definition set_push (c : ChannelResult) (r : t) : t :=
  {| email := email r; push := Some c; inApp := inApp r;
     success := success r; error := error r |}.
Definition set_inApp (c : ChannelResult) (r : t) : t :=
  {| email := email r; push := push r; inApp := Some c;
     success := success r; error := error r |}.
Definition set_success (b : bool) (r : t) : t :=
  {| email := email r; push := push r; inApp := inApp r;
     success := b; error := error r |}.
Definition set_error (m : string) (r : t) : t :=
  {| email := email r; push := push r; inApp := inApp r;
     success := success r; error := Some m |}.
End Results.

(** ** The outside world *)

(** What a cron task runs when it fires. *)
Inductive Callback := RunCheckDueReminders | RunCleanupOldNotifications.

(** A task in node-cron's table; [cron.schedule] starts it at once. *)
Record CronTask := {
  expression : string;
  callback : Callback;
  running : bool
}.

(** An entry of [this.jobs]; [job] is the handle [cron.schedule] returned,
    the position of the task in the table. *)
Record Job := { name : string; job : nat }.

Record World := {
  clock : Date;
  reminders : list Reminder.t;
  users : list User.t;
  notifications : list Notification.t;
  tasks : list CronTask;
  jobs : list Job
}.

Definition set_clock (t : Date) (w : World) : World :=
  {| clock := t; reminders := reminders w; users := users w;
     notifications := notifications w; tasks := tasks w; jobs := jobs w |}.
Definition set_reminders (l : list Reminder.t) (w : World) : World :=
  {| clock := clock w; reminders := l; users := users w;
     notifications := notifications w; tasks := tasks w; jobs := jobs w |}.
Definition set_notifications (l : list Notification.t) (w : World) : World :=
  {| clock := clock w; reminders := reminders w; users := users w;
     notifications := l; tasks := tasks w; jobs := jobs w |}.
Definition set_tasks (l : list CronTask) (w : World) : World :=
  {| clock := clock w; reminders := reminders w; users := users w;
     notifications := notifications w; tasks := l; jobs := jobs w |}.
Definition set_jobs (l : list Job) (w : World) : World :=
  {| clock := clock w; reminders := reminders w; users := users w;
     notifications := notifications w; tasks := tasks w; jobs := l |}.

(** A settled promise. *)
Inductive Reply (A : Type) :=
| Resolves (a : A)
| Rejects (e : JsError).
Arguments Resolves {A} a.
Arguments Rejects {A} e.

(** The environment of the process and the behaviour of its
    collaborators.  The collaborators are queried at the time of the call,
    so a gateway or the database can be down at one moment and up at the
    next; [latency] is the time an awaited call takes. *)
Record Env := {
  SMTP_USER : option string;
  FRONTEND_URL : option string;
  ONESIGNAL_APP_ID : option string;
  ONESIGNAL_API_KEY : option string;
  (* Intl and string conversions *)
  toLocaleDateString_enIN : Date -> string;
  toLocaleDateString : Date -> string;
  formatINR : Z -> string;
  toUpperCase : string -> string;
  numberToString : Z -> string;
  (* the time zone of the process: ECMA-262's LocalTZA(t, isUTC) *)
  LocalTZA : Z -> bool -> Z;
  (* gateways *)
  smtp : Date -> MailOptions -> Reply string;
  onesignal : Date -> PushNotification -> Reply string;
  (* MongoDB *)
  reminder_find_fault : Date -> option JsError;
  reminder_save_fault : Date -> Reminder.t -> option JsError;
  user_findById_fault : Date -> ObjectId -> option JsError;
  notification_create : Date -> Notification.draft -> Reply ObjectId;
  notification_deleteMany_fault : Date -> option JsError;
  latency : Date -> N
}.

(** ** Calls that leave the process *)

Inductive LogMsg :=
| SendingEmailTo (emailTo custom userEmail : option string)
| ErrorSendingReminderNotifications (error : JsError)
| EmailSentTo (emailTo : string)
| EmailMessageId (messageId : string)
| EmailNotificationError (emailTo : string) (msg : string)
| OneSignalNotConfigured
| PushNotificationSent (data : string)
| PushNotificationError (msg : string)
| InAppNotificationCreated (id : ObjectId)
| InAppNotificationError (msg : string)
| SchedulerStarted
| CheckingEvery15Minutes
| CleanupDailyAt2AM
| FoundReminders (n : nat)
| ErrorCheckingDueReminders (error : JsError)
| SkippingReminder (id : ObjectId) (hoursSinceLastNotification : Q)
| UserNotFoundForReminder (id : ObjectId)
| SendingReminderNotification (title : string) (minutesUntilDue : Z)
| ReminderNotificationSent (title : string)
| FailedToSendReminderNotification (title : string) (error : option string)
| ErrorProcessingReminder (id : ObjectId) (error : JsError)
| CleanedUp (deletedCount : nat)
| ErrorCleaningUp (error : JsError)
| StoppedJob (name : string)
| ManuallyTriggering.

Inductive Event :=
| ConsoleLog (m : LogMsg)
| ConsoleError (m : LogMsg)
| SmtpSendMail (o : MailOptions)
| HttpPost (n : PushNotification)
| ReminderFind
| ReminderSave (r : Reminder.t)
| UserFindById (id : ObjectId)
| NotificationCreate (d : Notification.draft)
| NotificationDeleteMany
| CronSchedule (expression : string) (cb : Callback)
| CronStop (handle : nat).

(** ** The monad of the services *)

Inductive Completion (A : Type) :=
| Normal (a : A)
| Throw (e : JsError).
Arguments Normal {A} a.
Arguments Throw {A} e.

Record Run (S A : Type) := mkRun {
  outcome : Completion A;
  state : S;
  events : list Event
}.
Arguments mkRun {S A} outcome state events.
Arguments outcome {S A} r.
Arguments state {S A} r.
Arguments events {S A} r.

Definition M (S A : Type) : Type := S -> Run S A.

Definition ret {S A} (a : A) : M S A :=
  fun s => mkRun (Normal a) s [].

Definition throw {S A} (e : JsError) : M S A :=
  fun s => mkRun (Throw e) s [].

Definition bind {S A B} (m : M S A) (k : A -> M S B) : M S B :=
  fun s =>
    let r := m s in
    match outcome r with
    | Normal a =>
        let r' := k a (state r) in
        mkRun (outcome r') (state r') (events r ++ events r')
    | Throw e => mkRun (Throw e) (state r) (events r)
    end.

(** [try { body } catch (error) { handler }]. *)
Definition try_catch {S A} (body : M S A) (handler : JsError -> M S A) : M S A :=
  fun s =>
    let r := body s in
    match outcome r with
    | Normal _ => r
    | Throw e =>
        let r' := handler e (state r) in
        mkRun (outcome r') (state r') (events r ++ events r')
    end.

Declare Scope js_scope.
Delimit Scope js_scope with js.
Notation "x <- m ;; k" := (bind m (fun x => k))
  (at level 100, m at next level, right associativity) : js_scope.
Notation "m ;; k" := (bind m (fun _ => k))
  (at level 100, right associativity) : js_scope.
Local Open Scope js_scope.

Definition emit {S} (ev : Event) : M S unit :=
  fun s => mkRun (Normal tt) s [ev].

Definition console_log {S} (m : LogMsg) : M S unit := emit (ConsoleLog m).
Definition console_error {S} (m : LogMsg) : M S unit := emit (ConsoleError m).

Definition modify {S} (f : S -> S) : M S unit := fun s => mkRun (Normal tt) (f s) [].

(** A block with a local mutable object [l], such as [const results = { ... }]. *)
Definition with_local {L A} (l : L) (m : M (L * World) A) : M World A :=
  fun w =>
    let r := m (l, w) in
    mkRun (outcome r) (snd (state r)) (events r).

(** A computation on the world, run inside such a block. *)
Definition liftW {L A} (m : M World A) : M (L * World) A :=
  fun s =>
    let r := m (snd s) in
    mkRun (outcome r) (fst s, state r) (events r).

Definition local {L} : M (L * World) L :=
  fun s => mkRun (Normal (fst s)) s [].
Definition update_local {L} (f : L -> L) : M (L * World) unit :=
  fun s => mkRun (Normal tt) (f (fst s), snd s) [].

(** [for (const x of l) { await body(x) }]. *)
Fixpoint for_of {S A} (l : list A) (body : A -> M S unit) : M S unit :=
  match l with
  | [] => ret tt
  | x :: l' => body x ;; for_of l' body
  end.

Definition TypeError_reading (member : string) : JsError :=
  {| message := String.append "Cannot read properties of undefined (reading '"
                  (String.append member "')") |}.

(** A template literal: the concatenation of its pieces. *)
Definition template (pieces : list string) : string := String.concat "" pieces.

(** [a || d] where [d] is a string literal. *)
Definition js_or_default (a : option string) (d : string) : string :=
  match a with
  | Some s => if truthy a then s else d
  | None => d
  end.

(** [d.setDate(d.getDate() - n)], after ECMA-262: the time value is taken
    to local time, [t = LocalTime(d) = d + LocalTZA(d, true)]; the day of
    the month is set [n] days back, which gives
    [MakeDate(MakeDay(year, month, date - n), TimeWithinDay(t))], the
    local time value [n] times [msPerDay] earlier; and that is taken back
    to a time value, [UTC(t') = t' - LocalTZA(t', false)].  [LocalTZA] is
    the offset of the time zone of the process, read at a time value when
    its flag is [true] and at a local time value when it is [false].  The
    result is the same wall-clock time [n] calendar days earlier, which is
    [n] times 24 hours earlier only if the offset is the same on both
    days. *)
Definition days_before (LocalTZA : Z -> bool -> Z) (d : Date) (n : Z) : Date :=
  let t := d + LocalTZA d true in
  let newDate := t - n * (24 * 60 * 60 * 1000) in
  newDate - LocalTZA newDate false.

Section Services.

Variable env : Env.

(** *** Collaborators *)

Definition elapse (w : World) : World :=
  set_clock (clock w + Z.of_N (latency env (clock w))) w.

(** [new Date()]. *)
Definition new_Date : M World Date :=
  fun w => mkRun (Normal (clock w)) w [].

(** [await p]: the call is recorded, takes its time, and either yields
    the value the promise resolved to or throws what it rejected with. *)
Definition await {A} (ev : Event) (p : World -> Reply A * World) : M World A :=
  fun w =>
    let '(reply, w') := p w in
    match reply with
    | Resolves a => mkRun (Normal a) (elapse w') [ev]
    | Rejects e => mkRun (Throw e) (elapse w') [ev]
    end.

(** [this.emailTransporter.sendMail(mailOptions)], resolving to
    [info.messageId]. *)
Definition emailTransporter_sendMail (mailOptions : MailOptions) : M World string :=
  await (SmtpSendMail mailOptions) (fun w => (smtp env (clock w) mailOptions, w)).

(** [axios.post('https://onesignal.com/api/v1/notifications', ...)],
    resolving to [response.data]. *)
Definition axios_post (notification : PushNotification) : M World string :=
  await (HttpPost notification) (fun w => (onesignal env (clock w) notification, w)).

(** [Reminder.find(query)]: the documents that match, in store order. *)
Definition Reminder_find (query : Reminder.t -> bool) : M World (list Reminder.t) :=
  await ReminderFind (fun w =>
    match reminder_find_fault env (clock w) with
    | Some e => (Rejects e, w)
    | None => (Resolves (filter query (reminders w)), w)
    end).

Definition same_id (a b : ObjectId) : bool := String.eqb a b.

Definition replace_doc (r : Reminder.t) (l : list Reminder.t) : list Reminder.t :=
  map (fun d => if same_id (Reminder._id d) (Reminder._id r) then r else d) l.

Definition DocumentNotFoundError : JsError :=
  {| message := "No document found for query on model Reminder" |}.

(** [reminder.save()]: writes the document under its [_id]; Mongoose
    rejects with a [DocumentNotFoundError] when the document is gone. *)
Definition Reminder_save (r : Reminder.t) : M World unit :=
  await (ReminderSave r) (fun w =>
    match reminder_save_fault env (clock w) r with
    | Some e => (Rejects e, w)
    | None =>
        if existsb (fun d => same_id (Reminder._id d) (Reminder._id r)) (reminders w)
        then (Resolves tt, set_reminders (replace_doc r (reminders w)) w)
        else (Rejects DocumentNotFoundError, w)
    end).

(** [User.findById(id)]: the user, or [null]. *)
Definition User_findById (id : ObjectId) : M World (option User.t) :=
  await (UserFindById id) (fun w =>
    match user_findById_fault env (clock w) id with
    | Some e => (Rejects e, w)
    | None => (Resolves (find (fun u => same_id (User._id u) id) (users w)), w)
    end).

(** The stored form of a notification that was just created. *)
Definition created (id : ObjectId) (d : Notification.draft) : Notification.t :=
  {| Notification._id := id; Notification.fields := d;
     Notification.isRead := false; Notification.readAt := None |}.

(** [Notification.create(fields)]: the stored document starts unread. *)
Definition Notification_create (d : Notification.draft) : M World Notification.t :=
  await (NotificationCreate d) (fun w =>
    match notification_create env (clock w) d with
    | Resolves id =>
        let n := created id d in
        (Resolves n, set_notifications (notifications w ++ [n]) w)
    | Rejects e => (Rejects e, w)
    end).

(** [Notification.deleteMany(query)], resolving to [result.deletedCount]. *)
Definition Notification_deleteMany (query : Notification.t -> bool) : M World nat :=
  await NotificationDeleteMany (fun w =>
    match notification_deleteMany_fault env (clock w) with
    | Some e => (Rejects e, w)
    | None =>
        (Resolves (List.length (filter query (notifications w))),
         set_notifications (filter (fun n => negb (query n)) (notifications w)) w)
    end).

(** [cron.schedule(expression, callback)]: the task is added to the
    table, running, and its handle is returned. *)
Definition cron_schedule (expression : string) (cb : Callback) : M World nat :=
  fun w =>
    mkRun (Normal (List.length (tasks w)))
          (set_tasks (tasks w ++ [{| expression := expression; callback := cb;
                                     running := true |}]) w)
          [CronSchedule expression cb].

Fixpoint stop_at (h : nat) (l : list CronTask) : list CronTask :=
  match l, h with
  | [], _ => []
  | t :: l', O =>
      {| expression := expression t; callback := callback t; running := false |} :: l'
  | t :: l', S h' => t :: stop_at h' l'
  end.

(** [job.stop()]. *)
Definition job_stop (h : nat) : M World unit :=
  fun w => mkRun (Normal tt) (set_tasks (stop_at h (tasks w)) w) [CronStop h].

(** *** class NotificationService *)

(** The [mailOptions] of [sendEmailNotification]. *)
Definition mailOptions (reminder : Reminder.t) (user : User.t) (emailTo : string)
    : MailOptions :=
  let dueDate := date_or (Reminder.nextDueDate reminder) (Reminder.dueDate reminder) in
  let formattedDate := toLocaleDateString_enIN env dueDate in
  let formattedAmount := formatINR env (Reminder.amount reminder) in
  {| from_name := "Expense Manager";
     from_address := SMTP_USER env;
     to := emailTo;
     subject := template ["💰 Reminder: "; Reminder.title reminder; " - ";
                          formattedAmount; " due soon"];
     html :=
       {| card_title := Reminder.title reminder;
          card_type_badge := toUpperCase env (Reminder.type reminder);
          card_amount := formattedAmount;
          card_due := formattedDate;
          card_notes :=
            if truthy (Reminder.notes reminder) then Reminder.notes reminder else None;
          card_recurring :=
            if Reminder.isRecurring reminder then Some (Reminder.repeat reminder)
            else None;
          card_hello := User.name user;
          card_link :=
            template [js_or_default (FRONTEND_URL env) "http://localhost:3000";
                      "/reminders"] |} |}.

(** [sendEmailNotification(reminder, user, emailTo)]. *)
Definition sendEmailNotification (reminder : Reminder.t) (user : User.t)
    (emailTo : string) : M World ChannelResult :=
  try_catch
    (info <- emailTransporter_sendMail (mailOptions reminder user emailTo) ;;
     console_log (EmailSentTo emailTo) ;;
     console_log (EmailMessageId info) ;;
     ret (EmailSent info emailTo))
    (fun error =>
       console_error (EmailNotificationError emailTo (message error)) ;;
       ret (EmailFailed (message error) emailTo)).

(** The [notification] object of [sendPushNotification], with the
    authorization header of the request. *)
Definition pushNotification (reminder : Reminder.t) (user : User.t) : PushNotification :=
  let dueDate := date_or (Reminder.nextDueDate reminder) (Reminder.dueDate reminder) in
  let formattedAmount := formatINR env (Reminder.amount reminder) in
  {| app_id := ONESIGNAL_APP_ID env;
     filter_userId := User._id user;
     headings_en := "💰 Payment Reminder";
     contents_en := template [Reminder.title reminder; " - "; formattedAmount;
                              " due on "; toLocaleDateString env dueDate];
     data_type := "reminder";
     data_reminderId := Reminder._id reminder;
     data_url := "/reminders";
     authorization := ONESIGNAL_API_KEY env |}.

(** [sendPushNotification(reminder, user)], through OneSignal. *)
Definition sendPushNotification (reminder : Reminder.t) (user : User.t)
    : M World ChannelResult :=
  if negb (truthy (ONESIGNAL_APP_ID env)) || negb (truthy (ONESIGNAL_API_KEY env)) then
    console_log OneSignalNotConfigured ;;
    ret (Failed "OneSignal not configured")
  else
    try_catch
      (response <- axios_post (pushNotification reminder user) ;;
       console_log (PushNotificationSent response) ;;
       ret (PushSent response))
      (fun error =>
         console_error (PushNotificationError (message error)) ;;
         ret (Failed (message error))).

(** The fields [createInAppNotification] passes to [Notification.create]. *)
Definition inAppFields (reminder : Reminder.t) (user : User.t) : Notification.draft :=
  let dueDate := date_or (Reminder.nextDueDate reminder) (Reminder.dueDate reminder) in
  {| Notification.user := User._id user;
     Notification.type := "reminder";
     Notification.title := template ["Payment Reminder: "; Reminder.title reminder];
     Notification.message :=
       template [Reminder.title reminder; " (₹";
                 numberToString env (Reminder.amount reminder);
                 ") is due on "; toLocaleDateString env dueDate];
     Notification.relatedId := Reminder._id reminder;
     Notification.relatedType := "Reminder";
     Notification.priority := if Reminder.isOverdue reminder then high else normal |}.

(** [createInAppNotification(reminder, user)]. *)
Definition createInAppNotification (reminder : Reminder.t) (user : User.t)
    : M World ChannelResult :=
  try_catch
    (notification <- Notification_create (inAppFields reminder user) ;;
     console_log (InAppNotificationCreated (Notification._id notification)) ;;
     ret (InAppCreated (Notification._id notification)))
    (fun error =>
       console_error (InAppNotificationError (message error)) ;;
       ret (Failed (message error))).

(** [reminder.notificationChannels.member]: a [TypeError] when the
    sub-document is missing. *)
Definition channel {S} (reminder : Reminder.t) (member : string)
    (sel : Channels.t -> bool) : M S bool :=
  match Reminder.notificationChannels reminder with
  | Some channels => ret (sel channels)
  | None => throw (TypeError_reading member)
  end.

Definition results0 : Results.t :=
  {| Results.email := None; Results.push := None; Results.inApp := None;
     Results.success := false; Results.error := None |}.

(** The three statements of the [try] block of [sendReminder], one per
    channel; [results] is the local object. *)
Definition email_step (reminder : Reminder.t) (user : User.t)
    : M (Results.t * World) unit :=
  email_on <- channel reminder "email" Channels.email ;;
  if email_on then
    let emailTo := js_or (Reminder.notificationEmail reminder) (User.email user) in
    console_log (SendingEmailTo emailTo (Reminder.notificationEmail reminder)
                                (User.email user)) ;;
    match emailTo with
    | Some address =>
        if truthy emailTo then
          r <- liftW (sendEmailNotification reminder user address) ;;
          update_local (Results.set_email r)
        else ret tt
    | None => ret tt
    end
  else ret tt.

Definition push_step (reminder : Reminder.t) (user : User.t)
    : M (Results.t * World) unit :=
  push_on <- channel reminder "push" Channels.push ;;
  if push_on then
    r <- liftW (sendPushNotification reminder user) ;;
    update_local (Results.set_push r)
  else ret tt.

Definition inApp_step (reminder : Reminder.t) (user : User.t)
    : M (Results.t * World) unit :=
  inApp_on <- channel reminder "inApp" Channels.inApp ;;
  if inApp_on then
    r <- liftW (createInAppNotification reminder user) ;;
    update_local (Results.set_inApp r)
  else ret tt.

(** The [try] block of [sendReminder]. *)
Definition sendReminder_try (reminder : Reminder.t) (user : User.t)
    : M (Results.t * World) Results.t :=
  email_step reminder user ;;
  push_step reminder user ;;
  inApp_step reminder user ;;
  update_local (Results.set_success true) ;;
  local.

(** [sendReminder(reminder, user)]. *)
Definition sendReminder (reminder : Reminder.t) (user : User.t) : M World Results.t :=
  with_local results0
    (try_catch
       (sendReminder_try reminder user)
       (fun error =>
          console_error (ErrorSendingReminderNotifications error) ;;
          update_local (Results.set_error (message error)) ;;
          local)).

(** *** class ReminderScheduler *)

(** The query of [checkDueReminders]:
    [{ status: 'active',
       $or: [ { nextDueDate: { $gte: now, $lte: checkWindow } },
              { nextDueDate: { $exists: false },
                dueDate: { $gte: now, $lte: checkWindow } } ] }]. *)
Definition dueQuery (now checkWindow : Date) (d : Reminder.t) : bool :=
  Status_eqb (Reminder.status d) active &&
  ((match Reminder.nextDueDate d with
    | Holds t => (now <=? t) && (t <=? checkWindow)
    | Missing | Null => false
    end)
   ||
   ((match Reminder.nextDueDate d with
     | Missing => true
     | Null | Holds _ => false
     end)
    && ((now <=? Reminder.dueDate d) && (Reminder.dueDate d <=? checkWindow)))).

(** The body of [if (shouldNotify) { ... }] in [processReminder]. *)
Definition notify (reminder : Reminder.t) (now : Date) (minutesUntilDue : Z)
    : M World unit :=
  user <- User_findById (Reminder.user reminder) ;;
  match user with
  | None =>
      console_error (UserNotFoundForReminder (Reminder._id reminder))
  | Some user =>
      console_log (SendingReminderNotification (Reminder.title reminder)
                                               minutesUntilDue) ;;
      result <- sendReminder reminder user ;;
      if Results.success result then
        Reminder_save (Reminder.set_lastNotificationSent reminder now) ;;
        console_log (ReminderNotificationSent (Reminder.title reminder))
      else
        console_error (FailedToSendReminderNotification (Reminder.title reminder)
                                                        (Results.error result))
  end.

(** The [catch] clause of [processReminder]. *)
Definition processReminder_catch {S} (reminder : Reminder.t) (error : JsError)
    : M S unit :=
  console_error (ErrorProcessingReminder (Reminder._id reminder) error).

(** [processReminder(reminder)]. *)
Definition processReminder (reminder : Reminder.t) : M World unit :=
  try_catch
    (let dueDate := date_or (Reminder.nextDueDate reminder) (Reminder.dueDate reminder) in
     now <- new_Date ;;
     let minutesUntilDue :=
       Qfloor (inject_Z (dueDate - now) / inject_Z (1000 * 60))%Q in
     let shouldNotify := minutesUntilDue <=? Reminder.reminderTime reminder in
     match Reminder.lastNotificationSent reminder with
     | Some lastNotificationSent =>
         let hoursSinceLastNotification :=
           (inject_Z (now - lastNotificationSent) / inject_Z (1000 * 60 * 60))%Q in
         if Qltb hoursSinceLastNotification (inject_Z 12) then
           console_log (SkippingReminder (Reminder._id reminder)
                                         hoursSinceLastNotification)
         else if shouldNotify then notify reminder now minutesUntilDue else ret tt
     | None =>
         if shouldNotify then notify reminder now minutesUntilDue else ret tt
     end)
    (processReminder_catch reminder).

(** [checkDueReminders()]. *)
Definition checkDueReminders : M World unit :=
  try_catch
    (now <- new_Date ;;
     let checkWindow := now + 2 * 60 * 60 * 1000 in
     reminders <- Reminder_find (dueQuery now checkWindow) ;;
     console_log (FoundReminders (List.length reminders)) ;;
     for_of reminders processReminder)
    (fun error => console_error (ErrorCheckingDueReminders error)).

(** [cleanupOldNotifications()]. *)
Definition cleanupOldNotifications : M World unit :=
  try_catch
    (today <- new_Date ;;
     let thirtyDaysAgo := days_before (LocalTZA env) today 30 in
     deletedCount <- Notification_deleteMany
       (fun n =>
          Notification.isRead n &&
          match Notification.readAt n with
          | Some readAt => readAt <? thirtyDaysAgo
          | None => false
          end) ;;
     console_log (CleanedUp deletedCount))
    (fun error => console_error (ErrorCleaningUp error)).

(** [startAll()]. *)
Definition startAll : M World unit :=
  reminderCheckJob <- cron_schedule "*/15 * * * *" RunCheckDueReminders ;;
  cleanupJob <- cron_schedule "0 2 * * *" RunCleanupOldNotifications ;;
  modify (fun w =>
    set_jobs (jobs w ++ [ {| name := "reminderCheck"; job := reminderCheckJob |};
                          {| name := "cleanup"; job := cleanupJob |} ]) w) ;;
  console_log SchedulerStarted ;;
  console_log CheckingEvery15Minutes ;;
  console_log CleanupDailyAt2AM.

(** [this.jobs]. *)
Definition this_jobs : M World (list Job) :=
  fun w => mkRun (Normal (jobs w)) w [].

(** [stopAll()]. *)
Definition stopAll : M World unit :=
  registered <- this_jobs ;;
  for_of registered
    (fun j => job_stop (job j) ;; console_log (StoppedJob (name j))) ;;
  modify (set_jobs []).

(** [triggerReminderCheck()]. *)
Definition triggerReminderCheck : M World unit :=
  console_log ManuallyTriggering ;;
  checkDueReminders.

(** What node-cron does when the schedule of task [h] comes up: a task
    that is still running has its callback called. *)
Definition cron_fire (h : nat) : M World unit :=
  fun w =>
    match nth_error (tasks w) h with
    | Some t =>
        if running t then
          match callback t with
          | RunCheckDueReminders => checkDueReminders w
          | RunCleanupOldNotifications => cleanupOldNotifications w
          end
        else ret tt w
    | None => ret tt w
    end.

(** Whether both OneSignal credentials are set. *)
Definition push_configured : bool :=
  truthy (ONESIGNAL_APP_ID env) && truthy (ONESIGNAL_API_KEY env).


End Services.

(** * Vocabulary of the properties *)

(** [returns m]: [m] never throws. *)
Definition returns {S A} (m : M S A) : Prop :=
  forall s, exists a, outcome (m s) = Normal a.

(** [keeps view m]: [m] does not change the part [view] of the state. *)
Definition keeps {S A X} (view : S -> X) (m : M S A) : Prop :=
  forall s, view (state (m s)) = view s.

(** The parts of the world that the passing of time leaves alone. *)
Definition timeless {X} (view : World -> X) : Prop :=
  forall t w, view (set_clock t w) = view w.



(** The address the dispatcher sends the email to: the reminder's own
    address, else the user's, when one of them is a non-empty string. *)
Definition emailTo (r : Reminder.t) (u : User.t) : option string :=
  let address := js_or (Reminder.notificationEmail r) (User.email u) in
  if truthy address then address else None.

(** [floor((effectiveDueDate - now) / 1 minute)]. *)
Definition minutesUntilDue (r : Reminder.t) (now : Date) : Z :=
  (date_or (Reminder.nextDueDate r) (Reminder.dueDate r) - now) / 60000.

(** The eligibility test: it is time to notify. *)
Definition shouldNotify (r : Reminder.t) (now : Date) : bool :=
  minutesUntilDue r now <=? Reminder.reminderTime r.

(** Twelve hours, in milliseconds. *)
Definition twelve_hours : Z := 12 * 60 * 60 * 1000.

(** The suppression test: a notification went out less than twelve hours
    ago. *)
Definition recently_notified (r : Reminder.t) (now : Date) : bool :=
  match Reminder.lastNotificationSent r with
  | Some last => now - last <? twelve_hours
  | None => false
  end.

(** The line [processReminder] logs just before it calls the dispatcher. *)
Definition is_dispatch_log (ev : Event) : bool :=
  match ev with
  | ConsoleLog (SendingReminderNotification _ _) => true
  | _ => false
  end.

(** A run in which the dispatcher was called. *)
Definition dispatched (evs : list Event) : bool := existsb is_dispatch_log evs.

(** Calls that reach a gateway or write to a store. *)
Definition is_effect (ev : Event) : bool :=
  match ev with
  | SmtpSendMail _ | HttpPost _ | NotificationCreate _ | ReminderSave _ => true
  | _ => false
  end.

(** The documents handed to [reminder.save()] during a run. *)
Fixpoint saved (evs : list Event) : list Reminder.t :=
  match evs with
  | [] => []
  | ReminderSave r :: evs' => r :: saved evs'
  | _ :: evs' => saved evs'
  end.

(** The events of a run that reaches the dispatcher, up to the
    dispatcher's return. *)
Definition dispatch_prefix (env : Env) (r : Reminder.t) (u : User.t) (w : World) : list Event :=
  UserFindById (Reminder.user r)
  :: ConsoleLog (SendingReminderNotification (Reminder.title r)
                   (minutesUntilDue r (clock w)))
  :: events (sendReminder env r u (elapse env w)).


(** Two reminder documents that agree on every path except, possibly,
    [lastNotificationSent]. *)
Definition same_but_lastNotificationSent (a b : Reminder.t) : Prop :=
  Reminder._id a = Reminder._id b /\
  Reminder.user a = Reminder.user b /\
  Reminder.title a = Reminder.title b /\
  Reminder.amount a = Reminder.amount b /\
  Reminder.type a = Reminder.type b /\
  Reminder.notes a = Reminder.notes b /\
  Reminder.isRecurring a = Reminder.isRecurring b /\
  Reminder.repeat a = Reminder.repeat b /\
  Reminder.status a = Reminder.status b /\
  Reminder.dueDate a = Reminder.dueDate b /\
  Reminder.nextDueDate a = Reminder.nextDueDate b /\
  Reminder.reminderTime a = Reminder.reminderTime b /\
  Reminder.notificationChannels a = Reminder.notificationChannels b /\
  Reminder.notificationEmail a = Reminder.notificationEmail b /\
  Reminder.isOverdue a = Reminder.isOverdue b.

(** A message handed to the mail gateway. *)
Definition is_mail (ev : Event) : bool :=
  match ev with
  | SmtpSendMail _ => true
  | _ => false
  end.

(** [nextDueDate ?? dueDate]: [nextDueDate] when it holds a date,
    otherwise [dueDate]. *)
Definition effectiveDueDate (r : Reminder.t) : Date :=
  match Reminder.nextDueDate r with
  | Holds next => next
  | Missing | Null => Reminder.dueDate r
  end.

(** Two hours, in milliseconds. *)
Definition two_hours : Z := 2 * 60 * 60 * 1000.

(** An active reminder whose effective due date lies in
    [[now, now + 2 hours]]. *)
Definition in_notice_window (now : Date) (r : Reminder.t) : Prop :=
  Reminder.status r = active /\
  now <= effectiveDueDate r <= now + two_hours.

(** The documents that the query of a scan started at [w] matches. *)
Definition found (w : World) : list Reminder.t :=
  filter (dueQuery (clock w) (clock w + 2 * 60 * 60 * 1000)) (reminders w).

(** Thirty days, in milliseconds. *)
Definition thirty_days : Z := 30 * (24 * 60 * 60 * 1000).

(** The cut-off of a cleanup run at [now]: the same wall-clock time
    thirty calendar days earlier, in the time zone of the process. *)
Definition thirtyDaysAgo (env : Env) (now : Date) : Date :=
  days_before (LocalTZA env) now 30.

(** A time zone whose offset is the same at [now] and thirty calendar
    days before: no daylight-saving change or other change of offset lies
    between the two days. *)
Definition same_offset_thirty_days_ago (env : Env) (now : Date) : Prop :=
  LocalTZA env (now + LocalTZA env now true - thirty_days) false = LocalTZA env now true.

(** A notification that was read before the cut-off of a cleanup run at
    [now]. *)
Definition expired (env : Env) (now : Date) (n : Notification.t) : Prop :=
  Notification.isRead n = true /\
  exists readAt, Notification.readAt n = Some readAt /\ readAt < thirtyDaysAgo env now.

(** The query of [cleanupOldNotifications] at time [now]:
    [{ isRead: true, readAt: { $lt: thirtyDaysAgo } }]. *)
Definition cleanupQuery (env : Env) (now : Date) (n : Notification.t) : bool :=
  Notification.isRead n &&
  match Notification.readAt n with
  | Some readAt => readAt <? days_before (LocalTZA env) now 30
  | None => false
  end.

(** The tasks of node-cron's table that are running a given callback. *)
Definition running_tasks (cb : Callback) (w : World) : list CronTask :=
  filter (fun t =>
            running t &&
            match callback t, cb with
            | RunCheckDueReminders, RunCheckDueReminders
            | RunCleanupOldNotifications, RunCleanupOldNotifications => true
            | _, _ => false
            end) (tasks w).

(** A scan being started. *)
Definition is_scan (ev : Event) : bool :=
  match ev with
  | ReminderFind => true
  | _ => false
  end.



(** * Scenarios *)

(** India Standard Time: five and a half hours ahead of UTC all year. *)
Definition india : Z -> bool -> Z := fun _ _ => 19800000.

(** A deployment with its collaborators given: no push credentials, no
    faults in the user store, a quarter of a second per awaited call, a
    server in India. *)
Definition deployment
    (smtp : Date -> MailOptions -> Reply string)
    (notification_create : Date -> Notification.draft -> Reply ObjectId)
    (reminder_find_fault : Date -> option JsError)
    (reminder_save_fault : Date -> Reminder.t -> option JsError)
    (user_findById_fault : Date -> ObjectId -> option JsError) : Env :=
  {| SMTP_USER := Some "khata@example.com";
     FRONTEND_URL := None;
     ONESIGNAL_APP_ID := None;
     ONESIGNAL_API_KEY := None;
     toLocaleDateString_enIN := fun _ => "14 November 2023 at 10:13 pm";
     toLocaleDateString := fun _ => "14/11/2023";
     formatINR := fun _ => "Rs 1,500.00";
     toUpperCase := fun s => s;
     numberToString := fun _ => "1500";
     LocalTZA := india;
     smtp := smtp;
     onesignal := fun _ _ => Resolves "{}";
     reminder_find_fault := reminder_find_fault;
     reminder_save_fault := reminder_save_fault;
     user_findById_fault := user_findById_fault;
     notification_create := notification_create;
     notification_deleteMany_fault := fun _ => None;
     latency := fun _ => 250%N |}.

Definition smtp_up : Date -> MailOptions -> Reply string :=
  fun _ _ => Resolves "<1@example.com>".
Definition smtp_down : Date -> MailOptions -> Reply string :=
  fun _ _ => Rejects {| message := "connect ECONNREFUSED" |}.
Definition store_up : Date -> Notification.draft -> Reply ObjectId :=
  fun _ _ => Resolves "n1".
Definition no_fault {A} : Date -> option A := fun _ => None.
Definition no_fault2 {A B} : Date -> B -> option A := fun _ _ => None.

(** Everything works. *)
Definition env_up : Env := deployment smtp_up store_up no_fault no_fault2 no_fault2.
(** The mail gateway refuses. *)
Definition env_smtp_down : Env :=
  deployment smtp_down store_up no_fault no_fault2 no_fault2.
(** The user store fails for user [u1] only. *)
Definition env_u1_lookup_fails : Env :=
  deployment smtp_up store_up no_fault no_fault2
    (fun _ id => if String.eqb id "u1" then Some {| message := "cast failed" |} else None).
(** The database is down until time [t0]. *)
Definition env_db_down_until (t0 : Date) : Env :=
  deployment smtp_up store_up
    (fun t => if t <? t0 then Some {| message := "topology destroyed" |} else None)
    no_fault2 no_fault2.

(** The time the electricity bill is due. *)
Definition T : Date := 1700000000000.
Definition minutes (n : Z) : Z := n * 60000.
Definition hours (n : Z) : Z := n * 3600000.
Definition days (n : Z) : Z := n * 86400000.

Definition only_email : Channels.t :=
  {| Channels.email := true; Channels.push := false; Channels.inApp := false |}.
Definition all_channels : Channels.t :=
  {| Channels.email := true; Channels.push := true; Channels.inApp := true |}.

(** The reminder of the scenario of section 8 of the specification. *)
Definition bill : Reminder.t :=
  {| Reminder._id := "r1"; Reminder.user := "u1";
     Reminder.title := "Electricity Bill"; Reminder.amount := 1500;
     Reminder.type := "bill"; Reminder.notes := None;
     Reminder.isRecurring := false; Reminder.repeat := "none";
     Reminder.status := active; Reminder.dueDate := T;
     Reminder.nextDueDate := Missing; Reminder.reminderTime := 120;
     Reminder.notificationChannels := Some only_email;
     Reminder.notificationEmail := None;
     Reminder.lastNotificationSent := None; Reminder.isOverdue := false |}.

(** The same reminder with other channels, or without the sub-document. *)
Definition bill_with (channels : option Channels.t) : Reminder.t :=
  {| Reminder._id := "r1"; Reminder.user := "u1";
     Reminder.title := "Electricity Bill"; Reminder.amount := 1500;
     Reminder.type := "bill"; Reminder.notes := None;
     Reminder.isRecurring := false; Reminder.repeat := "none";
     Reminder.status := active; Reminder.dueDate := T;
     Reminder.nextDueDate := Missing; Reminder.reminderTime := 120;
     Reminder.notificationChannels := channels;
     Reminder.notificationEmail := None;
     Reminder.lastNotificationSent := None; Reminder.isOverdue := false |}.

(** The same reminder with another lead time, in minutes. *)
Definition bill_lead (lead : Z) : Reminder.t :=
  {| Reminder._id := "r1"; Reminder.user := "u1";
     Reminder.title := "Electricity Bill"; Reminder.amount := 1500;
     Reminder.type := "bill"; Reminder.notes := None;
     Reminder.isRecurring := false; Reminder.repeat := "none";
     Reminder.status := active; Reminder.dueDate := T;
     Reminder.nextDueDate := Missing; Reminder.reminderTime := lead;
     Reminder.notificationChannels := Some only_email;
     Reminder.notificationEmail := None;
     Reminder.lastNotificationSent := None; Reminder.isOverdue := false |}.

(** A second reminder, of another user, due a little later. *)
Definition rent : Reminder.t :=
  {| Reminder._id := "r2"; Reminder.user := "u2";
     Reminder.title := "Rent"; Reminder.amount := 12000;
     Reminder.type := "bill"; Reminder.notes := Some "pay the landlord";
     Reminder.isRecurring := true; Reminder.repeat := "monthly";
     Reminder.status := active; Reminder.dueDate := T - days 30;
     Reminder.nextDueDate := Holds (T + minutes 10); Reminder.reminderTime := 180;
     Reminder.notificationChannels := Some only_email;
     Reminder.notificationEmail := Some "rent@example.com";
     Reminder.lastNotificationSent := None; Reminder.isOverdue := false |}.

Definition asha : User.t :=
  {| User._id := "u1"; User.name := "Asha"; User.email := Some "asha@example.com" |}.
Definition ravi : User.t :=
  {| User._id := "u2"; User.name := "Ravi"; User.email := Some "ravi@example.com" |}.
(** A user without a registered address. *)
Definition anon : User.t :=
  {| User._id := "u1"; User.name := "Asha"; User.email := None |}.

(** Ninety minutes before the bill is due. *)
Definition world0 : World :=
  {| clock := T - minutes 90; reminders := [bill; rent]; users := [asha; ravi];
     notifications := []; tasks := []; jobs := [] |}.

(** The mail gateway refuses until time [t0] and works from then on. *)
Definition env_smtp_down_until (t0 : Date) : Env :=
  deployment
    (fun t o => if t <? t0 then smtp_down t o else smtp_up t o)
    store_up no_fault no_fault2 no_fault2.

(** Ninety minutes before the bill is due, the bill alone. *)
Definition world_bill : World :=
  {| clock := T - minutes 90; reminders := [bill]; users := [asha];
     notifications := []; tasks := []; jobs := [] |}.

(** Ninety minutes before the bill is due, its owner having no address. *)
Definition world_anon : World :=
  {| clock := T - minutes 90; reminders := [bill]; users := [anon];
     notifications := []; tasks := []; jobs := [] |}.

(** A reminder that is paused, and one that is due in three hours. *)
Definition paused_bill : Reminder.t :=
  {| Reminder._id := "r3"; Reminder.user := "u1";
     Reminder.title := "Gym"; Reminder.amount := 900;
     Reminder.type := "subscription"; Reminder.notes := None;
     Reminder.isRecurring := false; Reminder.repeat := "none";
     Reminder.status := paused; Reminder.dueDate := T;
     Reminder.nextDueDate := Missing; Reminder.reminderTime := 120;
     Reminder.notificationChannels := Some only_email;
     Reminder.notificationEmail := None;
     Reminder.lastNotificationSent := None; Reminder.isOverdue := false |}.
Definition later_bill : Reminder.t :=
  {| Reminder._id := "r4"; Reminder.user := "u1";
     Reminder.title := "Water"; Reminder.amount := 300;
     Reminder.type := "bill"; Reminder.notes := None;
     Reminder.isRecurring := false; Reminder.repeat := "none";
     Reminder.status := active; Reminder.dueDate := T + minutes 90;
     Reminder.nextDueDate := Missing; Reminder.reminderTime := 600;
     Reminder.notificationChannels := Some only_email;
     Reminder.notificationEmail := None;
     Reminder.lastNotificationSent := None; Reminder.isOverdue := false |}.

(** Ninety minutes before the bill is due, with all four reminders. *)
Definition world_four : World :=
  {| clock := T - minutes 90;
     reminders := [paused_bill; bill; later_bill; rent]; users := [asha; ravi];
     notifications := []; tasks := []; jobs := [] |}.

(** A time at which the database of [env_db_down_until T] is down, and the
    next tick of the scan, a quarter of an hour later, when it is up. *)
Definition world_db_down : World :=
  {| clock := T - minutes 10; reminders := [bill; rent]; users := [asha; ravi];
     notifications := []; tasks := []; jobs := [] |}.

Definition inbox_entry (id : ObjectId) (isRead : bool) (readAt : option Date)
    : Notification.t :=
  {| Notification._id := id;
     Notification.fields :=
       {| Notification.user := "u1"; Notification.type := "reminder";
          Notification.title := "Payment Reminder: Electricity Bill";
          Notification.message := "Electricity Bill is due";
          Notification.relatedId := "r1"; Notification.relatedType := "Reminder";
          Notification.priority := normal |};
     Notification.isRead := isRead;
     Notification.readAt := readAt |}.

(** Read thirty-one days ago, read twenty-nine days ago, never read. *)
Definition read_31_days_ago : Notification.t := inbox_entry "n31" true (Some (T - days 31)).
Definition read_29_days_ago : Notification.t := inbox_entry "n29" true (Some (T - days 29)).
Definition never_read : Notification.t := inbox_entry "n0" false None.

Definition world_inbox (inbox : list Notification.t) : World :=
  {| clock := T; reminders := []; users := [asha];
     notifications := inbox; tasks := []; jobs := [] |}.

(** The process at boot: nothing scheduled. *)
Definition world_boot : World :=
  {| clock := T - minutes 90; reminders := [bill]; users := [asha];
     notifications := []; tasks := []; jobs := [] |}.

(** New York around the end of daylight saving time, on 5 November 2023 at
    06:00 UTC: four hours behind UTC before, five hours behind from then
    on.  A local time that occurs twice, between 01:00 and 02:00 of that
    day, is read with the offset before the change. *)
Definition new_york : Z -> bool -> Z :=
  fun t isUTC =>
    if isUTC
    then if t <? 1699164000000 then - (4 * 3600000) else - (5 * 3600000)
    else if t <? 1699149600000 then - (4 * 3600000) else - (5 * 3600000).

(** A deployment moved to another time zone. *)
Definition in_zone (zone : Z -> bool -> Z) (e : Env) : Env :=
  {| SMTP_USER := SMTP_USER e;
     FRONTEND_URL := FRONTEND_URL e;
     ONESIGNAL_APP_ID := ONESIGNAL_APP_ID e;
     ONESIGNAL_API_KEY := ONESIGNAL_API_KEY e;
     toLocaleDateString_enIN := toLocaleDateString_enIN e;
     toLocaleDateString := toLocaleDateString e;
     formatINR := formatINR e;
     toUpperCase := toUpperCase e;
     numberToString := numberToString e;
     LocalTZA := zone;
     smtp := smtp e;
     onesignal := onesignal e;
     reminder_find_fault := reminder_find_fault e;
     reminder_save_fault := reminder_save_fault e;
     user_findById_fault := user_findById_fault e;
     notification_create := notification_create e;
     notification_deleteMany_fault := notification_deleteMany_fault e;
     latency := latency e |}.

(** Read half an hour more than thirty times twenty-four hours ago. *)
Definition read_30_days_and_half_an_hour_ago : Notification.t :=
  inbox_entry "n30" true (Some (T - days 30 - minutes 30)).

(** The bill as a document that stores [nextDueDate: null]. *)
Definition bill_null : Reminder.t :=
  {| Reminder._id := "r1"; Reminder.user := "u1";
     Reminder.title := "Electricity Bill"; Reminder.amount := 1500;
     Reminder.type := "bill"; Reminder.notes := None;
     Reminder.isRecurring := false; Reminder.repeat := "none";
     Reminder.status := active; Reminder.dueDate := T;
     Reminder.nextDueDate := Null; Reminder.reminderTime := 120;
     Reminder.notificationChannels := Some only_email;
     Reminder.notificationEmail := None;
     Reminder.lastNotificationSent := None; Reminder.isOverdue := false |}.

(** Ninety minutes before that bill is due. *)
Definition world_null : World :=
  {| clock := T - minutes 90; reminders := [bill_null]; users := [asha];
     notifications := []; tasks := []; jobs := [] |}.

(** The mail gateway refuses, and so does the reminder store, for every
    save, until time [t0]. *)
Definition env_save_down_until (t0 : Date) : Env :=
  deployment smtp_down store_up no_fault
    (fun t _ => if t <? t0 then Some {| message := "connection closed" |} else None)
    no_fault2.

(** * Further vocabulary *)

(** The scheduler keeps track of what it started: every running task of
    node-cron's table is held by one of [this.jobs]. *)
Definition tracked (w : World) : Prop :=
  forall h t,
    nth_error (tasks w) h = Some t -> running t = true ->
    exists j, In j (jobs w) /\ job j = h.

(** No channel enabled. *)
Definition no_channel : Channels.t :=
  {| Channels.email := false; Channels.push := false; Channels.inApp := false |}.

(** The result of a dispatch that recorded nothing and completed. *)
Definition nothing_sent : Results.t :=
  {| Results.email := None; Results.push := None; Results.inApp := None;
     Results.success := true; Results.error := None |}.

(** Ninety minutes before the bill is due, with a bill that has its
    channel sub-document and every channel switched off. *)
Definition world_silent : World :=
  {| clock := T - minutes 90; reminders := [bill_with (Some no_channel)];
     users := [asha]; notifications := []; tasks := []; jobs := [] |}.

(** * The receipt controller: [backend/controllers/ocrController.js] *)

(** ** JavaScript strings, as sequences of UTF-16 code units *)

Definition JsString := list Z.

(** The code units of a literal written in ASCII. *)
Definition units (s : string) : JsString :=
  map (fun a => Z.of_N (Ascii.N_of_ascii a)) (list_ascii_of_string s).

(** [WhiteSpace] and [LineTerminator]: what [\s] matches and what
    [String.prototype.trim] removes. *)
Definition is_whitespace (c : Z) : bool :=
  (c =? 9) || (c =? 10) || (c =? 11) || (c =? 12) || (c =? 13) || (c =? 32) ||
  (c =? 160) || (c =? 5760) || ((8192 <=? c) && (c <=? 8202)) ||
  (c =? 8232) || (c =? 8233) || (c =? 8239) || (c =? 8287) || (c =? 12288) ||
  (c =? 65279).

Definition is_digit (c : Z) : bool := (48 <=? c) && (c <=? 57).
Definition is_upper (c : Z) : bool := (65 <=? c) && (c <=? 90).
Definition is_lower (c : Z) : bool := (97 <=? c) && (c <=? 122).

(** [\w], and with it [\b]. *)
Definition is_word (c : Z) : bool :=
  is_lower c || is_upper c || is_digit c || (c =? 95).

(** [[a-zA-Z0-9 ]]. *)
Definition is_alnum_or_space (c : Z) : bool :=
  is_lower c || is_upper c || is_digit c || (c =? 32).

(** [[\d.,]]. *)
Definition is_amount_char (c : Z) : bool := is_digit c || (c =? 46) || (c =? 44).

(** [[:\-]]. *)
Definition is_colon_or_hyphen (c : Z) : bool := (c =? 58) || (c =? 45).

(** The rupee sign, U+20B9. *)
Definition rupee : Z := 8377.

(** How the [i] flag compares a code unit with a pattern character in
    ASCII: letters match in either case, and no code unit outside ASCII
    is folded onto an ASCII one. *)
Definition fold_case (c : Z) : Z := if is_upper c then c + 32 else c.

(** [p*] at the start of [s], greedy: what is left. *)
Fixpoint drop_while (p : Z -> bool) (s : JsString) : JsString :=
  match s with
  | c :: s' => if p c then drop_while p s' else s
  | [] => []
  end.

(** [p*] at the start of [s], greedy: what is matched. *)
Fixpoint take_while (p : Z -> bool) (s : JsString) : JsString :=
  match s with
  | c :: s' => if p c then c :: take_while p s' else []
  | [] => []
  end.

(** [p?] at the start of [s]: what is left. *)
Definition optional (p : Z -> bool) (s : JsString) : JsString :=
  match s with
  | c :: s' => if p c then s' else s
  | [] => []
  end.

(** [s.trim()]. *)
Definition trim (s : JsString) : JsString :=
  rev (drop_while is_whitespace (rev (drop_while is_whitespace s))).

(** A literal at the start of [s], compared under the [i] flag: what is
    left after it. *)
Fixpoint starts_ci (pat s : JsString) : option JsString :=
  match pat, s with
  | [], _ => Some s
  | p :: pat', c :: s' =>
      if fold_case c =? fold_case p then starts_ci pat' s' else None
  | _ :: _, [] => None
  end.

(** A literal at the start of [s]. *)
Fixpoint starts_with (pat s : JsString) : bool :=
  match pat, s with
  | [], _ => true
  | p :: pat', c :: s' => (c =? p) && starts_with pat' s'
  | _ :: _, [] => false
  end.

(** [s.includes(pat)]. *)
Fixpoint includes (s pat : JsString) : bool :=
  starts_with pat s ||
  match s with
  | [] => false
  | _ :: s' => includes s' pat
  end.

(** [s.match(regex)] for a regex without [g]: the pattern is tried at
    each position from the left; [at_start] is the pattern tried at the
    start of its argument and yields the first capture group. *)
Fixpoint regex_search (at_start : JsString -> option JsString) (s : JsString)
    : option JsString :=
  match at_start s with
  | Some captured => Some captured
  | None =>
      match s with
      | [] => None
      | _ :: s' => regex_search at_start s'
      end
  end.

(** [\s*([\d.,]+)]: the classes are disjoint, so the greedy match is the
    only one. *)
Definition amount_tail (s : JsString) : option JsString :=
  match take_while is_amount_char (drop_while is_whitespace s) with
  | [] => None
  | digits => Some digits
  end.

(** [\s*[:\-]?\s*₹?\s*([\d.,]+)]. *)
Definition labelled_tail (s : JsString) : option JsString :=
  amount_tail
    (optional (Z.eqb rupee)
       (drop_while is_whitespace
          (optional is_colon_or_hyphen (drop_while is_whitespace s)))).

(** [/total\s*[:\-]?\s*₹?\s*([\d.,]+)/i],
    [/amount\s*[:\-]?\s*₹?\s*([\d.,]+)/i] and [/₹\s*([\d.,]+)/]. *)
Definition amountRegexes : list (JsString -> option JsString) :=
  [ (fun s => match starts_ci (units "total") s with
              | Some rest => labelled_tail rest
              | None => None
              end);
    (fun s => match starts_ci (units "amount") s with
              | Some rest => labelled_tail rest
              | None => None
              end);
    (fun s => match s with
              | c :: rest => if c =? rupee then amount_tail rest else None
              | [] => None
              end) ].

(** The loop over [amountRegexes]: the first capture of the first regex
    that matches. *)
Fixpoint first_match (regexes : list (JsString -> option JsString)) (text : JsString)
    : option JsString :=
  match regexes with
  | [] => None
  | regex :: regexes' =>
      match regex_search regex text with
      | Some captured => Some captured
      | None => first_match regexes' text
      end
  end.

(** [match[1].replace(/,/g, '')]. *)
Definition remove_commas (s : JsString) : JsString :=
  filter (fun c => negb (c =? 44)) s.

(** The [categories] object, in the order of its keys. *)
Definition categories : list (string * list string) :=
  [ ("Food", ["hotel"; "restaurant"; "cafe"; "food"; "pizza"; "burger"]);
    ("Transport", ["uber"; "ola"; "fuel"; "petrol"; "diesel"; "metro"]);
    ("Shopping", ["store"; "mall"; "shop"; "mart"]);
    ("Bills", ["electricity"; "water"; "wifi"; "mobile"]);
    ("Health", ["pharmacy"; "hospital"; "clinic"]) ].

(** The loop over [Object.entries(categories)]. *)
Fixpoint first_category (entries : list (string * list string)) (lower : JsString)
    : string :=
  match entries with
  | [] => "Other"
  | (key, words) :: entries' =>
      if existsb (fun w => includes lower (units w)) words then key
      else first_category entries' lower
  end.

(** [text.split('\n')]. *)
Fixpoint split_lines (s : JsString) : list JsString :=
  match s with
  | [] => [[]]
  | c :: s' =>
      if c =? 10 then [] :: split_lines s'
      else match split_lines s' with
           | l :: ls => (c :: l) :: ls
           | [] => [[c]]
           end
  end.

(** [.replace(/\bCe be\b/i, 'Cafe Aroma')]: the first occurrence of the
    words, between word boundaries; [after_word] tells whether the code
    unit before [s] is a word character. *)
Fixpoint replace_ce_be (after_word : bool) (s : JsString) : JsString :=
  let here :=
    if after_word then false
    else match starts_ci (units "ce be") s with
         | Some (c :: _) => negb (is_word c)
         | Some [] => true
         | None => false
         end in
  if here then units "Cafe Aroma" ++ skipn 5 s
  else match s with
       | [] => []
       | c :: s' => c :: replace_ce_be (is_word c) s'
       end.

(** The merchant of [parseReceiptData]: the first line that is longer
    than three code units once trimmed, cleaned up. *)
Definition merchant_of (text : JsString) : JsString :=
  let lines :=
    filter (fun l => (3 <? Z.of_nat (List.length (trim l)))) (split_lines text) in
  match lines with
  | (_ :: _) as line :: _ =>
      trim (replace_ce_be false (filter is_alnum_or_space line))
  | _ => units "Unknown Merchant"
  end.

(** What [parseReceiptData] returns; [amount] is [null] or a number. *)
Record Receipt (Number : Type) := {
  receipt_title : JsString;
  receipt_merchant : JsString;
  receipt_amount : option Number;
  receipt_category : string
}.
Arguments receipt_title {Number} r.
Arguments receipt_merchant {Number} r.
Arguments receipt_amount {Number} r.
Arguments receipt_category {Number} r.

Section ParseReceipt.

(** JavaScript numbers, [parseFloat] and [String.prototype.toLowerCase]
    are those of the engine. *)
Variable Number : Type.
Variable parseFloat : JsString -> Number.
Variable toLowerCase : JsString -> JsString.

(** [parseReceiptData(text)]. *)
Definition parseReceiptData (text : JsString) : Receipt Number :=
  let lower := toLowerCase text in
  let amount :=
    match first_match amountRegexes text with
    | Some captured => Some (parseFloat (remove_commas captured))
    | None => None
    end in
  let category := first_category categories lower in
  let merchant := merchant_of text in
  {| receipt_title := merchant;
     receipt_merchant := merchant;
     receipt_amount := amount;
     receipt_category := category |}.

End ParseReceipt.

(** [c] occurs in [s] as a run of consecutive code units. *)
Definition occurs_in (c s : JsString) : Prop :=
  exists before after, s = before ++ c ++ after.

(** Some keyword of some category. *)
Definition is_keyword (w : string) : Prop :=
  exists key words, In (key, words) categories /\ In w words.

(** A capture: a non-empty run of [[\d.,]] that occurs in the string. *)
Definition captured_from (d s : JsString) : Prop :=
  d <> [] /\ Forall (fun c => is_amount_char c = true) d /\ occurs_in d s.

(** [toLowerCase] on a text in ASCII. *)
Definition ascii_lower (s : JsString) : JsString := map fold_case s.

(** A receipt as the OCR reads it. *)
Definition receipt_text : JsString :=
  units "  Ce Be, Pune!" ++ [10] ++
  units "1 x Latte   180.00" ++ [10] ++
  units "TOTAL : " ++ [rupee] ++ units " 1,180.50 thanks" ++ [10].

(** ** A monad for the controllers

    The same construction as for the services, over any type of recorded
    calls. *)

Record Ran (E S A : Type) := mkRan {
  completion : Completion A;
  final : S;
  trace : list E
}.
Arguments mkRan {E S A} completion final trace.
Arguments completion {E S A} r.
Arguments final {E S A} r.
Arguments trace {E S A} r.

Definition Act (E S A : Type) : Type := S -> Ran E S A.

Definition pure {E S A} (a : A) : Act E S A :=
  fun s => mkRan (Normal a) s [].

Definition raise {E S A} (e : JsError) : Act E S A :=
  fun s => mkRan (Throw e) s [].

Definition and_then {E S A B} (m : Act E S A) (k : A -> Act E S B) : Act E S B :=
  fun s =>
    let r := m s in
    match completion r with
    | Normal a =>
        let r' := k a (final r) in
        mkRan (completion r') (final r') (trace r ++ trace r')
    | Throw e => mkRan (Throw e) (final r) (trace r)
    end.

(** [try { body } catch (err) { handler }]. *)
Definition attempt {E S A} (body : Act E S A) (handler : JsError -> Act E S A)
    : Act E S A :=
  fun s =>
    let r := body s in
    match completion r with
    | Normal _ => r
    | Throw e =>
        let r' := handler e (final r) in
        mkRan (completion r') (final r') (trace r ++ trace r')
    end.

Definition tell {E S} (ev : E) : Act E S unit :=
  fun s => mkRan (Normal tt) s [ev].

Declare Scope act_scope.
Delimit Scope act_scope with act.
Notation "x <- m ;; k" := (and_then m (fun x => k))
  (at level 100, m at next level, right associativity) : act_scope.
Notation "m ;; k" := (and_then m (fun _ => k))
  (at level 100, right associativity) : act_scope.

(** ** The file system, the OCR worker and the HTTP response *)

(** [req.file], as multer leaves it. *)
Record Upload := { filename : string; path : string }.

(** The body of a response. *)
Inductive Body (Number : Type) :=
| Failure (error : string)
| Parsed (parsed : Receipt Number) (rawText : JsString) (confidence : Z)
         (items : list unit) (date : string).
Arguments Failure {Number} error.
Arguments Parsed {Number} parsed rawText confidence items date.

Inductive OcrLog :=
| InitializingWorker
| WorkerReady
| SharpFailed (msg : string)
| OcrHit (filename : string)
| OcrFailed (err : JsError).

Inductive OcrEvent (Number : Type) :=
| OcrConsoleLog (m : OcrLog)
| OcrConsoleError (m : OcrLog)
| CreateWorker
| SharpToFile (input output : string)
| Recognize (image : string)
| Unlink (file : string)
| Respond (status : Z) (body : Body Number).
Arguments OcrConsoleLog {Number} m.
Arguments OcrConsoleError {Number} m.
Arguments CreateWorker {Number}.
Arguments SharpToFile {Number} input output.
Arguments Recognize {Number} image.
Arguments Unlink {Number} file.
Arguments Respond {Number} status body.

(** The state the controller works on: the clock, the files on disk and
    the module variable [worker]. *)
Record Server := {
  today : Date;
  files : list string;
  worker : bool
}.

Definition set_files (l : list string) (s : Server) : Server :=
  {| today := today s; files := l; worker := worker s |}.
Definition set_worker (b : bool) (s : Server) : Server :=
  {| today := today s; files := files s; worker := b |}.

(** ASCII letters in lower case. *)
Definition lower_ascii (a : Ascii.ascii) : Ascii.ascii :=
  let n := Ascii.N_of_ascii a in
  if ((65 <=? n) && (n <=? 90))%N then Ascii.ascii_of_N (n + 32) else a.

(** A literal at the start of a path, letters in either case: what is
    left after it. *)
Fixpoint strip_prefix_ci (pat s : list Ascii.ascii) : option (list Ascii.ascii) :=
  match pat, s with
  | [], _ => Some s
  | p :: pat', c :: s' =>
      if Ascii.eqb (lower_ascii c) (lower_ascii p) then strip_prefix_ci pat' s' else None
  | _ :: _, [] => None
  end.

(** A literal at the end of a path: what is before it. *)
Definition strip_suffix_ci (ext : string) (p : string) : option (list Ascii.ascii) :=
  option_map (@rev Ascii.ascii)
    (strip_prefix_ci (rev (list_ascii_of_string ext)) (rev (list_ascii_of_string p))).

(** The alternatives of [/\.(jpg|jpeg|png|webp)$/i]. *)
Definition image_extensions : list string := [".jpg"; ".jpeg"; ".png"; ".webp"].

(** The part of the path before the extension the regex matches. *)
Fixpoint stem_of (exts : list string) (p : string) : option (list Ascii.ascii) :=
  match exts with
  | [] => None
  | ext :: exts' =>
      match strip_suffix_ci ext p with
      | Some stem => Some stem
      | None => stem_of exts' p
      end
  end.

(** [inputPath.replace(/\.(jpg|jpeg|png|webp)$/i, '_ocr.png')]. *)
Definition ocr_path (inputPath : string) : string :=
  match stem_of image_extensions inputPath with
  | Some stem => string_of_list_ascii (stem ++ list_ascii_of_string "_ocr.png")
  | None => inputPath
  end.

(** The files on disk with one more, and with one less. *)
Definition add_file (file : string) (l : list string) : list string :=
  if existsb (String.eqb file) l then l else file :: l.
Definition remove_file (file : string) (l : list string) : list string :=
  filter (fun f => negb (String.eqb file f)) l.

Definition ENOENT : JsError := {| message := "ENOENT: no such file or directory" |}.

(** [path.split('T')[0]] of an ISO timestamp. *)
Fixpoint before_T (s : string) : string :=
  match s with
  | EmptyString => EmptyString
  | String a s' =>
      if Ascii.eqb a (Ascii.ascii_of_N 84) then EmptyString else String a (before_T s')
  end.

Section OcrController.

Local Open Scope act_scope.

Variable Number : Type.
Variable parseFloat : JsString -> Number.
Variable toLowerCase : JsString -> JsString.
Variable toISOString : Date -> string.

(** What the libraries answer: whether the sharp pipeline from one file
    to another fails, what Tesseract reads in an image, and whether the
    operating system refuses to remove a file. *)
Variable sharp : string -> string -> option JsError.
Variable tesseract : string -> Reply JsString.
Variable unlink_fault : string -> option JsError.

Let Ocr (A : Type) : Type := Act (OcrEvent Number) Server A.

(** [sharp(input)...toFile(output)]: the output file exists afterwards. *)
Definition sharp_toFile (input output : string) : Ocr unit :=
  fun s =>
    match sharp input output with
    | Some e => mkRan (Throw e) s [SharpToFile input output]
    | None =>
        mkRan (Normal tt) (set_files (add_file output (files s)) s)
              [SharpToFile input output]
    end.

(** [ocrWorker.recognize(image, options)], resolving to [data.text]. *)
Definition recognize (image : string) : Ocr JsString :=
  fun s =>
    match tesseract image with
    | Resolves text => mkRan (Normal text) s [Recognize image]
    | Rejects e => mkRan (Throw e) s [Recognize image]
    end.

(** [fs.unlink(file)]: removes the file, or rejects. *)
Definition fs_unlink (file : string) : Ocr unit :=
  fun s =>
    match unlink_fault file with
    | Some e => mkRan (Throw e) s [Unlink file]
    | None =>
        if existsb (String.eqb file) (files s)
        then mkRan (Normal tt) (set_files (remove_file file (files s)) s) [Unlink file]
        else mkRan (Throw ENOENT) s [Unlink file]
    end.

(** [promise.catch(() => {})]. *)
Definition catch_ignore (m : Ocr unit) : Ocr unit :=
  attempt m (fun _ => pure tt).

(** [initWorker()]. *)
Definition initWorker : Ocr unit :=
  fun s =>
    if negb (worker s) then
      (tell (OcrConsoleLog InitializingWorker) ;;
       (fun s => mkRan (Normal tt) (set_worker true s) [CreateWorker]) ;;
       tell (OcrConsoleLog WorkerReady)) s
    else pure tt s.

(** [preprocessImage(inputPath)]. *)
Definition preprocessImage (inputPath : string) : Ocr string :=
  attempt
    (let outputPath := ocr_path inputPath in
     sharp_toFile inputPath outputPath ;;
     pure outputPath)
    (fun err =>
       tell (OcrConsoleError (SharpFailed (message err))) ;;
       pure inputPath).

(** [extractTextFromImage(imagePath)]. *)
Definition extractTextFromImage (imagePath : string) : Ocr JsString :=
  processedPath <- preprocessImage imagePath ;;
  initWorker ;;
  text <- recognize processedPath ;;
  (if negb (String.eqb processedPath imagePath)
   then catch_ignore (fs_unlink processedPath)
   else pure tt) ;;
  pure (trim text).

(** [res.status(status).json(body)]; [res.json(body)] answers 200. *)
Definition respond (status : Z) (body : Body Number) : Ocr unit :=
  tell (Respond status body).

(** [processReceipt(req, res)]; [file] is [req.file]. *)
Definition processReceipt (file : option Upload) : Ocr unit :=
  attempt
    (match file with
     | None => respond 400 (Failure "No image uploaded")
     | Some file =>
         tell (OcrConsoleLog (OcrHit (filename file))) ;;
         text <- extractTextFromImage (path file) ;;
         catch_ignore (fs_unlink (path file)) ;;
         if match text with [] => true | _ => false end
            || (Z.of_nat (List.length text) <? 20)
         then respond 400 (Failure "OCR failed. Please upload a clearer image.")
         else
           let parsed := parseReceiptData Number parseFloat toLowerCase text in
           now <- (fun s => mkRan (Normal (today s)) s []) ;;
           respond 200 (Parsed parsed text 90 [] (before_T (toISOString now)))
     end)
    (fun err =>
       tell (OcrConsoleError (OcrFailed err)) ;;
       respond 500
         (Failure (match message err with
                   | EmptyString => "OCR processing failed"
                   | m => m
                   end))).

End OcrController.

(** A response being sent, a worker being created, a file being removed. *)
Definition is_response {Number} (ev : OcrEvent Number) : bool :=
  match ev with
  | Respond _ _ => true
  | _ => false
  end.
Definition is_createWorker {Number} (ev : OcrEvent Number) : bool :=
  match ev with
  | CreateWorker => true
  | _ => false
  end.
Definition unlinked {Number} (ev : OcrEvent Number) : list string :=
  match ev with
  | Unlink file => [file]
  | _ => []
  end.

(** The image Tesseract is given for an upload at [p]: the preprocessed
    copy, or the upload itself when sharp fails. *)
Definition image_read (sharp : string -> string -> option JsError) (p : string)
    : string :=
  match sharp p (ocr_path p) with
  | None => ocr_path p
  | Some _ => p
  end.

(** [err.message || 'OCR processing failed']. *)
Definition message_or_default (e : JsError) : string :=
  match message e with
  | EmptyString => "OCR processing failed"
  | m => m
  end.

(** [req.file] being there. *)
Definition has_file (file : option Upload) : bool :=
  match file with
  | Some _ => true
  | None => false
  end.

(** ** The financial advisor's controller

    [controllers/aiAdvisorController.js].  The documents of the three
    collections, the question, the advice and JavaScript's numbers are kept
    abstract: the controller reads the owner of a document, the date of an
    expense and the amount of an income, and adds amounts with [+].  The
    advisor engine and the failures of the queries are given from
    outside. *)

Module Advisor.

Inductive Collection := Expenses | Incomes | Portfolios.

(** What the controller passes to [advisorEngine]. *)
Record Input (Question ExpenseDoc Number Holding : Type) := {
  question : Question;
  expenses : list ExpenseDoc;
  income : Number;
  portfolio : list Holding
}.
Arguments question {Question ExpenseDoc Number Holding} _.
Arguments expenses {Question ExpenseDoc Number Holding} _.
Arguments income {Question ExpenseDoc Number Holding} _.
Arguments portfolio {Question ExpenseDoc Number Holding} _.

(** [stats] of the answer. *)
Record Stats (Number : Type) := {
  stats_expenses : nat;
  stats_income : Number;
  stats_portfolioCount : nat
}.
Arguments stats_expenses {Number} _.
Arguments stats_income {Number} _.
Arguments stats_portfolioCount {Number} _.

(** The body of the answer: [{ advice, stats }], or [{ advice }] alone. *)
Inductive Body (Advice Number : Type) :=
| Advised (advice : Advice) (stats : Stats Number)
| Unable (advice : string).
Arguments Advised {Advice Number} advice stats.
Arguments Unable {Advice Number} advice.

Inductive Call (Question ExpenseDoc Number Holding Advice : Type) :=
| Find (c : Collection)
| Engine (input : Input Question ExpenseDoc Number Holding)
| ConsoleError (err : JsError)
| Respond (status : Z) (body : Body Advice Number).
Arguments Find {Question ExpenseDoc Number Holding Advice} c.
Arguments Engine {Question ExpenseDoc Number Holding Advice} input.
Arguments ConsoleError {Question ExpenseDoc Number Holding Advice} err.
Arguments Respond {Question ExpenseDoc Number Holding Advice} status body.

(** [req]: [req.user], set by the middleware before the controller, and
    [req.body]; [None] is [undefined]. *)
Record Request (Question : Type) := {
  user : option ObjectId;
  body : option Question
}.
Arguments user {Question} _.
Arguments body {Question} _.

(** The clock and the three collections. *)
Record Store (ExpenseDoc IncomeDoc Holding : Type) := {
  now : Date;
  Expense : list ExpenseDoc;
  Income : list IncomeDoc;
  Portfolio : list Holding
}.
Arguments now {ExpenseDoc IncomeDoc Holding} _.
Arguments Expense {ExpenseDoc IncomeDoc Holding} _.
Arguments Income {ExpenseDoc IncomeDoc Holding} _.
Arguments Portfolio {ExpenseDoc IncomeDoc Holding} _.

Section Controller.

Local Open Scope act_scope.

Variables Question ExpenseDoc IncomeDoc Number Holding Advice : Type.

(** [a + b] and [0]. *)
Variable plus : Number -> Number -> Number.
Variable zero : Number.

(** The fields the controller and its queries read. *)
Variable expense_user : ExpenseDoc -> ObjectId.
Variable expense_date : ExpenseDoc -> option Date.
Variable income_user : IncomeDoc -> ObjectId.
Variable income_amount : IncomeDoc -> Number.
Variable holding_user : Holding -> ObjectId.

(** The time zone of the process: ECMA-262's [LocalTZA(t, isUTC)]. *)
Variable LocalTZA : Z -> bool -> Z.

(** Whether a query on a collection fails, and what the engine does
    with its input. *)
Variable find_fault : Collection -> option JsError.
Variable advisorEngine : Input Question ExpenseDoc Number Holding -> Reply Advice.

Let Adv (A : Type) : Type :=
  Act (Call Question ExpenseDoc Number Holding Advice)
      (Store ExpenseDoc IncomeDoc Holding) A.

(** [Model.find(query)]. *)
Definition find {D : Type} (c : Collection)
    (docs : Store ExpenseDoc IncomeDoc Holding -> list D) (query : D -> bool)
    : Adv (list D) :=
  fun s =>
    match find_fault c with
    | Some e => mkRan (Throw e) s [Find c]
    | None => mkRan (Normal (filter query (docs s))) s [Find c]
    end.

(** A member read of a value that may be [undefined]. *)
Definition reading {A : Type} (member : string) (v : option A) : Adv A :=
  match v with
  | Some a => pure a
  | None => raise (TypeError_reading member)
  end.

(** [const { question } = req.body]. *)
Definition cannot_destructure : JsError :=
  {| message := "Cannot destructure property 'question' of 'req.body' as it is undefined." |}.
Definition destructure (b : option Question) : Adv Question :=
  match b with
  | Some q => pure q
  | None => raise cannot_destructure
  end.

(** The call of [advisorEngine]. *)
Definition call_engine (input : Input Question ExpenseDoc Number Holding)
    : Adv Advice :=
  fun s =>
    match advisorEngine input with
    | Resolves advice => mkRan (Normal advice) s [Engine input]
    | Rejects e => mkRan (Throw e) s [Engine input]
    end.

Definition respond (status : Z) (b : Body Advice Number) : Adv unit :=
  tell (Respond status b).

(** [incomes.reduce((sum, i) => sum + i.amount, 0)]. *)
Definition total (incomes : list IncomeDoc) : Number :=
  fold_left (fun sum i => plus sum (income_amount i)) incomes zero.

(** The two queries' filters. *)
Definition recent_expense_of (userId : ObjectId) (since : Date) (d : ExpenseDoc)
    : bool :=
  String.eqb (expense_user d) userId &&
  match expense_date d with
  | Some date => since <=? date
  | None => false
  end.

(** [getFinancialAdvice(req, res)]. *)
Definition getFinancialAdvice (req : Request Question) : Adv unit :=
  attempt
    (userId <- reading "_id" (user req) ;;
     question <- destructure (body req) ;;
     since <- (fun s => mkRan (Normal (days_before LocalTZA (now s) 90)) s []) ;;
     expenses <- find Expenses Expense (recent_expense_of userId since) ;;
     incomes <- find Incomes Income (fun i => String.eqb (income_user i) userId) ;;
     portfolio <- find Portfolios Portfolio
                    (fun h => String.eqb (holding_user h) userId) ;;
     let totalIncome := total incomes in
     advice <- call_engine {| question := question;
                              expenses := expenses;
                              income := totalIncome;
                              portfolio := portfolio |} ;;
     respond 200
       (Advised advice
          {| stats_expenses := List.length expenses;
             stats_income := totalIncome;
             stats_portfolioCount := List.length portfolio |}))
    (fun err =>
       tell (ConsoleError err) ;;
       respond 500 (Unable "Unable to analyze your data right now.")).

(** What the controller gathers for a user and a question, in the
    terms of the theorems. *)
Definition gathered (userId : ObjectId) (q : Question)
    (s : Store ExpenseDoc IncomeDoc Holding)
    : Input Question ExpenseDoc Number Holding :=
  {| question := q;
     expenses := filter (recent_expense_of userId (days_before LocalTZA (now s) 90))
                        (Expense s);
     income := total (filter (fun i => String.eqb (income_user i) userId)
                             (Income s));
     portfolio := filter (fun h => String.eqb (holding_user h) userId)
                         (Portfolio s) |}.

(** All three queries going through. *)
Definition queries_succeed : bool :=
  match find_fault Expenses, find_fault Incomes, find_fault Portfolios with
  | None, None, None => true
  | _, _, _ => false
  end.

End Controller.

Arguments total {IncomeDoc Number} plus zero income_amount incomes.
Arguments recent_expense_of {ExpenseDoc} expense_user expense_date userId since d.
Arguments getFinancialAdvice {Question ExpenseDoc IncomeDoc Number Holding Advice}
  plus zero expense_user expense_date income_user income_amount holding_user
  LocalTZA find_fault advisorEngine req.
Arguments gathered {Question ExpenseDoc IncomeDoc Number Holding}
  plus zero expense_user expense_date income_user income_amount holding_user
  LocalTZA userId q s.

(** The counts and the sum sent back with the advice. *)
Definition stats_of {Q E N H} (input : Input Q E N H) : Stats N :=
  {| stats_expenses := List.length (expenses input);
     stats_income := income input;
     stats_portfolioCount := List.length (portfolio input) |}.

Definition apology {A N} : Body A N :=
  Unable "Unable to analyze your data right now.".

Definition is_response {Q E N H A} (ev : Call Q E N H A) : bool :=
  match ev with
  | Respond _ _ => true
  | _ => false
  end.

(** The inputs the engine was called with. *)
Definition engine_inputs {Q E N H A} (ev : Call Q E N H A) : list (Input Q E N H) :=
  match ev with
  | Engine input => [input]
  | _ => []
  end.

(** The collections queried. *)
Definition queried {Q E N H A} (ev : Call Q E N H A) : list Collection :=
  match ev with
  | Find c => [c]
  | _ => []
  end.

End Advisor.

(** ** Servers to run the controllers on *)

(** An upload on a disk that holds another file, before any worker. *)
Definition receipt_upload : Upload :=
  {| filename := "r1.jpg"; path := "uploads/r1.jpg" |}.
Definition disk : Server :=
  {| today := T; files := ["uploads/r1.jpg"; "uploads/keep.txt"]; worker := false |}.

Definition sharp_up : string -> string -> option JsError := fun _ _ => None.
Definition sharp_down : string -> string -> option JsError :=
  fun _ _ => Some {| message := "Input file contains unsupported image format" |}.
Definition tesseract_reads : string -> Reply JsString := fun _ => Resolves receipt_text.
Definition tesseract_down : string -> Reply JsString :=
  fun _ => Rejects {| message := "Worker terminated" |}.
Definition unlink_up : string -> option JsError := fun _ => None.

(** [T] as an ISO string. *)
Definition iso_T (d : Date) : string := "2023-11-14T22:13:20.000Z".

(** [processReceipt] with a parser that leaves the amount as text. *)
Definition processReceipt_on sharp tesseract (file : option Upload) (s : Server) :=
  processReceipt JsString (fun s => s) ascii_lower iso_T sharp tesseract unlink_up
                 file s.

(** Expenses as owner and date, incomes as owner and amount, holdings as
    their owner, for two users; one expense is dated five days ahead. *)
Definition advisor_store : Advisor.Store (ObjectId * option Date) (ObjectId * Z) ObjectId :=
  {| Advisor.now := T;
     Advisor.Expense := [("u1", Some (T - days 10)); ("u1", Some (T - days 100));
                         ("u2", Some (T - days 1)); ("u1", None);
                         ("u1", Some (T + days 5))];
     Advisor.Income := [("u1", 500); ("u2", 70); ("u1", 20)];
     Advisor.Portfolio := ["u1"; "u2"] |}.

Definition advisor_request : Advisor.Request string :=
  {| Advisor.user := Some "u1"; Advisor.body := Some "How do I save more?" |}.

Definition advisor_engine
    (input : Advisor.Input string (ObjectId * option Date) Z ObjectId) : Reply string :=
  Resolves "Spend less than you earn.".

Definition advise_on (find_fault : Advisor.Collection -> option JsError) :=
  Advisor.getFinancialAdvice Z.add 0 fst snd fst snd (fun h : ObjectId => h)
    india find_fault advisor_engine advisor_request advisor_store.

(** What the engine is to be given for that request. *)
Definition advisor_input : Advisor.Input string (ObjectId * option Date) Z ObjectId :=
  {| Advisor.question := "How do I save more?";
     Advisor.expenses := [("u1", Some (T - days 10)); ("u1", Some (T + days 5))];
     Advisor.income := 520;
     Advisor.portfolio := ["u1"] |}.
(** * Properties *)

(** ** Arithmetic of the guard *)

(** [Math.floor((dueDate - now) / (1000 * 60))] is floor division. *)
Lemma Qfloor_minutes (a : Z) :
  Qfloor (inject_Z a / inject_Z (1000 * 60))%Q = a / 60000.
Proof.
  unfold Qfloor, Qdiv, Qmult, Qinv, inject_Z; simpl.
  now rewrite Z.mul_1_r.
Qed.

(** [(now - last) / (1000 * 60 * 60) < 12] compares milliseconds with
    twelve hours. *)
Lemma hours_lt_12 (a : Z) :
  Qltb (inject_Z a / inject_Z (1000 * 60 * 60))%Q (inject_Z 12) = (a <? 43200000).
Proof.
  unfold Qltb, Qle_bool, Qdiv, Qmult, Qinv, inject_Z; simpl.
  rewrite Z.mul_1_r.
  destruct (Z.leb_spec 43200000 a); destruct (Z.ltb_spec a 43200000);
    simpl; try reflexivity; lia.
Qed.

(** ** Computations that return, and what they leave alone *)

Section Combinators.

Context {S : Type}.

Lemma returns_ret {A} (a : A) : returns (@ret S A a).
Proof. intros s; now exists a. Qed.

Lemma returns_emit (ev : Event) : returns (@emit S ev).
Proof. intros s; now exists tt. Qed.

Lemma returns_bind {A B} (m : M S A) (k : A -> M S B) :
  returns m -> (forall a, returns (k a)) -> returns (bind m k).
Proof.
  intros Hm Hk s. unfold bind.
  destruct (Hm s) as [a Ha]. rewrite Ha.
  destruct (Hk a (state (m s))) as [b Hb]. now exists b.
Qed.

Lemma returns_try_catch {A} (body : M S A) (handler : JsError -> M S A) :
  (forall e, returns (handler e)) -> returns (try_catch body handler).
Proof.
  intros Hh s. unfold try_catch.
  destruct (outcome (body s)) as [a|e] eqn:Hb.
  - exists a. exact Hb.
  - destruct (Hh e (state (body s))) as [a Ha]. now exists a.
Qed.

Lemma returns_for_of {A} (l : list A) (body : A -> M S unit) :
  (forall x, returns (body x)) -> returns (for_of l body).
Proof.
  intros Hb. induction l as [|x l IH]; simpl.
  - apply returns_ret.
  - apply returns_bind; [apply Hb | intros _; exact IH].
Qed.

Context {X : Type} (view : S -> X).

Lemma keeps_ret {A} (a : A) : keeps view (@ret S A a).
Proof. now intros s. Qed.

Lemma keeps_throw {A} (e : JsError) : keeps view (@throw S A e).
Proof. now intros s. Qed.

Lemma keeps_emit (ev : Event) : keeps view (@emit S ev).
Proof. now intros s. Qed.

Lemma keeps_bind {A B} (m : M S A) (k : A -> M S B) :
  keeps view m -> (forall a, keeps view (k a)) -> keeps view (bind m k).
Proof.
  intros Hm Hk s. unfold bind.
  destruct (outcome (m s)) as [a|e]; simpl.
  - rewrite Hk. apply Hm.
  - apply Hm.
Qed.

Lemma keeps_try_catch {A} (body : M S A) (handler : JsError -> M S A) :
  keeps view body -> (forall e, keeps view (handler e)) ->
  keeps view (try_catch body handler).
Proof.
  intros Hb Hh s. unfold try_catch.
  destruct (outcome (body s)) as [a|e]; simpl.
  - apply Hb.
  - rewrite Hh. apply Hb.
Qed.

Lemma keeps_for_of {A} (l : list A) (body : A -> M S unit) :
  (forall x, keeps view (body x)) -> keeps view (for_of l body).
Proof.
  intros Hb. induction l as [|x l IH]; simpl.
  - apply keeps_ret.
  - apply keeps_bind; [apply Hb | intros _; exact IH].
Qed.

End Combinators.

Lemma returns_liftW {L A} (m : M World A) : returns m -> returns (@liftW L A m).
Proof. intros Hm s. unfold liftW; simpl. apply Hm. Qed.

Lemma returns_update_local {L} (f : L -> L) : returns (update_local f).
Proof. intros s; now exists tt. Qed.

Lemma returns_local {L} : returns (@local L).
Proof. intros s; now exists (fst s). Qed.

Lemma returns_with_local {L A} (l : L) (m : M (L * World) A) :
  returns m -> returns (with_local l m).
Proof. intros Hm w. unfold with_local; simpl. apply Hm. Qed.

Lemma keeps_liftW {L A X} (view : World -> X) (m : M World A) :
  keeps view m -> keeps (fun s : L * World => view (snd s)) (liftW m).
Proof. intros Hm s. unfold liftW; simpl. apply Hm. Qed.

Lemma keeps_update_local {L X} (view : World -> X) (f : L -> L) :
  keeps (fun s : L * World => view (snd s)) (update_local f).
Proof. now intros s. Qed.

Lemma keeps_local {L X} (view : World -> X) :
  keeps (fun s : L * World => view (snd s)) (@local L).
Proof. now intros s. Qed.

Lemma keeps_with_local {L A X} (view : World -> X) (l : L) (m : M (L * World) A) :
  keeps (fun s : L * World => view (snd s)) m -> keeps view (with_local l m).
Proof. intros Hm w. unfold with_local; simpl. apply (Hm (l, w)). Qed.

Lemma timeless_reminders : timeless reminders.
Proof. now intros t w. Qed.

Lemma timeless_users : timeless users.
Proof. now intros t w. Qed.

Lemma timeless_notifications : timeless notifications.
Proof. now intros t w. Qed.

Lemma timeless_tasks : timeless tasks.
Proof. now intros t w. Qed.

Lemma timeless_jobs : timeless jobs.
Proof. now intros t w. Qed.

Lemma keeps_await {A X} (env : Env) (view : World -> X) (ev : Event)
    (p : World -> Reply A * World) :
  timeless view -> (forall w, view (snd (p w)) = view w) ->
  keeps view (await env ev p).
Proof.
  intros Ht Hp w. unfold await.
  specialize (Hp w). destruct (p w) as [reply w']; simpl in Hp.
  destruct reply; simpl; unfold elapse; now rewrite Ht.
Qed.

(** ** Running the combinators *)

Lemma bind_normal {S A B} (m : M S A) (k : A -> M S B) s a s1 e1 :
  m s = mkRun (Normal a) s1 e1 ->
  bind m k s = mkRun (outcome (k a s1)) (state (k a s1)) (e1 ++ events (k a s1)).
Proof. intros H. unfold bind. now rewrite H. Qed.

Lemma bind_throw {S A B} (m : M S A) (k : A -> M S B) s e s1 e1 :
  m s = mkRun (Throw e) s1 e1 ->
  bind m k s = mkRun (Throw e) s1 e1.
Proof. intros H. unfold bind. now rewrite H. Qed.

Lemma try_catch_normal {S A} (body : M S A) (handler : JsError -> M S A) s a s1 e1 :
  body s = mkRun (Normal a) s1 e1 ->
  try_catch body handler s = mkRun (Normal a) s1 e1.
Proof. intros H. unfold try_catch. now rewrite H. Qed.

Lemma try_catch_throw {S A} (body : M S A) (handler : JsError -> M S A) s e s1 e1 :
  body s = mkRun (Throw e) s1 e1 ->
  try_catch body handler s =
    mkRun (outcome (handler e s1)) (state (handler e s1)) (e1 ++ events (handler e s1)).
Proof. intros H. unfold try_catch. now rewrite H. Qed.

Lemma bind_ret_l {S A B} (a : A) (k : A -> M S B) s : bind (ret a) k s = k a s.
Proof. unfold bind; simpl. now destruct (k a s). Qed.

Lemma bind_emit {S B} (ev : Event) (k : unit -> M S B) s :
  bind (emit ev) k s = mkRun (outcome (k tt s)) (state (k tt s)) (ev :: events (k tt s)).
Proof. reflexivity. Qed.

Lemma liftW_run {L A} (m : M World A) (l : L) w o w1 e1 :
  m w = mkRun o w1 e1 -> liftW m (l, w) = mkRun o (l, w1) e1.
Proof. intros H. unfold liftW; simpl. now rewrite H. Qed.

Lemma run_eta {S A} (r : Run S A) : r = mkRun (outcome r) (state r) (events r).
Proof. now destruct r. Qed.

Lemma run_outcome {S A} (r : Run S A) o :
  outcome r = o -> r = mkRun o (state r) (events r).
Proof. intros <-. apply run_eta. Qed.

Lemma run_events {S A} (r : Run S A) evs :
  events r = evs -> r = mkRun (outcome r) (state r) evs.
Proof. intros <-. apply run_eta. Qed.

(** ** The channel senders *)

Section Senders.

Variable env : Env.

Ltac returns_step :=
  first [ apply returns_ret | apply returns_emit | apply returns_update_local
        | apply returns_local
        | apply returns_try_catch; intros ?
        | apply returns_bind; [ | intros ? ] ].

Ltac keeps_step :=
  first [ apply keeps_ret | apply keeps_throw | apply keeps_emit
        | apply keeps_update_local | apply keeps_local
        | apply keeps_try_catch; [ | intros ? ]
        | apply keeps_bind; [ | intros ? ] ].

(** None of the three senders lets an exception out. *)
Lemma sendEmailNotification_returns r u addr :
  returns (sendEmailNotification env r u addr).
Proof. unfold sendEmailNotification. repeat returns_step. Qed.

Lemma sendPushNotification_returns r u :
  returns (sendPushNotification env r u).
Proof.
  unfold sendPushNotification.
  destruct (negb _ || negb _); repeat returns_step.
Qed.

Lemma createInAppNotification_returns r u :
  returns (createInAppNotification env r u).
Proof. unfold createInAppNotification. repeat returns_step. Qed.

(** The email sender, run: one message is handed to the gateway, and the
    result is built from the gateway's reply. *)
Lemma sendEmailNotification_run r u addr w :
  sendEmailNotification env r u addr w =
  match smtp env (clock w) (mailOptions env r u addr) with
  | Resolves id =>
      mkRun (Normal (EmailSent id addr)) (elapse env w)
            [SmtpSendMail (mailOptions env r u addr);
             ConsoleLog (EmailSentTo addr); ConsoleLog (EmailMessageId id)]
  | Rejects e =>
      mkRun (Normal (EmailFailed (message e) addr)) (elapse env w)
            [SmtpSendMail (mailOptions env r u addr);
             ConsoleError (EmailNotificationError addr (message e))]
  end.
Proof.
  unfold sendEmailNotification, try_catch, bind, emailTransporter_sendMail, await.
  simpl. destruct (smtp env (clock w) _); reflexivity.
Qed.

(** The push sender, run. *)
Lemma sendPushNotification_run r u w :
  sendPushNotification env r u w =
  if push_configured env then
    match onesignal env (clock w) (pushNotification env r u) with
    | Resolves d =>
        mkRun (Normal (PushSent d)) (elapse env w)
              [HttpPost (pushNotification env r u);
               ConsoleLog (PushNotificationSent d)]
    | Rejects e =>
        mkRun (Normal (Failed (message e))) (elapse env w)
              [HttpPost (pushNotification env r u);
               ConsoleError (PushNotificationError (message e))]
    end
  else
    mkRun (Normal (Failed "OneSignal not configured")) w
          [ConsoleLog OneSignalNotConfigured].
Proof.
  unfold sendPushNotification, push_configured.
  destruct (truthy (ONESIGNAL_APP_ID env)), (truthy (ONESIGNAL_API_KEY env)); simpl;
    try reflexivity.
  unfold try_catch, bind, axios_post, await. simpl.
  destruct (onesignal env (clock w) _); reflexivity.
Qed.

(** The in-app sender, run. *)
Lemma createInAppNotification_run r u w :
  createInAppNotification env r u w =
  match notification_create env (clock w) (inAppFields env r u) with
  | Resolves id =>
      mkRun (Normal (InAppCreated id))
            (elapse env
               (set_notifications
                  (notifications w ++ [created id (inAppFields env r u)]) w))
            [NotificationCreate (inAppFields env r u);
             ConsoleLog (InAppNotificationCreated id)]
  | Rejects e =>
      mkRun (Normal (Failed (message e))) (elapse env w)
            [NotificationCreate (inAppFields env r u);
             ConsoleError (InAppNotificationError (message e))]
  end.
Proof.
  unfold createInAppNotification, try_catch, bind, Notification_create, await.
  simpl. destruct (notification_create env (clock w) _); reflexivity.
Qed.

(** The senders write to the notification store and to nothing else. *)
Section Frame.

Context {X : Type} (view : World -> X).
Hypothesis view_timeless : timeless view.
Hypothesis view_not_notifications :
  forall l w, view (set_notifications l w) = view w.

Lemma sendEmailNotification_keeps r u addr :
  keeps view (sendEmailNotification env r u addr).
Proof.
  unfold sendEmailNotification. repeat keeps_step.
  apply keeps_await; [assumption | reflexivity].
Qed.

Lemma sendPushNotification_keeps r u :
  keeps view (sendPushNotification env r u).
Proof.
  unfold sendPushNotification.
  destruct (negb _ || negb _); repeat keeps_step.
  apply keeps_await; [assumption | reflexivity].
Qed.

Lemma createInAppNotification_keeps r u :
  keeps view (createInAppNotification env r u).
Proof.
  unfold createInAppNotification. repeat keeps_step.
  apply keeps_await; [assumption|].
  intros w. destruct (notification_create env (clock w) _); simpl;
    [apply view_not_notifications | reflexivity].
Qed.

Lemma sendReminder_keeps r u : keeps view (sendReminder env r u).
Proof.
  unfold sendReminder. apply keeps_with_local.
  unfold sendReminder_try, email_step, push_step, inApp_step, channel.
  repeat first
    [ keeps_step
    | apply keeps_liftW;
      first [ apply sendEmailNotification_keeps
            | apply sendPushNotification_keeps
            | apply createInAppNotification_keeps ]
    | match goal with
      | |- keeps _ (if ?b then _ else _) => destruct b
      | |- keeps _ (match ?x with _ => _ end) => destruct x
      | |- keeps _ (bind (match ?x with _ => _ end) _) => destruct x
      end ].
Qed.

End Frame.

End Senders.

(** ** The dispatcher *)

Section Dispatcher.

Variable env : Env.

(** [sendReminder] never lets an exception out. *)
Lemma sendReminder_returns r u : returns (sendReminder env r u).
Proof.
  unfold sendReminder. apply returns_with_local, returns_try_catch.
  intros e. apply returns_bind; [apply returns_emit | intros _].
  apply returns_bind; [apply returns_update_local | intros _].
  apply returns_local.
Qed.

(** Without the channel sub-document the [try] block throws at its
    first statement. *)
Lemma sendReminder_try_no_channels r u s :
  Reminder.notificationChannels r = None ->
  sendReminder_try env r u s = mkRun (Throw (TypeError_reading "email")) s [].
Proof.
  intros H. unfold sendReminder_try.
  apply bind_throw. unfold email_step.
  apply bind_throw. unfold channel. now rewrite H.
Qed.

Lemma sendReminder_no_channels r u w :
  Reminder.notificationChannels r = None ->
  sendReminder env r u w =
    mkRun (Normal (Results.set_error (message (TypeError_reading "email")) results0))
          w
          [ConsoleError (ErrorSendingReminderNotifications (TypeError_reading "email"))].
Proof.
  intros H. unfold sendReminder, with_local.
  rewrite (try_catch_throw _ _ _ _ _ _ (sendReminder_try_no_channels r u _ H)).
  reflexivity.
Qed.

(** The email statement, run. *)
Lemma email_step_run r u ch res w :
  Reminder.notificationChannels r = Some ch ->
  email_step env r u (res, w) =
    if Channels.email ch then
      match emailTo r u with
      | Some address =>
          match smtp env (clock w) (mailOptions env r u address) with
          | Resolves id =>
              mkRun (Normal tt)
                (Results.set_email (EmailSent id address) res, elapse env w)
                [ConsoleLog (SendingEmailTo (Some address)
                               (Reminder.notificationEmail r) (User.email u));
                 SmtpSendMail (mailOptions env r u address);
                 ConsoleLog (EmailSentTo address); ConsoleLog (EmailMessageId id)]
          | Rejects e =>
              mkRun (Normal tt)
                (Results.set_email (EmailFailed (message e) address) res, elapse env w)
                [ConsoleLog (SendingEmailTo (Some address)
                               (Reminder.notificationEmail r) (User.email u));
                 SmtpSendMail (mailOptions env r u address);
                 ConsoleError (EmailNotificationError address (message e))]
          end
      | None =>
          mkRun (Normal tt) (res, w)
            [ConsoleLog (SendingEmailTo
                           (js_or (Reminder.notificationEmail r) (User.email u))
                           (Reminder.notificationEmail r) (User.email u))]
      end
    else mkRun (Normal tt) (res, w) [].
Proof.
  intros Hch. unfold email_step, channel, emailTo. rewrite Hch, bind_ret_l.
  destruct (Channels.email ch); [|reflexivity].
  unfold console_log. rewrite bind_emit.
  destruct (js_or _ _) as [address|]; [|reflexivity].
  destruct (truthy (Some address)); [|reflexivity].
  pose proof (sendEmailNotification_run env r u address w) as Hrun.
  destruct (smtp env (clock w) _);
    rewrite (bind_normal _ _ _ _ _ _ (liftW_run _ res _ _ _ _ Hrun)); reflexivity.
Qed.

(** The push statement, run. *)
Lemma push_step_run r u ch res w :
  Reminder.notificationChannels r = Some ch ->
  push_step env r u (res, w) =
    if Channels.push ch then
      if push_configured env then
        match onesignal env (clock w) (pushNotification env r u) with
        | Resolves d =>
            mkRun (Normal tt) (Results.set_push (PushSent d) res, elapse env w)
              [HttpPost (pushNotification env r u);
               ConsoleLog (PushNotificationSent d)]
        | Rejects e =>
            mkRun (Normal tt) (Results.set_push (Failed (message e)) res, elapse env w)
              [HttpPost (pushNotification env r u);
               ConsoleError (PushNotificationError (message e))]
        end
      else
        mkRun (Normal tt)
          (Results.set_push (Failed "OneSignal not configured") res, w)
          [ConsoleLog OneSignalNotConfigured]
    else mkRun (Normal tt) (res, w) [].
Proof.
  intros Hch. unfold push_step, channel. rewrite Hch, bind_ret_l.
  destruct (Channels.push ch); [|reflexivity].
  pose proof (sendPushNotification_run env r u w) as Hrun.
  destruct (push_configured env); [destruct (onesignal env (clock w) _)|];
    rewrite (bind_normal _ _ _ _ _ _ (liftW_run _ res _ _ _ _ Hrun)); reflexivity.
Qed.

(** The in-app statement, run. *)
Lemma inApp_step_run r u ch res w :
  Reminder.notificationChannels r = Some ch ->
  inApp_step env r u (res, w) =
    if Channels.inApp ch then
      match notification_create env (clock w) (inAppFields env r u) with
      | Resolves id =>
          mkRun (Normal tt)
            (Results.set_inApp (InAppCreated id) res,
             elapse env
               (set_notifications
                  (notifications w ++ [created id (inAppFields env r u)]) w))
            [NotificationCreate (inAppFields env r u);
             ConsoleLog (InAppNotificationCreated id)]
      | Rejects e =>
          mkRun (Normal tt) (Results.set_inApp (Failed (message e)) res, elapse env w)
            [NotificationCreate (inAppFields env r u);
             ConsoleError (InAppNotificationError (message e))]
      end
    else mkRun (Normal tt) (res, w) [].
Proof.
  intros Hch. unfold inApp_step, channel. rewrite Hch, bind_ret_l.
  destruct (Channels.inApp ch); [|reflexivity].
  pose proof (createInAppNotification_run env r u w) as Hrun.
  destruct (notification_create env (clock w) _);
    rewrite (bind_normal _ _ _ _ _ _ (liftW_run _ res _ _ _ _ Hrun)); reflexivity.
Qed.

(** The dispatcher, run from the runs of its three statements. *)
Lemma sendReminder_steps r u w res1 w1 e1 res2 w2 e2 res3 w3 e3 :
  email_step env r u (results0, w) = mkRun (Normal tt) (res1, w1) e1 ->
  push_step env r u (res1, w1) = mkRun (Normal tt) (res2, w2) e2 ->
  inApp_step env r u (res2, w2) = mkRun (Normal tt) (res3, w3) e3 ->
  sendReminder_try env r u (results0, w) =
    mkRun (Normal (Results.set_success true res3))
          (Results.set_success true res3, w3) (e1 ++ e2 ++ e3) /\
  sendReminder env r u w =
    mkRun (Normal (Results.set_success true res3)) w3 (e1 ++ e2 ++ e3).
Proof.
  intros H1 H2 H3.
  assert (Htry : sendReminder_try env r u (results0, w) =
    mkRun (Normal (Results.set_success true res3))
          (Results.set_success true res3, w3) (e1 ++ e2 ++ e3)).
  { unfold sendReminder_try.
    rewrite (bind_normal _ _ _ _ _ _ H1).
    rewrite (bind_normal _ _ _ _ _ _ H2).
    rewrite (bind_normal _ _ _ _ _ _ H3).
    cbn [bind update_local local outcome state events fst snd app].
    now rewrite !app_nil_r. }
  split; [exact Htry|].
  unfold sendReminder, with_local.
  now rewrite (try_catch_normal _ _ _ _ _ _ Htry).
Qed.

End Dispatcher.

(** ** The guard and the orchestration of [processReminder] *)

Section ProcessReminder.

Variable env : Env.

Lemma bind_new_Date {B} (k : Date -> M World B) w :
  bind (new_Date) k w = k (clock w) w.
Proof. unfold bind, new_Date; simpl. now destruct (k (clock w) w). Qed.

Lemma try_catch_new_Date {B} (k : Date -> M World B) handler w :
  try_catch (bind new_Date k) handler w = try_catch (k (clock w)) handler w.
Proof. unfold try_catch. now rewrite bind_new_Date. Qed.

(** The guard: [processReminder] either logs that it skips, or does
    nothing, or runs the notification block under its [catch]. *)
Lemma processReminder_guard r w :
  processReminder env r w =
    match Reminder.lastNotificationSent r with
    | Some last =>
        if clock w - last <? twelve_hours then
          mkRun (Normal tt) w
            [ConsoleLog (SkippingReminder (Reminder._id r)
               (inject_Z (clock w - last) / inject_Z (1000 * 60 * 60))%Q)]
        else if shouldNotify r (clock w) then
          try_catch (notify env r (clock w) (minutesUntilDue r (clock w)))
                    (processReminder_catch r) w
        else mkRun (Normal tt) w []
    | None =>
        if shouldNotify r (clock w) then
          try_catch (notify env r (clock w) (minutesUntilDue r (clock w)))
                    (processReminder_catch r) w
        else mkRun (Normal tt) w []
    end.
Proof.
  unfold processReminder, shouldNotify, minutesUntilDue.
  rewrite try_catch_new_Date. cbv beta zeta.
  rewrite Qfloor_minutes.
  destruct (Reminder.lastNotificationSent r) as [last|].
  - rewrite hours_lt_12. change 43200000 with twelve_hours.
    destruct (clock w - last <? twelve_hours); [reflexivity|].
    destruct (_ <=? _); reflexivity.
  - destruct (_ <=? _); reflexivity.
Qed.

Lemma processReminder_unguarded r w :
  recently_notified r (clock w) = false ->
  processReminder env r w =
    if shouldNotify r (clock w) then
      try_catch (notify env r (clock w) (minutesUntilDue r (clock w)))
                (processReminder_catch r) w
    else mkRun (Normal tt) w [].
Proof.
  intros H. rewrite processReminder_guard. unfold recently_notified in H.
  destruct (Reminder.lastNotificationSent r); [now rewrite H | reflexivity].
Qed.

Lemma processReminder_recently r w :
  recently_notified r (clock w) = true ->
  exists hours,
    processReminder env r w =
      mkRun (Normal tt) w [ConsoleLog (SkippingReminder (Reminder._id r) hours)].
Proof.
  intros H. rewrite processReminder_guard. unfold recently_notified in H.
  destruct (Reminder.lastNotificationSent r); [|discriminate].
  rewrite H. now eexists.
Qed.

Lemma processReminder_not_yet r w :
  recently_notified r (clock w) = false ->
  shouldNotify r (clock w) = false ->
  processReminder env r w = mkRun (Normal tt) w [].
Proof.
  intros Hrec Hnot. now rewrite processReminder_unguarded, Hnot.
Qed.

Lemma User_findById_run id w :
  User_findById env id w =
    mkRun (match user_findById_fault env (clock w) id with
           | Some e => Throw e
           | None => Normal (find (fun u => same_id (User._id u) id) (users w))
           end)
          (elapse env w) [UserFindById id].
Proof.
  unfold User_findById, await.
  destruct (user_findById_fault env (clock w) id); reflexivity.
Qed.

Lemma User_findById_outcome id w o :
  outcome (User_findById env id w) = o ->
  User_findById env id w = mkRun o (elapse env w) [UserFindById id].
Proof. intros <-. now rewrite User_findById_run. Qed.

Lemma processReminder_lookup_throws r w e :
  recently_notified r (clock w) = false ->
  shouldNotify r (clock w) = true ->
  outcome (User_findById env (Reminder.user r) w) = Throw e ->
  processReminder env r w =
    mkRun (Normal tt) (elapse env w)
      [UserFindById (Reminder.user r);
       ConsoleError (ErrorProcessingReminder (Reminder._id r) e)].
Proof.
  intros Hrec Hyes Hu. rewrite processReminder_unguarded, Hyes by assumption.
  apply User_findById_outcome in Hu.
  unfold notify.
  rewrite (try_catch_throw _ _ _ _ _ _ (bind_throw _ _ _ _ _ _ Hu)).
  reflexivity.
Qed.

Lemma processReminder_no_user r w :
  recently_notified r (clock w) = false ->
  shouldNotify r (clock w) = true ->
  outcome (User_findById env (Reminder.user r) w) = Normal None ->
  processReminder env r w =
    mkRun (Normal tt) (elapse env w)
      [UserFindById (Reminder.user r);
       ConsoleError (UserNotFoundForReminder (Reminder._id r))].
Proof.
  intros Hrec Hyes Hu. rewrite processReminder_unguarded, Hyes by assumption.
  apply User_findById_outcome in Hu.
  unfold notify. erewrite try_catch_normal; [reflexivity|].
  rewrite (bind_normal _ _ _ _ _ _ Hu). reflexivity.
Qed.

(** [reminder.save()], run. *)
Lemma Reminder_save_run d w :
  Reminder_save env d w =
    match reminder_save_fault env (clock w) d with
    | Some e => mkRun (Throw e) (elapse env w) [ReminderSave d]
    | None =>
        if existsb (fun x => same_id (Reminder._id x) (Reminder._id d)) (reminders w)
        then mkRun (Normal tt)
                   (elapse env (set_reminders (replace_doc d (reminders w)) w))
                   [ReminderSave d]
        else mkRun (Throw DocumentNotFoundError) (elapse env w) [ReminderSave d]
    end.
Proof.
  unfold Reminder_save, await.
  destruct (reminder_save_fault env (clock w) d); [reflexivity|].
  destruct (existsb _ _); reflexivity.
Qed.

Lemma Reminder_save_events d w : events (Reminder_save env d w) = [ReminderSave d].
Proof.
  rewrite Reminder_save_run.
  destruct (reminder_save_fault env (clock w) d); [reflexivity|].
  destruct (existsb _ _); reflexivity.
Qed.

(** A run that passes the guard and finds the user calls the
    dispatcher, then saves when the dispatcher reports success. *)
Lemma processReminder_dispatch r w u res :
  recently_notified r (clock w) = false ->
  shouldNotify r (clock w) = true ->
  outcome (User_findById env (Reminder.user r) w) = Normal (Some u) ->
  outcome (sendReminder env r u (elapse env w)) = Normal res ->
  let sent := sendReminder env r u (elapse env w) in
  let save :=
    Reminder_save env (Reminder.set_lastNotificationSent r (clock w)) (state sent) in
  processReminder env r w =
    if Results.success res then
      mkRun (Normal tt) (state save)
        (dispatch_prefix env r u w ++
         [ReminderSave (Reminder.set_lastNotificationSent r (clock w));
          match outcome save with
          | Normal _ => ConsoleLog (ReminderNotificationSent (Reminder.title r))
          | Throw e => ConsoleError (ErrorProcessingReminder (Reminder._id r) e)
          end])
    else
      mkRun (Normal tt) (state sent)
        (dispatch_prefix env r u w ++
         [ConsoleError (FailedToSendReminderNotification (Reminder.title r)
                          (Results.error res))]).
Proof.
  intros Hrec Hyes Hu Hres. cbv zeta.
  rewrite processReminder_unguarded, Hyes by assumption.
  apply User_findById_outcome in Hu.
  apply run_outcome in Hres. unfold dispatch_prefix.
  pose proof (run_events _ _
    (Reminder_save_events (Reminder.set_lastNotificationSent r (clock w))
                          (state (sendReminder env r u (elapse env w))))) as Hsave.
  assert (Hnotify :
    forall k : Results.t -> M World unit,
      bind (User_findById env (Reminder.user r))
        (fun user =>
           match user with
           | None => console_error (UserNotFoundForReminder (Reminder._id r))
           | Some user =>
               bind (console_log (SendingReminderNotification (Reminder.title r)
                                    (minutesUntilDue r (clock w))))
                    (fun _ => bind (sendReminder env r user) k)
           end) w =
      let rest := k res (state (sendReminder env r u (elapse env w))) in
      mkRun (outcome rest) (state rest)
        (UserFindById (Reminder.user r)
         :: ConsoleLog (SendingReminderNotification (Reminder.title r)
                          (minutesUntilDue r (clock w)))
         :: events (sendReminder env r u (elapse env w)) ++ events rest)).
  { intros k. rewrite (bind_normal _ _ _ _ _ _ Hu). cbv beta iota.
    unfold console_log. rewrite bind_emit. cbv beta.
    rewrite (bind_normal _ _ _ _ _ _ Hres). reflexivity. }
  unfold notify. unfold try_catch. rewrite Hnotify. cbv zeta.
  destruct (Results.success res) eqn:Hok.
  - destruct (outcome (Reminder_save env _ _)) as [[]|e] eqn:Ho.
    + rewrite (bind_normal _ _ _ _ _ _ Hsave). reflexivity.
    + rewrite (bind_throw _ _ _ _ _ _ Hsave).
      cbn [processReminder_catch console_error emit outcome state events app].
      now rewrite <- app_assoc.
  - reflexivity.
Qed.

End ProcessReminder.

(** ** Case analysis of a dispatcher run *)

(** Splits a hypothesis that equates a run with a conditional on what the
    condition evaluates to. *)
Ltac split_run H :=
  repeat match type of H with
    | _ = (if ?b then _ else _) => revert H; destruct b eqn:?; intros H
    | _ = match ?x with _ => _ end => revert H; destruct x eqn:?; intros H
    end.

(** Runs [sendReminder env r u w] for a reminder whose channels are [ch]:
    one goal per combination of what the three statements do, with [Hrun]
    the run of the dispatcher and [Htry] the run of its [try] block. *)
Ltac run_dispatcher env r u w ch Hch Htry Hrun :=
  let He := fresh "He" in
  let Hp := fresh "Hp" in
  let Hi := fresh "Hi" in
  pose proof (email_step_run env r u ch results0 w Hch) as He;
  split_run He;
  match type of He with
  | _ = mkRun _ (?res1, ?w1) _ =>
      pose proof (push_step_run env r u ch res1 w1 Hch) as Hp
  end;
  split_run Hp;
  match type of Hp with
  | _ = mkRun _ (?res2, ?w2) _ =>
      pose proof (inApp_step_run env r u ch res2 w2 Hch) as Hi
  end;
  split_run Hi;
  destruct (sendReminder_steps env r u w _ _ _ _ _ _ _ _ _ He Hp Hi) as [Htry Hrun];
  clear He Hp Hi.

Section DispatcherEvents.

Variable env : Env.

(** The dispatcher never saves a reminder. *)
Lemma sendReminder_saves_nothing r u w :
  saved (events (sendReminder env r u w)) = [].
Proof.
  destruct (Reminder.notificationChannels r) as [ch|] eqn:Hch.
  - run_dispatcher env r u w ch Hch Htry Hrun; rewrite Hrun; reflexivity.
  - now rewrite sendReminder_no_channels.
Qed.

(** The dispatcher reports success exactly when its [try] block
    completes, which it does exactly when the reminder has its channel
    sub-document. *)
Lemma sendReminder_success r u w :
  exists res,
    outcome (sendReminder env r u w) = Normal res /\
    match Reminder.notificationChannels r with
    | Some _ =>
        outcome (sendReminder_try env r u (results0, w)) = Normal res /\
        Results.success res = true /\ Results.error res = None
    | None =>
        outcome (sendReminder_try env r u (results0, w)) =
          Throw (TypeError_reading "email") /\
        Results.success res = false /\
        Results.error res = Some (message (TypeError_reading "email"))
    end.
Proof.
  destruct (Reminder.notificationChannels r) as [ch|] eqn:Hch.
  - run_dispatcher env r u w ch Hch Htry Hrun; rewrite Hrun, Htry;
      eexists; repeat split; reflexivity.
  - rewrite sendReminder_no_channels, sendReminder_try_no_channels by assumption.
    eexists; repeat split; reflexivity.
Qed.

End DispatcherEvents.

(** ** What a run that reaches the dispatcher saves *)

Section Persist.

Variable env : Env.

Lemma saved_app (a b : list Event) : saved (a ++ b) = saved a ++ saved b.
Proof.
  induction a as [|ev a IH]; [reflexivity|].
  destruct ev; simpl; now rewrite IH.
Qed.

Lemma saved_dispatch_prefix r u w : saved (dispatch_prefix env r u w) = [].
Proof. unfold dispatch_prefix. simpl. apply sendReminder_saves_nothing. Qed.

Lemma sendReminder_keeps_reminders r u w :
  reminders (state (sendReminder env r u w)) = reminders w.
Proof. now apply (sendReminder_keeps env reminders). Qed.

Lemma set_lastNotificationSent_frame r now :
  same_but_lastNotificationSent r (Reminder.set_lastNotificationSent r now).
Proof. repeat split. Qed.

(** The saves of a run that reaches the dispatcher, and the collection
    after it. *)
Lemma processReminder_dispatch_saves r w u res :
  recently_notified r (clock w) = false ->
  shouldNotify r (clock w) = true ->
  outcome (User_findById env (Reminder.user r) w) = Normal (Some u) ->
  outcome (sendReminder env r u (elapse env w)) = Normal res ->
  let run := processReminder env r w in
  let notified := Reminder.set_lastNotificationSent r (clock w) in
  let save := Reminder_save env notified (state (sendReminder env r u (elapse env w))) in
  saved (events run) = (if Results.success res then [notified] else []) /\
  reminders (state run) =
    (if Results.success res then
       match outcome save with
       | Normal _ => replace_doc notified (reminders w)
       | Throw _ => reminders w
       end
     else reminders w).
Proof.
  intros Hrec Hyes Hu Hres. cbv zeta.
  pose proof (processReminder_dispatch env r w u res Hrec Hyes Hu Hres) as H.
  cbv zeta in H. rewrite H. clear H.
  pose proof (sendReminder_keeps_reminders r u (elapse env w)) as Hkeep.
  change (reminders (elapse env w)) with (reminders w) in Hkeep.
  set (r' := Reminder.set_lastNotificationSent r (clock w)).
  set (sent := state (sendReminder env r u (elapse env w))) in *.
  destruct (Results.success res); cbn [state events];
    rewrite saved_app, saved_dispatch_prefix; cbn [app saved].
  - split; [now destruct (outcome (Reminder_save env r' sent))|].
    rewrite Reminder_save_run.
    destruct (reminder_save_fault env (clock sent) r'); [exact Hkeep|].
    destruct (existsb _ _);
      cbn [outcome state elapse set_clock set_reminders reminders];
      [now rewrite Hkeep | exact Hkeep].
  - split; [reflexivity | exact Hkeep].
Qed.

End Persist.

(** A channel result is recorded only by a [try] block that completes. *)
Lemma sendReminder_recorded_success env r u w res c :
  outcome (sendReminder env r u w) = Normal res ->
  Results.email res = Some c \/ Results.push res = Some c \/ Results.inApp res = Some c ->
  Results.success res = true.
Proof.
  intros Hres Hc.
  destruct (Reminder.notificationChannels r) as [ch|] eqn:Hch.
  - destruct (sendReminder_success env r u w) as (res' & Hres' & H).
    rewrite Hch in H. rewrite Hres in Hres'. injection Hres' as <-. apply H.
  - rewrite sendReminder_no_channels in Hres by assumption.
    injection Hres as <-. destruct Hc as [H | [H | H]]; discriminate.
Qed.

(** ** The scanner *)

Section Scanner.

Variable env : Env.

Lemma processReminder_returns r : returns (processReminder env r).
Proof.
  unfold processReminder. apply returns_try_catch.
  intros e. apply returns_emit.
Qed.

Lemma processReminder_outcome r w : outcome (processReminder env r w) = Normal tt.
Proof. destruct (processReminder_returns r w) as [[] H]. exact H. Qed.

(** A loop whose body returns runs the body on every element in turn. *)
Lemma for_of_cons_returns {S A} (body : A -> M S unit) x l s :
  returns (body x) ->
  for_of (x :: l) body s =
    mkRun (outcome (for_of l body (state (body x s))))
          (state (for_of l body (state (body x s))))
          (events (body x s) ++ events (for_of l body (state (body x s)))).
Proof.
  intros Hx. destruct (Hx s) as [[] Ho].
  cbn [for_of]. now rewrite (bind_normal _ _ _ _ _ _ (run_outcome _ _ Ho)).
Qed.

Lemma for_of_app_returns {S A} (body : A -> M S unit) l1 l2 s :
  (forall x, returns (body x)) ->
  for_of (l1 ++ l2) body s =
    mkRun (outcome (for_of l2 body (state (for_of l1 body s))))
          (state (for_of l2 body (state (for_of l1 body s))))
          (events (for_of l1 body s) ++
           events (for_of l2 body (state (for_of l1 body s)))).
Proof.
  intros Hb. revert s. induction l1 as [|x l1 IH]; intros s.
  - cbn. now rewrite <- run_eta.
  - cbn [app]. rewrite !for_of_cons_returns by apply Hb.
    rewrite IH. cbn [outcome state events]. now rewrite app_assoc.
Qed.

Lemma for_of_outcome {S A} (body : A -> M S unit) l s :
  (forall x, returns (body x)) -> outcome (for_of l body s) = Normal tt.
Proof.
  intros Hb. destruct (returns_for_of l body Hb s) as [[] H]. exact H.
Qed.

Lemma Reminder_find_run query w :
  Reminder_find env query w =
    mkRun (match reminder_find_fault env (clock w) with
           | Some e => Throw e
           | None => Normal (filter query (reminders w))
           end)
          (elapse env w) [ReminderFind].
Proof.
  unfold Reminder_find, await.
  destruct (reminder_find_fault env (clock w)); reflexivity.
Qed.

(** A scan whose query is answered processes the documents found, one
    after the other. *)
Lemma checkDueReminders_run w :
  reminder_find_fault env (clock w) = None ->
  checkDueReminders env w =
    mkRun (Normal tt)
          (state (for_of (found w) (processReminder env) (elapse env w)))
          (ReminderFind
           :: ConsoleLog (FoundReminders (List.length (found w)))
           :: events (for_of (found w) (processReminder env) (elapse env w))).
Proof.
  intros Hfault. unfold checkDueReminders.
  rewrite try_catch_new_Date. cbv beta zeta.
  erewrite try_catch_normal; [reflexivity|].
  pose proof (Reminder_find_run
                (dueQuery (clock w) (clock w + 2 * 60 * 60 * 1000)) w) as Hfind.
  rewrite Hfault in Hfind.
  rewrite (bind_normal _ _ _ _ _ _ Hfind).
  unfold console_log. rewrite bind_emit.
  fold (found w).
  rewrite (for_of_outcome _ _ _ (processReminder_returns)).
  reflexivity.
Qed.

(** A scan whose query raises logs the error and returns. *)
Lemma checkDueReminders_aborts w e :
  reminder_find_fault env (clock w) = Some e ->
  checkDueReminders env w =
    mkRun (Normal tt) (elapse env w)
          [ReminderFind; ConsoleError (ErrorCheckingDueReminders e)].
Proof.
  intros Hfault. unfold checkDueReminders.
  rewrite try_catch_new_Date. cbv beta zeta.
  pose proof (Reminder_find_run
                (dueQuery (clock w) (clock w + 2 * 60 * 60 * 1000)) w) as Hfind.
  rewrite Hfault in Hfind.
  rewrite (try_catch_throw _ _ _ _ _ _ (bind_throw _ _ _ _ _ _ Hfind)).
  reflexivity.
Qed.

(** The query, read as the notice window: it matches the active
    documents whose effective due date lies in the window, except those
    that store [nextDueDate: null]. *)
Lemma dueQuery_window now r :
  dueQuery now (now + 2 * 60 * 60 * 1000) r = true <->
  in_notice_window now r /\ Reminder.nextDueDate r <> Null.
Proof.
  unfold dueQuery, in_notice_window, effectiveDueDate, two_hours.
  destruct (Reminder.status r), (Reminder.nextDueDate r) as [| |next]; cbn;
    rewrite ?andb_true_r, ?andb_false_r, ?orb_false_r, ?andb_true_iff, ?Z.leb_le;
    intuition (try discriminate; try congruence; try lia).
Qed.

End Scanner.

(** ** The cleanup task *)

Section Cleanup.

Variable env : Env.

Lemma Notification_deleteMany_run query w :
  Notification_deleteMany env query w =
    match notification_deleteMany_fault env (clock w) with
    | Some e => mkRun (Throw e) (elapse env w) [NotificationDeleteMany]
    | None =>
        mkRun (Normal (List.length (filter query (notifications w))))
              (elapse env
                 (set_notifications
                    (filter (fun n => negb (query n)) (notifications w)) w))
              [NotificationDeleteMany]
    end.
Proof.
  unfold Notification_deleteMany, await.
  destruct (notification_deleteMany_fault env (clock w)); reflexivity.
Qed.

Lemma cleanupOldNotifications_run w :
  cleanupOldNotifications env w =
    match notification_deleteMany_fault env (clock w) with
    | Some e =>
        mkRun (Normal tt) (elapse env w)
              [NotificationDeleteMany; ConsoleError (ErrorCleaningUp e)]
    | None =>
        mkRun (Normal tt)
              (elapse env
                 (set_notifications
                    (filter (fun n => negb (cleanupQuery env (clock w) n))
                            (notifications w)) w))
              [NotificationDeleteMany;
               ConsoleLog (CleanedUp
                 (List.length (filter (cleanupQuery env (clock w)) (notifications w))))]
    end.
Proof.
  unfold cleanupOldNotifications.
  rewrite try_catch_new_Date. cbv beta zeta.
  pose proof (Notification_deleteMany_run (cleanupQuery env (clock w)) w) as Hdel.
  unfold cleanupQuery in Hdel at 1.
  destruct (notification_deleteMany_fault env (clock w)) as [e|].
  - rewrite (try_catch_throw _ _ _ _ _ _ (bind_throw _ _ _ _ _ _ Hdel)).
    reflexivity.
  - erewrite try_catch_normal; [reflexivity|].
    rewrite (bind_normal _ _ _ _ _ _ Hdel). reflexivity.
Qed.

(** The query, read as "read before the cut-off". *)
Lemma cleanupQuery_expired now n :
  cleanupQuery env now n = true <-> expired env now n.
Proof.
  unfold cleanupQuery, expired, thirtyDaysAgo.
  destruct (Notification.isRead n), (Notification.readAt n) as [t|]; cbn.
  - rewrite Z.ltb_lt. split.
    + intros H. split; [reflexivity|]. exists t. split; [reflexivity | lia].
    + intros [_ [t' [Ht H]]]. injection Ht as <-. lia.
  - split; [discriminate | intros [_ [t [Ht _]]]; discriminate].
  - split; [discriminate | intros [H _]; discriminate].
  - split; [discriminate | intros [H _]; discriminate].
Qed.

Lemma filter_length_split {A} (p : A -> bool) (l : list A) :
  List.length l =
    (List.length (filter p l) + List.length (filter (fun x => negb (p x)) l))%nat.
Proof.
  induction l as [|x l IH]; [reflexivity|].
  cbn. destruct (p x); cbn; lia.
Qed.

End Cleanup.

(** ** The scheduler *)

Section Scheduler.

Lemma startAll_run w :
  startAll w =
    mkRun (Normal tt)
      (set_jobs
         (jobs w ++
          [ {| name := "reminderCheck"; job := List.length (tasks w) |};
            {| name := "cleanup";
               job := List.length
                        (tasks w ++ [ {| expression := "*/15 * * * *";
                                         callback := RunCheckDueReminders;
                                         running := true |} ]) |} ])
         (set_tasks
            ((tasks w ++ [ {| expression := "*/15 * * * *";
                              callback := RunCheckDueReminders;
                              running := true |} ])
             ++ [ {| expression := "0 2 * * *";
                     callback := RunCleanupOldNotifications;
                     running := true |} ]) w))
      [CronSchedule "*/15 * * * *" RunCheckDueReminders;
       CronSchedule "0 2 * * *" RunCleanupOldNotifications;
       ConsoleLog SchedulerStarted; ConsoleLog CheckingEvery15Minutes;
       ConsoleLog CleanupDailyAt2AM].
Proof. reflexivity. Qed.

(** The loop of [stopAll]. *)
Lemma stop_loop_run (js : list Job) w :
  for_of js (fun j => bind (job_stop (job j))
                           (fun _ => console_log (StoppedJob (name j)))) w =
    mkRun (Normal tt)
      (fold_left (fun w j => set_tasks (stop_at (job j) (tasks w)) w) js w)
      (flat_map (fun j => [CronStop (job j); ConsoleLog (StoppedJob (name j))]) js).
Proof.
  revert w. induction js as [|j js IH]; intros w; [reflexivity|].
  cbn [for_of fold_left flat_map].
  erewrite bind_normal; [|reflexivity].
  rewrite IH. reflexivity.
Qed.

Lemma stopAll_run w :
  stopAll w =
    mkRun (Normal tt)
      (set_jobs []
         (fold_left (fun w j => set_tasks (stop_at (job j) (tasks w)) w) (jobs w) w))
      (flat_map (fun j => [CronStop (job j); ConsoleLog (StoppedJob (name j))])
                (jobs w)).
Proof.
  unfold stopAll.
  erewrite bind_normal; [|reflexivity].
  erewrite bind_normal; [|apply stop_loop_run].
  cbn [modify outcome state events]. now rewrite app_nil_r.
Qed.

(** Stopping a task never restarts another. *)
Lemma stop_at_running h l i t :
  nth_error (stop_at h l) i = Some t ->
  exists t0, nth_error l i = Some t0 /\
             running t = (if Nat.eqb i h then false else running t0).
Proof.
  revert h i. induction l as [|x l IH]; intros h i H.
  - destruct h, i; discriminate.
  - destruct h as [|h], i as [|i]; cbn in *.
    + injection H as <-. now exists x.
    + now exists t.
    + injection H as <-. now exists x.
    + apply IH in H. exact H.
Qed.

Lemma stop_loop_tasks (js : list Job) w i t :
  nth_error
    (tasks (fold_left (fun w j => set_tasks (stop_at (job j) (tasks w)) w) js w)) i
    = Some t ->
  exists t0, nth_error (tasks w) i = Some t0 /\
             running t =
               (if existsb (fun j => Nat.eqb i (job j)) js then false else running t0).
Proof.
  revert w. induction js as [|j js IH]; intros w H.
  - now exists t.
  - cbn [fold_left] in H. apply IH in H. destruct H as (t1 & H1 & Hr).
    cbn [tasks set_tasks] in H1. apply stop_at_running in H1.
    destruct H1 as (t0 & H0 & Hr0). exists t0. split; [exact H0|].
    cbn [existsb]. rewrite Hr, Hr0.
    destruct (Nat.eqb i (job j)), (existsb _ js); reflexivity.
Qed.

Lemma stop_loop_keeps_jobs (js : list Job) w :
  jobs (fold_left (fun w j => set_tasks (stop_at (job j) (tasks w)) w) js w) = jobs w.
Proof.
  revert w. induction js as [|j js IH]; intros w; [reflexivity|].
  cbn [fold_left]. now rewrite IH.
Qed.

Lemma set_jobs_nil w : jobs w = [] -> set_jobs [] w = w.
Proof. destruct w; cbn. now intros ->. Qed.

End Scheduler.

(** * The claims *)

(** Finds an event in a list that has been computed. *)
Ltac find_event := repeat first [ left; reflexivity | right ].

Section Guard.

Variable env : Env.

Lemma recently_notified_false r now :
  recently_notified r now = false <->
  (Reminder.lastNotificationSent r = None \/
   exists last, Reminder.lastNotificationSent r = Some last /\
                now - last >= twelve_hours).
Proof.
  unfold recently_notified.
  destruct (Reminder.lastNotificationSent r) as [last|].
  - rewrite Z.ltb_ge. split.
    + intros H. right. exists last. split; [reflexivity | lia].
    + intros [H | [l [H Hl]]]; [discriminate | injection H as <-; lia].
  - split; [now left | reflexivity].
Qed.

Lemma shouldNotify_true r now :
  shouldNotify r now = true <-> minutesUntilDue r now <= Reminder.reminderTime r.
Proof. unfold shouldNotify. apply Z.leb_le. Qed.

Lemma dispatched_prefix r u w tail :
  dispatched (dispatch_prefix env r u w ++ tail) = true.
Proof. unfold dispatch_prefix, dispatched. simpl. reflexivity. Qed.

(** What [processReminder] does, by case. *)
Lemma processReminder_cases r w :
  (recently_notified r (clock w) = false /\
   shouldNotify r (clock w) = true /\
   exists u tail,
     outcome (User_findById env (Reminder.user r) w) = Normal (Some u) /\
     events (processReminder env r w) = dispatch_prefix env r u w ++ tail)
  \/
  ((recently_notified r (clock w) = true \/
    shouldNotify r (clock w) = false \/
    forall u, outcome (User_findById env (Reminder.user r) w) <> Normal (Some u)) /\
   dispatched (events (processReminder env r w)) = false /\
   forallb (fun ev => negb (is_effect ev)) (events (processReminder env r w)) = true /\
   reminders (state (processReminder env r w)) = reminders w /\
   notifications (state (processReminder env r w)) = notifications w).
Proof.
  destruct (recently_notified r (clock w)) eqn:Hrec.
  { right. destruct (processReminder_recently env r w Hrec) as [hours ->].
    repeat split; auto. }
  destruct (shouldNotify r (clock w)) eqn:Hyes.
  2: { right. rewrite (processReminder_not_yet env r w Hrec Hyes).
       repeat split; auto. }
  destruct (outcome (User_findById env (Reminder.user r) w)) as [[u|]|e] eqn:Hu.
  - left. repeat split.
    destruct (sendReminder_returns env r u (elapse env w)) as [res Hres].
    pose proof (processReminder_dispatch env r w u res Hrec Hyes Hu Hres) as H.
    cbv zeta in H. rewrite H. exists u.
    destruct (Results.success res); eexists; (split; [reflexivity|]); reflexivity.
  - right. rewrite (processReminder_no_user env r w Hrec Hyes Hu).
    repeat split; auto. right. right. intros u. discriminate.
  - right. rewrite (processReminder_lookup_throws env r w e Hrec Hyes Hu).
    repeat split; auto. right. right. intros u. discriminate.
Qed.

(** C1.  For every reminder and current time [now = clock w],
    [processReminder] calls the dispatcher if and only if
    [minutesUntilDue = floor((effectiveDueDate - now) / 1 minute)] is at
    most [reminderTime] (a negative [minutesUntilDue], an overdue
    reminder, included), and [lastNotificationSent] is unset or at least
    twelve hours old, and the owning user is found in the user store.
    When it does, the run continues with the dispatcher's own run on that
    reminder and user; when one of the three conditions fails, the run
    reaches no gateway, writes to no store and saves nothing. *)
Theorem processReminder_dispatches_iff r w :
  let run := processReminder env r w in
  let now := clock w in
  (dispatched (events run) = true <->
     minutesUntilDue r now <= Reminder.reminderTime r /\
     (Reminder.lastNotificationSent r = None \/
      exists last, Reminder.lastNotificationSent r = Some last /\
                   now - last >= twelve_hours) /\
     (exists u, outcome (User_findById env (Reminder.user r) w) = Normal (Some u)))
  /\
  (forall u, dispatched (events run) = true ->
     outcome (User_findById env (Reminder.user r) w) = Normal (Some u) ->
     exists tail, events run = dispatch_prefix env r u w ++ tail)
  /\
  (dispatched (events run) = false ->
     forallb (fun ev => negb (is_effect ev)) (events run) = true /\
     reminders (state run) = reminders w /\
     notifications (state run) = notifications w).
Proof.
  cbv zeta.
  rewrite <- shouldNotify_true, <- recently_notified_false.
  destruct (processReminder_cases r w)
    as [(Hrec & Hyes & u & tail & Hu & Hev) | (Hno & Hnd & Hne & Hr & Hn)].
  - rewrite Hev, dispatched_prefix. split; [|split].
    + split; [|reflexivity]. intros _. repeat split; try assumption. now exists u.
    + intros u' _ Hu'. rewrite Hu in Hu'. injection Hu' as <-. now exists tail.
    + discriminate.
  - rewrite Hnd. split; [|split].
    + split; [discriminate|]. intros (Hyes & Hrec & u & Hu).
      destruct Hno as [H | [H | H]]; [congruence | congruence | now destruct (H u)].
    + discriminate.
    + intros _. repeat split; assumption.
Qed.

End Guard.

Section Dispatch.

Variable env : Env.

(** C3.  [sendReminder] always returns a result object, never raises.
    Its [success] is true if and only if the [try] block, the
    orchestration, completed without throwing.  A recorded channel
    result, whether it succeeded or failed, therefore comes with
    [success = true]; and when the orchestration throws, the call
    returns the result with [success = false] and the error's message. *)
Theorem sendReminder_success_iff_completed r u w :
  exists res,
    outcome (sendReminder env r u w) = Normal res /\
    (Results.success res = true <->
     exists done, outcome (sendReminder_try env r u (results0, w)) = Normal done) /\
    (forall c,
       Results.email res = Some c \/ Results.push res = Some c \/
       Results.inApp res = Some c ->
       Results.success res = true) /\
    (forall e,
       outcome (sendReminder_try env r u (results0, w)) = Throw e ->
       Results.success res = false /\ Results.error res = Some (message e)).
Proof.
  destruct (Reminder.notificationChannels r) as [ch|] eqn:Hch.
  - destruct (sendReminder_success env r u w) as (res & Hres & H).
    rewrite Hch in H. destruct H as (Htry & Hok & Herr).
    exists res. split; [assumption|]. rewrite Htry, Hok. repeat split.
    + now exists res.
    + discriminate.
    + discriminate.
  - rewrite sendReminder_no_channels, sendReminder_try_no_channels by assumption.
    eexists. split; [reflexivity|]. cbn. repeat split.
    + discriminate.
    + intros [done H]. discriminate.
    + intros c [H | [H | H]]; discriminate.
    + now injection H as <-.
Qed.

End Dispatch.

(** A failed mail delivery is reported in the email entry and leaves the
    overall [success] true. *)
Example sendReminder_channel_failure_is_success :
  let res := outcome (sendReminder env_smtp_down bill asha world0) in
  res = Normal
    {| Results.email := Some (EmailFailed "connect ECONNREFUSED" "asha@example.com");
       Results.push := None; Results.inApp := None;
       Results.success := true; Results.error := None |}.
Proof. reflexivity. Qed.

(** A reminder without its channel sub-document makes the orchestration
    throw; the result carries the message. *)
Example sendReminder_orchestration_failure :
  outcome (sendReminder env_up (bill_with None) asha world0) =
  Normal
    {| Results.email := None; Results.push := None; Results.inApp := None;
       Results.success := false;
       Results.error := Some "Cannot read properties of undefined (reading 'email')" |}.
Proof. reflexivity. Qed.

Section Persist.

Variable env : Env.

(** C2.  In a run of [processReminder] that reaches the dispatcher:
    when the dispatcher reports [success], exactly one document is
    saved, the reminder with [lastNotificationSent = now], and once the
    store accepts it the collection holds it in place of the old one;
    when the dispatcher reports failure, nothing is saved and the
    collection is as it was.  What is saved agrees with the reminder on
    every path other than [lastNotificationSent]. *)
Theorem processReminder_persists_iff_success r w u res :
  recently_notified r (clock w) = false ->
  shouldNotify r (clock w) = true ->
  outcome (User_findById env (Reminder.user r) w) = Normal (Some u) ->
  outcome (sendReminder env r u (elapse env w)) = Normal res ->
  let run := processReminder env r w in
  let now := clock w in
  let sent := state (sendReminder env r u (elapse env w)) in
  (Results.success res = true ->
     saved (events run) = [Reminder.set_lastNotificationSent r now] /\
     (outcome (Reminder_save env (Reminder.set_lastNotificationSent r now) sent)
        = Normal tt ->
      reminders (state run) =
        replace_doc (Reminder.set_lastNotificationSent r now) (reminders w)))
  /\
  (Results.success res = false ->
     saved (events run) = [] /\ reminders (state run) = reminders w)
  /\
  (reminders (state run) = reminders w \/
   reminders (state run) =
     replace_doc (Reminder.set_lastNotificationSent r now) (reminders w))
  /\
  (forall d, In d (saved (events run)) ->
     same_but_lastNotificationSent r d /\
     Reminder.lastNotificationSent d = Some now).
Proof.
  intros Hrec Hyes Hu Hres. cbv zeta.
  destruct (processReminder_dispatch_saves env r w u res Hrec Hyes Hu Hres)
    as [Hsaved Hstore].
  cbv zeta in Hsaved, Hstore. rewrite Hsaved, Hstore.
  split.
  { intros ->. split; [reflexivity|]. now intros ->. }
  split.
  { intros ->. now split. }
  split.
  { destruct (Results.success res); [|now left].
    destruct (outcome (Reminder_save env _ _)); [now right | now left]. }
  intros d Hd. destruct (Results.success res); [|destruct Hd].
  destruct Hd as [<- | []].
  split; [apply set_lastNotificationSent_frame | reflexivity].
Qed.

End Persist.

(** The scenario of section 8: the bill, scanned ninety minutes before it
    is due with a working mail gateway, is saved with
    [lastNotificationSent = now]. *)
Lemma processReminder_persists_witness :
  saved (events (processReminder env_up bill world0)) =
    [Reminder.set_lastNotificationSent bill (T - minutes 90)] /\
  reminders (state (processReminder env_up bill world0)) =
    [Reminder.set_lastNotificationSent bill (T - minutes 90); rent].
Proof.
  pose proof (processReminder_persists_iff_success env_up bill world0 asha
    {| Results.email := Some (EmailSent "<1@example.com>" "asha@example.com");
       Results.push := None; Results.inApp := None;
       Results.success := true; Results.error := None |}
    eq_refl eq_refl eq_refl eq_refl) as H.
  cbv zeta in H. destruct H as [H _].
  destruct (H eq_refl) as [Hsaved Hstore].
  split; [exact Hsaved | exact (Hstore eq_refl)].
Defined.

(** C4, as stated, fails.  The mail gateway is down at the first scan and
    back a quarter of an hour later.  The first scan attempts the email,
    the delivery fails, and the bill is saved with [lastNotificationSent]
    set all the same; the second scan finds the bill, skips it, and sends
    nothing. *)
Lemma channel_failure_not_retried_counterexample :
  let env := env_smtp_down_until (T - minutes 80) in
  let scan1 := checkDueReminders env world_bill in
  let scan2 := checkDueReminders env (set_clock (T - minutes 75) (state scan1)) in
  In (ConsoleError (EmailNotificationError "asha@example.com" "connect ECONNREFUSED"))
     (events scan1) /\
  map Reminder.lastNotificationSent (reminders world_bill) = [None] /\
  map Reminder.lastNotificationSent (reminders (state scan1)) =
    [Some (T - minutes 90 + 250)] /\
  In (ConsoleLog (FoundReminders 1)) (events scan2) /\
  dispatched (events scan2) = false /\
  forallb (fun ev => negb (is_effect ev)) (events scan2) = true.
Proof.
  cbv zeta. repeat split; try (vm_compute; reflexivity); vm_compute; find_event.
Qed.

Section ChannelFailure.

Variable env : Env.

(** A document replaced under the [_id] of a document of the
    collection: the collection is the same only if the two are equal. *)
Lemma replace_doc_same r' r l :
  Reminder._id r' = Reminder._id r ->
  In r l -> replace_doc r' l = l -> r' = r.
Proof.
  intros Hid Hin Hsame. unfold replace_doc in Hsame.
  induction l as [|d l IH]; [destruct Hin|].
  cbn [map] in Hsame. injection Hsame as Hd Hl.
  destruct Hin as [-> | Hin]; [|now apply IH].
  unfold same_id in Hd. rewrite Hid, String.eqb_refl in Hd. exact Hd.
Qed.

(** After the replacement, the documents under that [_id] are the new
    one. *)
Lemma replace_doc_id r' l d :
  In d (replace_doc r' l) -> Reminder._id d = Reminder._id r' -> d = r'.
Proof.
  unfold replace_doc. intros Hin Hid. apply in_map_iff in Hin.
  destruct Hin as (x & Hx & _). unfold same_id in Hx.
  destruct (String.eqb (Reminder._id x) (Reminder._id r')) eqn:Heq; [now symmetry|].
  subst d. rewrite Hid, String.eqb_refl in Heq. discriminate.
Qed.

Lemma replace_doc_In r' r l :
  Reminder._id r' = Reminder._id r -> In r l -> In r' (replace_doc r' l).
Proof.
  intros Hid Hin. unfold replace_doc. apply in_map_iff. exists r.
  split; [|exact Hin]. unfold same_id. now rewrite Hid, String.eqb_refl.
Qed.

(** C4, amended.  In a run of [processReminder] on a reminder of the
    collection that reaches the dispatcher and in which the dispatcher
    returns:
    - a recorded channel result that failed does not make the dispatch a
      failure: the dispatcher reports [success] and the reminder is
      handed to [save] with [lastNotificationSent = now];
    - when the dispatcher reports [success] and the store accepts the
      save, the collection holds that document under the reminder's
      [_id], and as long as it does, a scan that reaches the reminder
      less than twelve hours after [now] is handed that document and
      skips it: its part of the scan is the one line of the log, with no
      call of the dispatcher;
    - the collection is left as it was exactly when the dispatcher
      reports overall failure or the store rejects the save. *)
Theorem channel_failure_still_marks_notified r w u res :
  In r (reminders w) ->
  recently_notified r (clock w) = false ->
  shouldNotify r (clock w) = true ->
  outcome (User_findById env (Reminder.user r) w) = Normal (Some u) ->
  outcome (sendReminder env r u (elapse env w)) = Normal res ->
  let run := processReminder env r w in
  let now := clock w in
  let notified := Reminder.set_lastNotificationSent r now in
  let save :=
    Reminder_save env notified (state (sendReminder env r u (elapse env w))) in
  (forall c,
     Results.email res = Some c \/ Results.push res = Some c \/
     Results.inApp res = Some c ->
     channel_success c = false ->
     Results.success res = true /\ saved (events run) = [notified]) /\
  (Results.success res = true -> outcome save = Normal tt ->
     reminders (state run) = replace_doc notified (reminders w) /\
     In notified (reminders (state run)) /\
     (forall x, In x (reminders (state run)) ->
        Reminder._id x = Reminder._id r -> x = notified) /\
     forall later before d after,
       (forall x, In x (reminders later) ->
          Reminder._id x = Reminder._id r -> x = notified) ->
       reminder_find_fault env (clock later) = None ->
       found later = before ++ d :: after ->
       Reminder._id d = Reminder._id r ->
       let reached :=
         state (for_of before (processReminder env) (elapse env later)) in
       clock reached - now < twelve_hours ->
       d = notified /\
       exists hours,
         checkDueReminders env later =
           mkRun (Normal tt)
             (state (for_of after (processReminder env) reached))
             ((ReminderFind
               :: ConsoleLog (FoundReminders (List.length (found later)))
               :: events (for_of before (processReminder env) (elapse env later)))
              ++ ConsoleLog (SkippingReminder (Reminder._id r) hours)
              :: events (for_of after (processReminder env) reached))) /\
  (reminders (state run) = reminders w <->
     Results.success res = false \/ outcome save <> Normal tt).
Proof.
  intros Hin Hrec Hyes Hu Hres. cbv zeta.
  destruct (processReminder_dispatch_saves env r w u res Hrec Hyes Hu Hres)
    as [Hsaved Hstore].
  cbv zeta in Hsaved, Hstore.
  set (notified := Reminder.set_lastNotificationSent r (clock w)) in *.
  assert (Hid : Reminder._id notified = Reminder._id r) by reflexivity.
  split; [|split].
  - intros c Hc _.
    pose proof (sendReminder_recorded_success env r u _ res c Hres Hc) as Hok.
    split; [exact Hok|]. now rewrite Hsaved, Hok.
  - intros Hok Haccepted. rewrite Hok, Haccepted in Hstore.
    split; [exact Hstore|].
    split; [rewrite Hstore; now apply replace_doc_In with (r := r)|].
    split.
    { intros x Hx Hxid. apply replace_doc_id with (l := reminders w);
        [now rewrite <- Hstore | now rewrite Hid]. }
    intros later before d after Hsame Hfault Hfound Hd Hclock.
    assert (Hdn : d = notified).
    { apply Hsame; [|exact Hd].
      assert (Hf : In d (found later)) by (rewrite Hfound; apply in_elt).
      unfold found in Hf. now apply filter_In in Hf. }
    split; [exact Hdn|].
    assert (Hr : recently_notified notified
                   (clock (state (for_of before (processReminder env)
                                    (elapse env later)))) = true).
    { unfold recently_notified. cbn. now apply Z.ltb_lt. }
    destruct (processReminder_recently env _ _ Hr) as [hours Hskip].
    exists hours.
    rewrite (checkDueReminders_run env later Hfault), Hfound.
    rewrite (for_of_app_returns _ _ _ _ (processReminder_returns env)).
    rewrite (for_of_cons_returns _ _ _ _ (processReminder_returns env d)).
    cbn [state events]. rewrite Hdn, Hskip. cbn [state events app].
    rewrite List.length_app. reflexivity.
  - split.
    + intros Hsame. destruct (Results.success res); [|now left].
      right. intros Haccepted. rewrite Haccepted, Hsame in Hstore.
      symmetry in Hstore.
      pose proof (replace_doc_same notified r _ Hid Hin Hstore) as Heq.
      assert (Hlast : Reminder.lastNotificationSent r = Some (clock w))
        by (rewrite <- Heq; reflexivity).
      unfold recently_notified in Hrec. rewrite Hlast, Z.sub_diag in Hrec.
      discriminate.
    + intros [Hfail | Hrejected]; [now rewrite Hfail in Hstore|].
      destruct (Results.success res); [|exact Hstore].
      destruct (outcome (Reminder_save env notified _)) as [[]|e];
        [now elim Hrejected | exact Hstore].
Qed.

End ChannelFailure.

(** The bill with the mail gateway down: the failed delivery is reported,
    the bill is saved as notified and the collection holds it; the scan a
    quarter of an hour later finds it, skips it and does nothing else. *)
Lemma channel_failure_still_marks_notified_witness :
  saved (events (processReminder env_smtp_down bill world_bill)) =
    [Reminder.set_lastNotificationSent bill (T - minutes 90)] /\
  reminders (state (processReminder env_smtp_down bill world_bill)) =
    [Reminder.set_lastNotificationSent bill (T - minutes 90)] /\
  exists hours,
    events (checkDueReminders env_smtp_down
              (set_clock (T - minutes 75)
                 (state (processReminder env_smtp_down bill world_bill)))) =
      [ReminderFind; ConsoleLog (FoundReminders 1);
       ConsoleLog (SkippingReminder "r1" hours)].
Proof.
  pose proof (channel_failure_still_marks_notified env_smtp_down bill world_bill asha
    {| Results.email := Some (EmailFailed "connect ECONNREFUSED" "asha@example.com");
       Results.push := None; Results.inApp := None;
       Results.success := true; Results.error := None |}
    (or_introl eq_refl) eq_refl eq_refl eq_refl eq_refl) as H.
  cbv zeta in H. destruct H as (Hfailed & Hmarked & _).
  destruct (Hfailed (EmailFailed "connect ECONNREFUSED" "asha@example.com")
              (or_introl eq_refl) eq_refl) as [_ Hsaved].
  destruct (Hmarked eq_refl eq_refl) as (Hstore & _ & Hheld & Hlater).
  split; [exact Hsaved|]. split; [exact Hstore|].
  destruct (Hlater
              (set_clock (T - minutes 75)
                 (state (processReminder env_smtp_down bill world_bill)))
              [] (Reminder.set_lastNotificationSent bill (T - minutes 90)) []
              Hheld eq_refl eq_refl eq_refl) as [_ [hours Hscan]].
  { vm_compute. reflexivity. }
  exists hours. rewrite Hscan. reflexivity.
Defined.

(** The store rejects the save: the bill stays as it was, the error is
    logged, and the scan a quarter of an hour later attempts the mail
    again. *)
Example rejected_save_is_retried :
  let env := env_save_down_until (T - minutes 80) in
  let scan1 := checkDueReminders env world_bill in
  let scan2 := checkDueReminders env (set_clock (T - minutes 75) (state scan1)) in
  reminders (state scan1) = [bill] /\
  In (ConsoleError (ErrorProcessingReminder "r1" {| message := "connection closed" |}))
     (events scan1) /\
  List.length (filter is_mail (events scan1)) = 1%nat /\
  List.length (filter is_mail (events scan2)) = 1%nat /\
  map Reminder.lastNotificationSent (reminders (state scan2)) =
    [Some (T - minutes 75 + 250)].
Proof.
  cbv zeta. repeat split; try (vm_compute; reflexivity). vm_compute. find_event.
Qed.


Section ChannelIndependence.

Variable env : Env.



End ChannelIndependence.


(** C6, as stated, fails.  With every channel enabled and no address to
    resolve, neither on the reminder nor on its owner, the dispatcher
    returns no email result at all, hence no failure result with a
    reason; the other two channels are served. *)
Lemma no_address_no_failure_result_counterexample :
  let r := bill_with (Some all_channels) in
  exists res,
    outcome (sendReminder env_up r anon world_anon) = Normal res /\
    js_or (Reminder.notificationEmail r) (User.email anon) = None /\
    Results.email res = None /\
    ~ (exists c, Results.email res = Some c /\ channel_success c = false) /\
    Results.push res = Some (Failed "OneSignal not configured") /\
    Results.inApp res = Some (InAppCreated "n1").
Proof.
  eexists. split; [vm_compute; reflexivity|]. cbn.
  repeat split. intros [c [H _]]. discriminate.
Qed.

Section EmailSender.

Variable env : Env.

Lemma emailTo_resolution r u :
  emailTo r u =
    if truthy (Reminder.notificationEmail r) then Reminder.notificationEmail r
    else if truthy (User.email u) then User.email u
    else None.
Proof.
  unfold emailTo, js_or.
  destruct (truthy (Reminder.notificationEmail r)) eqn:H; [now rewrite H|].
  reflexivity.
Qed.

(** C6, amended.  With the email channel enabled, the destination is the
    reminder's [notificationEmail] when that is a non-empty string, else
    the user's [email] when that is one.  When there is such an address,
    one message addressed to it is handed to the gateway, and the email
    entry is a success carrying the gateway's message identifier, or a
    failure carrying the gateway's error text.  When there is none, no
    message is handed to the gateway and the email entry stays [null].
    The sender itself never raises. *)
Theorem email_sender_result r u w ch :
  Reminder.notificationChannels r = Some ch ->
  Channels.email ch = true ->
  let run := sendReminder env r u w in
  exists res,
    outcome run = Normal res /\
    emailTo r u =
      (if truthy (Reminder.notificationEmail r) then Reminder.notificationEmail r
       else if truthy (User.email u) then User.email u
       else None) /\
    match emailTo r u with
    | Some address =>
        to (mailOptions env r u address) = address /\
        filter is_mail (events run) = [SmtpSendMail (mailOptions env r u address)] /\
        Results.email res =
          Some match smtp env (clock w) (mailOptions env r u address) with
               | Resolves messageId => EmailSent messageId address
               | Rejects e => EmailFailed (message e) address
               end /\
        outcome (sendEmailNotification env r u address w) =
          Normal match smtp env (clock w) (mailOptions env r u address) with
                 | Resolves messageId => EmailSent messageId address
                 | Rejects e => EmailFailed (message e) address
                 end
    | None =>
        filter is_mail (events run) = [] /\ Results.email res = None
    end.
Proof.
  intros Hch Hemail. cbv zeta.
  pose proof (emailTo_resolution r u) as Hres.
  pose proof (fun a => sendEmailNotification_run env r u a w) as Hsend.
  run_dispatcher env r u w ch Hch Htry Hrun; try discriminate; rewrite Hrun;
    eexists; (split; [reflexivity|]); (split; [exact Hres|]);
    repeat match goal with
           | |- _ /\ _ => split
           end;
    try reflexivity;
    try (rewrite Hsend;
         match goal with
         | H : smtp env _ _ = _ |- _ => rewrite H
         end; reflexivity).
Qed.

End EmailSender.

(** The rent reminder carries its own address, which wins over the user's;
    with the gateway down the entry is the failure with the gateway's
    error text. *)
Lemma email_sender_result_witness :
  emailTo rent ravi = Some "rent@example.com" /\
  exists res,
    outcome (sendReminder env_smtp_down rent ravi world0) = Normal res /\
    Results.email res = Some (EmailFailed "connect ECONNREFUSED" "rent@example.com").
Proof.
  split; [reflexivity|].
  destruct (email_sender_result env_smtp_down rent ravi world0 only_email eq_refl eq_refl)
    as (res & Hres & _ & H).
  exists res. split; [exact Hres|].
  change (emailTo rent ravi) with (Some "rent@example.com") in H.
  destruct H as (_ & _ & H & _). exact H.
Defined.

Section Scan.

Variable env : Env.

(** C7.  A scan started at time [now] whose query the store answers
    processes the documents its query matches, in store order, one
    after the other, and no other document.  The query matches only
    active reminders whose effective due date lies in the closed
    interval from [now] to [now + 2 hours]; it matches every such
    reminder whose [nextDueDate] holds a date or is missing from the
    document; and it matches no reminder that stores
    [nextDueDate: null], although the effective due date of such a
    reminder, its [dueDate], may lie in the interval: for those the
    scan does not do what the claim says. *)
Theorem scan_considers_window_unless_null w :
  reminder_find_fault env (clock w) = None ->
  let now := clock w in
  (forall r, In r (found w) <->
             In r (reminders w) /\ in_notice_window now r /\
             Reminder.nextDueDate r <> Null) /\
  (forall r, In r (found w) -> in_notice_window now r) /\
  (forall r, Reminder.nextDueDate r = Null -> ~ In r (found w)) /\
  (forall r, dueQuery now (now + 2 * 60 * 60 * 1000) r = true <->
             Reminder.status r = active /\
             match Reminder.nextDueDate r with
             | Holds next => now <= next <= now + two_hours
             | Missing => now <= Reminder.dueDate r <= now + two_hours
             | Null => False
             end) /\
  checkDueReminders env w =
    mkRun (Normal tt)
          (state (for_of (found w) (processReminder env) (elapse env w)))
          (ReminderFind
           :: ConsoleLog (FoundReminders (List.length (found w)))
           :: events (for_of (found w) (processReminder env) (elapse env w))).
Proof.
  intros Hfault now.
  assert (Hfound : forall r, In r (found w) <->
                     In r (reminders w) /\ in_notice_window now r /\
                     Reminder.nextDueDate r <> Null).
  { intros r. unfold found. rewrite filter_In. fold now.
    now rewrite dueQuery_window. }
  split; [exact Hfound|]. split; [|split; [|split]].
  - intros r Hr. now apply Hfound in Hr.
  - intros r Hnull Hr. apply Hfound in Hr. now destruct Hr as (_ & _ & Hr).
  - intros r. rewrite dueQuery_window.
    unfold in_notice_window, effectiveDueDate.
    destruct (Reminder.nextDueDate r); intuition congruence.
  - now apply checkDueReminders_run.
Qed.

End Scan.

(** The bill stored with [nextDueDate: null], ninety minutes before it is
    due: active, its effective due date in the window, and the scan finds
    nothing and processes nothing.  Stored without the field, the bill is
    found; and of a paused reminder due in ninety minutes, the bill, a
    reminder due in three hours and the rent due in a hundred minutes, a
    scan processes the bill and the rent. *)
Lemma scan_considers_window_unless_null_witness :
  (In bill_null (reminders world_null) /\
   in_notice_window (clock world_null) bill_null /\
   ~ In bill_null (found world_null) /\
   checkDueReminders env_up world_null =
     mkRun (Normal tt) (elapse env_up world_null)
           [ReminderFind; ConsoleLog (FoundReminders 0)]) /\
  (In bill (found world_bill) /\ found world_four = [bill; rent] /\
   filter is_mail (events (checkDueReminders env_up world_four)) =
     [SmtpSendMail (mailOptions env_up bill asha "asha@example.com");
      SmtpSendMail (mailOptions env_up rent ravi "rent@example.com")]).
Proof.
  split.
  - destruct (scan_considers_window_unless_null env_up world_null eq_refl)
      as (_ & _ & Hnull & _ & Hrun).
    split; [now left|]. split; [vm_compute; intuition discriminate|].
    split; [now apply Hnull|].
    rewrite Hrun. reflexivity.
  - destruct (scan_considers_window_unless_null env_up world_four eq_refl)
      as (_ & _ & _ & _ & Hrun).
    destruct (scan_considers_window_unless_null env_up world_bill eq_refl)
      as (Hin & _).
    split.
    { apply Hin. split; [now left|].
      split; [vm_compute; intuition discriminate | discriminate]. }
    split; [reflexivity|].
    rewrite Hrun. vm_compute. reflexivity.
Defined.

Section Isolation.

Variable env : Env.

(** C8.  [processReminder] never raises, and neither does
    [checkDueReminders].  In a scan whose query is answered, every
    document found is processed, whatever happened while the documents
    before it were processed: the events of the scan contain the run of
    [processReminder] on each of them.  A scan whose query raises logs
    the error and returns, leaving every store as it was; a later scan
    behaves as if the failed one had never run. *)
Theorem scan_isolates_failures :
  (forall r w, outcome (processReminder env r w) = Normal tt) /\
  (forall w, outcome (checkDueReminders env w) = Normal tt) /\
  (forall w before r after,
     reminder_find_fault env (clock w) = None ->
     found w = before ++ r :: after ->
     exists w_r evs_before evs_after,
       events (checkDueReminders env w) =
         evs_before ++ events (processReminder env r w_r) ++ evs_after /\
       w_r = state (for_of before (processReminder env) (elapse env w)) /\
       evs_after =
         events (for_of after (processReminder env)
                   (state (processReminder env r w_r)))) /\
  (forall w e,
     reminder_find_fault env (clock w) = Some e ->
     checkDueReminders env w =
       mkRun (Normal tt) (elapse env w)
             [ReminderFind; ConsoleError (ErrorCheckingDueReminders e)]) /\
  (forall w e t,
     reminder_find_fault env (clock w) = Some e ->
     checkDueReminders env (set_clock t (state (checkDueReminders env w))) =
     checkDueReminders env (set_clock t w)).
Proof.
  split; [exact (processReminder_outcome env)|].
  split.
  { intros w. destruct (reminder_find_fault env (clock w)) as [e|] eqn:Hfault.
    - now rewrite (checkDueReminders_aborts env w e Hfault).
    - now rewrite (checkDueReminders_run env w Hfault). }
  split.
  { intros w before r after Hfault Hfound.
    rewrite (checkDueReminders_run env w Hfault), Hfound.
    rewrite (for_of_app_returns _ _ _ _ (processReminder_returns env)).
    rewrite (for_of_cons_returns _ _ _ _ (processReminder_returns env r)).
    cbn [state events].
    eexists. exists
      (ReminderFind
       :: ConsoleLog (FoundReminders (List.length (before ++ r :: after)))
       :: events (for_of before (processReminder env) (elapse env w))).
    eexists. split; [|split; reflexivity].
    reflexivity. }
  split; [exact (checkDueReminders_aborts env)|].
  intros w e t Hfault.
  now rewrite (checkDueReminders_aborts env w e Hfault).
Qed.

End Isolation.

(** The lookup of the bill's owner raises: the scan logs the error for the
    bill and goes on to send the rent reminder. *)
Example scan_continues_after_failure :
  events (checkDueReminders env_u1_lookup_fails world0) =
    [ReminderFind; ConsoleLog (FoundReminders 2);
     UserFindById "u1";
     ConsoleError (ErrorProcessingReminder "r1" {| message := "cast failed" |});
     UserFindById "u2";
     ConsoleLog (SendingReminderNotification "Rent" 99);
     ConsoleLog (SendingEmailTo (Some "rent@example.com") (Some "rent@example.com")
                                (Some "ravi@example.com"));
     SmtpSendMail (mailOptions env_u1_lookup_fails rent ravi "rent@example.com");
     ConsoleLog (EmailSentTo "rent@example.com");
     ConsoleLog (EmailMessageId "<1@example.com>");
     ReminderSave (Reminder.set_lastNotificationSent rent (T - minutes 90 + 500));
     ConsoleLog (ReminderNotificationSent "Rent")].
Proof. vm_compute. reflexivity. Qed.

(** The database is down at one tick and up at the next: the first scan
    logs and returns, the second one sends both reminders. *)
Example scan_after_aborted_scan :
  let env := env_db_down_until T in
  let scan1 := checkDueReminders env world_db_down in
  let scan2 := checkDueReminders env (set_clock (T + minutes 5) (state scan1)) in
  events scan1 =
    [ReminderFind;
     ConsoleError (ErrorCheckingDueReminders {| message := "topology destroyed" |})] /\
  reminders (state scan1) = reminders world_db_down /\
  map Reminder.title (saved (events scan2)) = ["Rent"].
Proof. vm_compute. repeat split. Qed.

(** C9, as stated, fails in its last part.  A cleanup that deletes one
    record and a cleanup that deletes none return the same thing, nothing;
    the count goes to the log. *)
Lemma cleanup_returns_no_count_counterexample :
  let one := cleanupOldNotifications env_up (world_inbox [read_31_days_ago; never_read]) in
  let none := cleanupOldNotifications env_up (world_inbox [never_read]) in
  notifications (state one) = [never_read] /\
  notifications (state none) = [never_read] /\
  outcome one = Normal tt /\
  outcome none = Normal tt /\
  events one = [NotificationDeleteMany; ConsoleLog (CleanedUp 1)] /\
  events none = [NotificationDeleteMany; ConsoleLog (CleanedUp 0)].
Proof. repeat split. Qed.

Section Retention.

Variable env : Env.

(** C9, amended.  When the notification store carries out the deletion,
    [cleanupOldNotifications] run at time [now] deletes exactly the
    notifications with [isRead = true] and [readAt] earlier than the
    cut-off: the others stay, in order, among them every unread
    notification whatever its age and every notification read at the
    cut-off or later.  The cut-off is the same wall-clock time thirty
    calendar days before [now] in the time zone of the process: it is
    [now - 30 * 24 hours] shifted by the change of the zone's offset
    between the two days, so exactly [now - 30 * 24 hours] when the
    offset is the same on both.  The number of deleted records is
    written to the log; the call itself returns no value. *)
Theorem cleanup_deletes_exactly_old_read w :
  notification_deleteMany_fault env (clock w) = None ->
  let run := cleanupOldNotifications env w in
  let now := clock w in
  let cutoff := thirtyDaysAgo env now in
  let deleted := filter (cleanupQuery env now) (notifications w) in
  (forall n, In n (notifications (state run)) <->
             In n (notifications w) /\ ~ expired env now n) /\
  (forall n, In n deleted <-> In n (notifications w) /\ expired env now n) /\
  notifications (state run) =
    filter (fun n => negb (cleanupQuery env now n)) (notifications w) /\
  (forall n, In n (notifications w) -> Notification.isRead n = false ->
             In n (notifications (state run))) /\
  (forall n readAt, In n (notifications w) ->
             Notification.readAt n = Some readAt -> cutoff <= readAt ->
             In n (notifications (state run))) /\
  cutoff =
    now - thirty_days
    + (LocalTZA env now true
       - LocalTZA env (now + LocalTZA env now true - thirty_days) false) /\
  (same_offset_thirty_days_ago env now ->
     cutoff = now - thirty_days /\
     forall n, expired env now n <->
               Notification.isRead n = true /\
               exists readAt,
                 Notification.readAt n = Some readAt /\ readAt < now - thirty_days) /\
  outcome run = Normal tt /\
  events run = [NotificationDeleteMany; ConsoleLog (CleanedUp (List.length deleted))] /\
  List.length (notifications w) =
    (List.length deleted + List.length (notifications (state run)))%nat.
Proof.
  intros Hfault. cbv zeta.
  rewrite cleanupOldNotifications_run, Hfault.
  cbn [outcome state events elapse set_clock set_notifications notifications].
  assert (Hkept : forall n,
    In n (filter (fun n => negb (cleanupQuery env (clock w) n)) (notifications w)) <->
    In n (notifications w) /\ ~ expired env (clock w) n).
  { intros n. rewrite filter_In, negb_true_iff, <- cleanupQuery_expired.
    now destruct (cleanupQuery env (clock w) n); intuition. }
  assert (Hcut : thirtyDaysAgo env (clock w) =
    clock w - thirty_days
    + (LocalTZA env (clock w) true
       - LocalTZA env (clock w + LocalTZA env (clock w) true - thirty_days) false)).
  { unfold thirtyDaysAgo, days_before, thirty_days. cbv zeta. lia. }
  split; [exact Hkept|].
  split. { intros n. rewrite filter_In. now rewrite cleanupQuery_expired. }
  split; [reflexivity|].
  split.
  { intros n Hin Hunread. apply Hkept. split; [exact Hin|].
    intros [Hread _]. congruence. }
  split.
  { intros n readAt Hin Hat Hrecent. apply Hkept. split; [exact Hin|].
    intros [_ [t [Ht Hlt]]]. rewrite Hat in Ht. injection Ht as <-. lia. }
  split; [exact Hcut|].
  split.
  { intros Hsame. unfold same_offset_thirty_days_ago in Hsame.
    assert (Heq : thirtyDaysAgo env (clock w) = clock w - thirty_days)
      by (rewrite Hcut, Hsame; lia).
    split; [exact Heq|].
    intros n. unfold expired. now rewrite Heq. }
  split; [reflexivity|]. split; [reflexivity|].
  apply filter_length_split.
Qed.

End Retention.

(** The three notifications of section 8, on a server in India: the one
    read thirty-one days ago goes, the one read twenty-nine days ago and
    the unread one stay; the cut-off is thirty times twenty-four hours
    back. *)
Lemma cleanup_deletes_exactly_old_read_witness :
  notifications
    (state (cleanupOldNotifications env_up
              (world_inbox [read_31_days_ago; read_29_days_ago; never_read]))) =
    [read_29_days_ago; never_read] /\
  events (cleanupOldNotifications env_up
            (world_inbox [read_31_days_ago; read_29_days_ago; never_read])) =
    [NotificationDeleteMany; ConsoleLog (CleanedUp 1)] /\
  thirtyDaysAgo env_up T = T - thirty_days.
Proof.
  destruct (cleanup_deletes_exactly_old_read env_up
              (world_inbox [read_31_days_ago; read_29_days_ago; never_read]) eq_refl)
    as (_ & _ & Hkept & _ & _ & _ & Hsame & _ & Hev & _).
  split; [exact Hkept|]. split; [exact Hev|].
  exact (proj1 (Hsame eq_refl)).
Defined.

(** On a server in New York the clocks went back nine days before [T], so
    the cut-off of a cleanup run at [T] is an hour earlier than thirty
    times twenty-four hours back: a notification read half an hour before
    that mark stays, where the same cleanup on a server in India deletes
    it. *)
Example cleanup_across_daylight_saving :
  thirtyDaysAgo (in_zone new_york env_up) T = T - thirty_days - 3600000 /\
  notifications
    (state (cleanupOldNotifications (in_zone new_york env_up)
              (world_inbox [read_30_days_and_half_an_hour_ago]))) =
    [read_30_days_and_half_an_hour_ago] /\
  notifications
    (state (cleanupOldNotifications env_up
              (world_inbox [read_30_days_and_half_an_hour_ago]))) = [].
Proof. repeat split. Qed.

(** C10, as stated, fails in its middle part.  Started twice, the
    scheduler holds four jobs, each periodic task twice, all four running;
    when the quarter hour comes both scan tasks fire and the scan runs
    twice. *)
Lemma start_twice_registers_duplicates_counterexample :
  let once := state (startAll world_boot) in
  let twice := state (startAll once) in
  map name (jobs once) = ["reminderCheck"; "cleanup"] /\
  map name (jobs twice) = ["reminderCheck"; "cleanup"; "reminderCheck"; "cleanup"] /\
  map job (jobs twice) = [0; 1; 2; 3]%nat /\
  List.length (running_tasks RunCheckDueReminders twice) = 2%nat /\
  List.length (running_tasks RunCleanupOldNotifications twice) = 2%nat /\
  filter is_scan
    (events (bind (cron_fire env_up 0) (fun _ => cron_fire env_up 2) twice)) =
    [ReminderFind; ReminderFind].
Proof. vm_compute. repeat split. Qed.

Section Lifecycle.

(** C10, amended.  [stopAll] returns, stops the task of every job it
    holds and empties the job list; called again it stops nothing, logs
    nothing, changes nothing and returns.  [startAll] returns and adds
    two running tasks and their two jobs to whatever is already there,
    so the job list is empty exactly after [stopAll] and grows by two
    with each [startAll]: started twice, the scheduler holds four jobs
    more than before. *)
Theorem scheduler_start_stop w :
  let stopped := state (stopAll w) in
  let started := state (startAll w) in
  outcome (stopAll w) = Normal tt /\
  jobs stopped = [] /\
  (forall j t, In j (jobs w) ->
     nth_error (tasks stopped) (job j) = Some t -> running t = false) /\
  stopAll stopped = mkRun (Normal tt) stopped [] /\
  outcome (startAll w) = Normal tt /\
  jobs started =
    jobs w ++ [ {| name := "reminderCheck"; job := List.length (tasks w) |};
                {| name := "cleanup"; job := S (List.length (tasks w)) |} ] /\
  tasks started =
    tasks w ++ [ {| expression := "*/15 * * * *"; callback := RunCheckDueReminders;
                    running := true |};
                 {| expression := "0 2 * * *"; callback := RunCleanupOldNotifications;
                    running := true |} ] /\
  List.length (jobs (state (startAll started))) = (List.length (jobs w) + 4)%nat /\
  List.length (tasks (state (startAll started))) = (List.length (tasks w) + 4)%nat.
Proof.
  cbv zeta. rewrite !startAll_run, !stopAll_run.
  cbn [outcome state events jobs tasks set_jobs set_tasks].
  split; [reflexivity|]. split; [reflexivity|].
  split.
  { intros j t Hin Ht. apply stop_loop_tasks in Ht.
    destruct Ht as (t0 & _ & Hr). rewrite Hr.
    assert (He : existsb (fun j' => Nat.eqb (job j) (job j')) (jobs w) = true).
    { apply existsb_exists. exists j. split; [exact Hin | apply Nat.eqb_refl]. }
    now rewrite He. }
  split; [reflexivity|]. split; [reflexivity|].
  split. { now rewrite length_app, Nat.add_1_r. }
  split. { now rewrite <- app_assoc. }
  split.
  - rewrite !length_app. cbn. lia.
  - rewrite !length_app. cbn. lia.
Qed.

End Lifecycle.

(** * The testable properties of section 8 *)

(** Due in ninety minutes: a lead of 180 minutes notifies, one of 60 does
    not. *)
Example shouldNotify_lead_180_and_60 :
  let now := T - minutes 90 in
  effectiveDueDate (bill_lead 180) = now + minutes 90 /\
  shouldNotify (bill_lead 180) now = true /\
  shouldNotify (bill_lead 60) now = false /\
  dispatched (events (processReminder env_up (bill_lead 180) world0)) = true /\
  dispatched (events (processReminder env_up (bill_lead 60) world0)) = false.
Proof. vm_compute. repeat split. Qed.

(** Ten minutes after the bill was due, a reminder read from the store
    before that is still sent. *)
Example overdue_reminder_is_dispatched :
  let late := set_clock (T + minutes 10) world0 in
  minutesUntilDue bill (clock late) = -10 /\
  dispatched (events (processReminder env_up bill late)) = true /\
  filter is_mail (events (processReminder env_up bill late)) =
    [SmtpSendMail (mailOptions env_up bill asha "asha@example.com")].
Proof. vm_compute. repeat split. Qed.

(** Notified six hours ago: suppressed.  Thirteen hours ago: not. *)
Example suppression_six_and_thirteen_hours :
  let now := T - minutes 90 in
  recently_notified (Reminder.set_lastNotificationSent bill (now - hours 6)) now = true /\
  recently_notified (Reminder.set_lastNotificationSent bill (now - hours 13)) now = false /\
  dispatched
    (events (processReminder env_up
               (Reminder.set_lastNotificationSent bill (now - hours 6)) world0)) = false /\
  dispatched
    (events (processReminder env_up
               (Reminder.set_lastNotificationSent bill (now - hours 13)) world0)) = true.
Proof. vm_compute. repeat split. Qed.

(** The scenario: scanned ninety minutes before it is due, the bill is
    mailed and marked; scanned again an hour later, it is skipped. *)
Example electricity_bill_scenario :
  let scan1 := checkDueReminders env_up world_bill in
  let scan2 := checkDueReminders env_up (set_clock (T - minutes 30) (state scan1)) in
  filter is_mail (events scan1) =
    [SmtpSendMail (mailOptions env_up bill asha "asha@example.com")] /\
  map Reminder.lastNotificationSent (reminders (state scan1)) =
    [Some (T - minutes 90 + 250)] /\
  filter is_mail (events scan2) = [] /\
  dispatched (events scan2) = false /\
  List.length (found (set_clock (T - minutes 30) (state scan1))) = 1%nat.
Proof. vm_compute. repeat split. Qed.

(** * Further properties of the services *)

(** ** What a scan leaves alone *)

Section ScanFrame.

Variable env : Env.

(** [processReminder] writes to the reminder collection and, through the
    in-app sender, to the notification store; to nothing else. *)
Lemma processReminder_keeps {X} (view : World -> X) r :
  timeless view ->
  (forall l w, view (set_notifications l w) = view w) ->
  (forall l w, view (set_reminders l w) = view w) ->
  keeps view (processReminder env r).
Proof.
  intros Ht Hn Hr. unfold processReminder.
  apply keeps_try_catch; [|intros e; apply keeps_emit].
  apply keeps_bind; [now intros w|]. intros now. cbv zeta.
  assert (Hnotify : forall m, keeps view (notify env r now m)).
  { intros m. unfold notify.
    apply keeps_bind; [apply keeps_await; [exact Ht | intros w];
                       now destruct (user_findById_fault env (clock w) _)|].
    intros [u|]; [|apply keeps_emit].
    apply keeps_bind; [apply keeps_emit|]. intros _.
    apply keeps_bind; [now apply sendReminder_keeps|]. intros res.
    destruct (Results.success res); [|apply keeps_emit].
    apply keeps_bind; [|intros _; apply keeps_emit].
    apply keeps_await; [exact Ht|]. intros w.
    destruct (reminder_save_fault env (clock w) _); [reflexivity|].
    destruct (existsb _ _); [apply Hr | reflexivity]. }
  destruct (Reminder.lastNotificationSent r) as [last|].
  - destruct (Qltb _ _); [apply keeps_emit|].
    destruct (_ <=? _); [apply Hnotify | apply keeps_ret].
  - destruct (_ <=? _); [apply Hnotify | apply keeps_ret].
Qed.

(** The collection after [processReminder]: as before, or with the
    reminder marked as notified in place of its old version. *)
Lemma processReminder_reminders r w :
  reminders (state (processReminder env r w)) = reminders w \/
  reminders (state (processReminder env r w)) =
    replace_doc (Reminder.set_lastNotificationSent r (clock w)) (reminders w).
Proof.
  destruct (processReminder_cases env r w)
    as [(Hrec & Hyes & u & tail & Hu & _) | (_ & _ & _ & Hr & _)]; [|now left].
  destruct (sendReminder_returns env r u (elapse env w)) as [res Hres].
  destruct (processReminder_dispatch_saves env r w u res Hrec Hyes Hu Hres)
    as [_ Hstore].
  cbv zeta in Hstore. rewrite Hstore.
  destruct (Results.success res); [|now left].
  destruct (outcome (Reminder_save env _ _)); [now right | now left].
Qed.

Lemma same_but_lastNotificationSent_refl r : same_but_lastNotificationSent r r.
Proof. repeat split. Qed.

Lemma unique_id (l : list Reminder.t) a b :
  NoDup (map Reminder._id l) -> In a l -> In b l ->
  Reminder._id a = Reminder._id b -> a = b.
Proof.
  induction l as [|x l IH]; intros Hnd Ha Hb Hid; [destruct Ha|].
  cbn in Hnd. inversion Hnd as [|? ? Hx Hl]; subst.
  destruct Ha as [-> | Ha], Hb as [-> | Hb].
  - reflexivity.
  - exfalso. apply Hx. rewrite Hid. now apply in_map.
  - exfalso. apply Hx. rewrite <- Hid. now apply in_map.
  - now apply IH.
Qed.

(** Replacing the version of a document of the original collection keeps
    every document of the collection equal to its original up to
    [lastNotificationSent]. *)
Lemma replace_doc_evolved (l0 l : list Reminder.t) r now :
  NoDup (map Reminder._id l0) -> In r l0 ->
  Forall2 same_but_lastNotificationSent l0 l ->
  Forall2 same_but_lastNotificationSent l0
    (replace_doc (Reminder.set_lastNotificationSent r now) l).
Proof.
  intros Hnd Hr Hev.
  assert (Hall : forall d0, In d0 l0 -> Reminder._id d0 = Reminder._id r -> d0 = r).
  { intros d0 Hd0 Hid. now apply (unique_id l0). }
  clear Hnd Hr. induction Hev as [|d0 d l0 l Hd Hev IH]; [constructor|].
  cbn [replace_doc map]. constructor.
  - unfold same_id. cbn [Reminder._id Reminder.set_lastNotificationSent].
    destruct (String.eqb_spec (Reminder._id d) (Reminder._id r)) as [Hid|]; [|exact Hd].
    assert (d0 = r) as ->.
    { apply Hall; [now left|]. destruct Hd as [Hd _]. congruence. }
    apply set_lastNotificationSent_frame.
  - apply IH. intros d1 Hd1. apply Hall. now right.
Qed.

Lemma for_of_processReminder_evolved l0 found w :
  NoDup (map Reminder._id l0) -> incl found l0 ->
  Forall2 same_but_lastNotificationSent l0 (reminders w) ->
  Forall2 same_but_lastNotificationSent l0
    (reminders (state (for_of found (processReminder env) w))).
Proof.
  intros Hnd. revert w. induction found as [|r found IH]; intros w Hin Hev.
  - exact Hev.
  - rewrite (for_of_cons_returns _ _ _ _ (processReminder_returns env r)).
    cbn [state]. apply IH; [intros x Hx; apply Hin; now right|].
    destruct (processReminder_reminders r w) as [-> | ->]; [exact Hev|].
    apply replace_doc_evolved; [exact Hnd | apply Hin; now left | exact Hev].
Qed.

Lemma evolved_refl (l : list Reminder.t) : Forall2 same_but_lastNotificationSent l l.
Proof. induction l; constructor; [apply same_but_lastNotificationSent_refl | assumption]. Qed.

(** X1.  In a collection whose documents have distinct [_id]s, a scan
    neither adds nor removes a reminder, and the document it leaves in
    each position agrees with the one it found there on every path
    except [lastNotificationSent]; the users, the cron table and the
    job list are untouched.  This holds whatever the gateways and the
    stores answer. *)
Theorem scan_changes_only_lastNotificationSent w :
  NoDup (map Reminder._id (reminders w)) ->
  let after := state (checkDueReminders env w) in
  Forall2 same_but_lastNotificationSent (reminders w) (reminders after) /\
  map Reminder._id (reminders after) = map Reminder._id (reminders w) /\
  users after = users w /\ tasks after = tasks w /\ jobs after = jobs w.
Proof.
  intros Hnd. cbv zeta.
  assert (Hev : Forall2 same_but_lastNotificationSent (reminders w)
                  (reminders (state (checkDueReminders env w)))).
  { destruct (reminder_find_fault env (clock w)) as [e|] eqn:Hfault.
    - rewrite (checkDueReminders_aborts env w e Hfault). apply evolved_refl.
    - rewrite (checkDueReminders_run env w Hfault). cbn [state].
      apply for_of_processReminder_evolved; [exact Hnd| |apply evolved_refl].
      intros r Hr. unfold found in Hr. apply filter_In in Hr. apply Hr. }
  assert (Hkeep : forall X (view : World -> X),
            timeless view ->
            (forall l w, view (set_notifications l w) = view w) ->
            (forall l w, view (set_reminders l w) = view w) ->
            view (state (checkDueReminders env w)) = view w).
  { intros X view Ht Hn Hr.
    destruct (reminder_find_fault env (clock w)) as [e|] eqn:Hfault.
    - rewrite (checkDueReminders_aborts env w e Hfault). apply Ht.
    - rewrite (checkDueReminders_run env w Hfault). cbn [state].
      rewrite (keeps_for_of view _ _ (fun r => processReminder_keeps view r Ht Hn Hr)).
      apply Ht. }
  split; [exact Hev|]. split.
  { clear Hnd Hkeep. induction Hev as [|a b la lb Hab _ IH]; [reflexivity|].
    cbn. rewrite IH. destruct Hab as [-> _]. reflexivity. }
  split; [|split]; now apply Hkeep.
Qed.

End ScanFrame.

(** The bill and the rent, with the mail gateway down: after the scan both
    documents are as they were but for [lastNotificationSent]. *)
Lemma scan_changes_only_lastNotificationSent_witness :
  Forall2 same_but_lastNotificationSent
    [bill; rent] (reminders (state (checkDueReminders env_smtp_down world0))) /\
  users (state (checkDueReminders env_smtp_down world0)) = [asha; ravi].
Proof.
  assert (Hnd : NoDup (map Reminder._id (reminders world0))).
  { cbn. repeat constructor; cbn; intuition discriminate. }
  destruct (scan_changes_only_lastNotificationSent env_smtp_down world0 Hnd)
    as (Hev & _ & Hu & _).
  split; [exact Hev | exact Hu].
Defined.

(** ** What a dispatch writes *)

Section DispatchFrame.

Variable env : Env.

(** X2.  Whatever the gateways answer, [sendReminder] leaves the
    reminders, the users, the cron table and the job list as they were,
    and writes at most one record: the notification store gains the new
    in-app notification, unread and under the identifier the result
    reports, exactly when the in-app entry of the result is a success;
    in every other case the store is as it was. *)
Theorem sendReminder_writes_only_the_inApp_record r u w :
  let run := sendReminder env r u w in
  exists res,
    outcome run = Normal res /\
    reminders (state run) = reminders w /\
    users (state run) = users w /\
    tasks (state run) = tasks w /\
    jobs (state run) = jobs w /\
    notifications (state run) =
      match Results.inApp res with
      | Some (InAppCreated id) =>
          notifications w ++ [created id (inAppFields env r u)]
      | _ => notifications w
      end.
Proof.
  cbv zeta.
  destruct (Reminder.notificationChannels r) as [ch|] eqn:Hch.
  - run_dispatcher env r u w ch Hch Htry Hrun; rewrite Hrun;
      eexists; repeat split.
  - rewrite sendReminder_no_channels by assumption.
    eexists; repeat split.
Qed.

Lemma sendReminder_no_channel_run r u w :
  Reminder.notificationChannels r = Some no_channel ->
  sendReminder env r u w = mkRun (Normal nothing_sent) w [].
Proof.
  intros Hch.
  pose proof (email_step_run env r u no_channel results0 w Hch) as He.
  pose proof (push_step_run env r u no_channel results0 w Hch) as Hp.
  pose proof (inApp_step_run env r u no_channel results0 w Hch) as Hi.
  cbn [Channels.email Channels.push Channels.inApp no_channel] in He, Hp, Hi.
  destruct (sendReminder_steps env r u w _ _ _ _ _ _ _ _ _ He Hp Hi) as [_ Hrun].
  exact Hrun.
Qed.

(** X3.  A reminder whose channels are all switched off is dispatched
    like any other: the dispatcher reaches no gateway and no store,
    records nothing and reports success, so a run of [processReminder]
    that passes the guard and finds the user saves the reminder as
    notified although nothing was sent, and that save is the only call
    it makes beside the user lookup. *)
Theorem no_channel_is_marked_notified r w u :
  Reminder.notificationChannels r = Some no_channel ->
  recently_notified r (clock w) = false ->
  shouldNotify r (clock w) = true ->
  outcome (User_findById env (Reminder.user r) w) = Normal (Some u) ->
  sendReminder env r u (elapse env w) = mkRun (Normal nothing_sent) (elapse env w) [] /\
  saved (events (processReminder env r w)) =
    [Reminder.set_lastNotificationSent r (clock w)] /\
  filter is_effect (events (processReminder env r w)) =
    [ReminderSave (Reminder.set_lastNotificationSent r (clock w))].
Proof.
  intros Hch Hrec Hyes Hu.
  pose proof (sendReminder_no_channel_run r u (elapse env w) Hch) as Hrun.
  split; [exact Hrun|].
  assert (Hres : outcome (sendReminder env r u (elapse env w)) = Normal nothing_sent)
    by now rewrite Hrun.
  pose proof (processReminder_dispatch env r w u nothing_sent Hrec Hyes Hu Hres) as H.
  cbv zeta in H. cbn [Results.success nothing_sent] in H. rewrite H. clear H Hres.
  unfold dispatch_prefix. rewrite Hrun. cbn [state events app].
  destruct (outcome (Reminder_save env _ _)); split; reflexivity.
Qed.

End DispatchFrame.

(** The bill with every channel off, ninety minutes before it is due. *)
Lemma no_channel_is_marked_notified_witness :
  filter is_effect (events (processReminder env_up (bill_with (Some no_channel)) world_silent)) =
    [ReminderSave (Reminder.set_lastNotificationSent (bill_with (Some no_channel))
                     (T - minutes 90))] /\
  map Reminder.lastNotificationSent
      (reminders (state (checkDueReminders env_up world_silent))) =
    [Some (T - minutes 90 + 250)].
Proof.
  destruct (no_channel_is_marked_notified env_up (bill_with (Some no_channel))
              world_silent asha eq_refl eq_refl eq_refl eq_refl) as (_ & _ & H).
  split; [exact H | reflexivity].
Defined.

(** ** The reach of the lead time *)

Section LeadTime.

(** X4.  A scan only finds reminders that are due within two hours, so
    every reminder it finds is at most 120 minutes from due, at the
    start of the scan and at any later time; a lead time of 120 minutes
    or more therefore always passes the eligibility test, and a longer
    lead time notifies no earlier than one of 120 minutes.  At the start
    of the scan a found reminder is not overdue. *)
Theorem found_is_due_within_two_hours w r :
  In r (found w) ->
  0 <= minutesUntilDue r (clock w) /\
  forall now, clock w <= now ->
    minutesUntilDue r now <= 120 /\
    (120 <= Reminder.reminderTime r -> shouldNotify r now = true).
Proof.
  intros Hin. unfold found in Hin. apply filter_In in Hin.
  destruct Hin as [_ Hq]. apply dueQuery_window in Hq.
  destruct Hq as [[_ Hw] _]. unfold two_hours in Hw.
  assert (Heff : date_or (Reminder.nextDueDate r) (Reminder.dueDate r)
                 = effectiveDueDate r) by reflexivity.
  unfold shouldNotify, minutesUntilDue. rewrite Heff. split.
  - apply Z.div_pos; lia.
  - intros now Hnow.
    assert (Hle : (effectiveDueDate r - now) / 60000 <= 120).
    { apply Z.div_le_upper_bound; lia. }
    split; [exact Hle|]. intros Hlead. apply Z.leb_le. lia.
Qed.

End LeadTime.

(** The rent, with a lead time of 180 minutes, is found a hundred minutes
    before it is due and not at the scan three hours before. *)
Lemma found_is_due_within_two_hours_witness :
  minutesUntilDue rent (clock world0) = 100 /\
  shouldNotify rent (clock world0) = true /\
  found (set_clock (T + minutes 10 - minutes 180) world0) = [].
Proof.
  assert (Hin : In rent (found world0)) by (right; left; reflexivity).
  destruct (found_is_due_within_two_hours world0 rent Hin) as [_ H].
  destruct (H (clock world0) (Z.le_refl _)) as [_ Hs].
  split; [reflexivity|].
  split; [apply Hs; vm_compute; discriminate | reflexivity].
Defined.

(** ** The cleanup task, whatever the store does *)

Section CleanupAlways.

Variable env : Env.

(** X5.  [cleanupOldNotifications] never raises and never touches the
    reminders, the users, the cron table or the job list.  It adds no
    notification and never deletes one that is unread or that carries no
    read timestamp, however old.  When the store raises, nothing is
    deleted and the error is logged. *)
Theorem cleanup_is_safe w :
  let run := cleanupOldNotifications env w in
  outcome run = Normal tt /\
  reminders (state run) = reminders w /\
  users (state run) = users w /\
  tasks (state run) = tasks w /\
  jobs (state run) = jobs w /\
  incl (notifications (state run)) (notifications w) /\
  (forall n, In n (notifications w) ->
     Notification.isRead n = false \/ Notification.readAt n = None ->
     In n (notifications (state run))) /\
  (forall e, notification_deleteMany_fault env (clock w) = Some e ->
     notifications (state run) = notifications w /\
     events run = [NotificationDeleteMany; ConsoleError (ErrorCleaningUp e)]).
Proof.
  cbv zeta. rewrite cleanupOldNotifications_run.
  destruct (notification_deleteMany_fault env (clock w)) as [e|];
    cbn [outcome state events elapse set_clock set_notifications
         reminders users tasks jobs notifications].
  - repeat split; try reflexivity.
    + intros n Hn. exact Hn.
    + intros n Hn _. exact Hn.
    + injection H as <-. reflexivity.
  - repeat split; try reflexivity.
    + intros n Hn. apply filter_In in Hn. apply Hn.
    + intros n Hn Hkeep. apply filter_In. split; [exact Hn|].
      unfold cleanupQuery. destruct Hkeep as [-> | ->]; [reflexivity|].
      now rewrite andb_false_r.
    + discriminate.
    + discriminate.
Qed.

(** X6.  After a cleanup that the store carried out at time [now], a
    cleanup at time [later] deletes only notifications read between the
    two cut-offs: at the first or after it, and before the second.  When
    the second cut-off is not later than the first, as when the cleanup
    is run again at the same time, it deletes nothing and logs a count
    of zero.  Each cut-off is thirty calendar days before its run in the
    time zone of the process; where the offset of the zone is the same
    at each run and thirty days before it, a cleanup run again at [now]
    or earlier deletes nothing. *)
Theorem cleanup_again w later :
  notification_deleteMany_fault env (clock w) = None ->
  notification_deleteMany_fault env later = None ->
  let cleaned := set_clock later (state (cleanupOldNotifications env w)) in
  let again := cleanupOldNotifications env cleaned in
  (forall n, In n (notifications cleaned) -> ~ In n (notifications (state again)) ->
     Notification.isRead n = true /\
     exists readAt, Notification.readAt n = Some readAt /\
                    thirtyDaysAgo env (clock w) <= readAt < thirtyDaysAgo env later) /\
  (thirtyDaysAgo env later <= thirtyDaysAgo env (clock w) ->
     notifications (state again) = notifications cleaned /\
     events again = [NotificationDeleteMany; ConsoleLog (CleanedUp 0)]) /\
  (same_offset_thirty_days_ago env (clock w) ->
   same_offset_thirty_days_ago env later ->
   later <= clock w ->
     notifications (state again) = notifications cleaned /\
     events again = [NotificationDeleteMany; ConsoleLog (CleanedUp 0)]).
Proof.
  intros Hfault Hlater. cbv zeta.
  rewrite (cleanupOldNotifications_run env w), Hfault.
  cbn [state elapse set_clock set_notifications].
  rewrite cleanupOldNotifications_run.
  cbn [clock set_clock elapse set_notifications notifications]. rewrite Hlater.
  cbn [state events elapse set_clock set_notifications notifications].
  set (kept := filter (fun n => negb (cleanupQuery env (clock w) n)) (notifications w)).
  assert (Hkept : forall n, In n kept -> cleanupQuery env later n = true ->
            Notification.isRead n = true /\
            exists readAt, Notification.readAt n = Some readAt /\
              thirtyDaysAgo env (clock w) <= readAt < thirtyDaysAgo env later).
  { intros n Hn Hq. apply filter_In in Hn. destruct Hn as [_ Hn].
    apply negb_true_iff in Hn.
    unfold cleanupQuery in Hn, Hq. unfold thirtyDaysAgo.
    destruct (Notification.isRead n); [|discriminate].
    destruct (Notification.readAt n) as [t|]; [|discriminate].
    cbn [andb] in Hn, Hq. apply Z.ltb_lt in Hq. apply Z.ltb_ge in Hn.
    split; [reflexivity|]. exists t. split; [reflexivity | lia]. }
  assert (Hnothing : thirtyDaysAgo env later <= thirtyDaysAgo env (clock w) ->
            filter (fun n => negb (cleanupQuery env later n)) kept = kept /\
            [NotificationDeleteMany;
             ConsoleLog (CleanedUp (List.length (filter (cleanupQuery env later) kept)))] =
            [NotificationDeleteMany; ConsoleLog (CleanedUp 0)]).
  { intros Hle.
    assert (Hnone : forall n, In n kept -> cleanupQuery env later n = false).
    { intros n Hn. destruct (cleanupQuery env later n) eqn:Hq; [|reflexivity].
      destruct (Hkept n Hn Hq) as (_ & t & _ & Ht). lia. }
    assert (Hdel : filter (cleanupQuery env later) kept = []).
    { clearbody kept. induction kept as [|x l IH]; [reflexivity|].
      cbn. rewrite (Hnone x) by now left. apply IH.
      - intros n Hn. apply Hkept. now right.
      - intros n Hn. apply Hnone. now right. }
    assert (Hsame : filter (fun n => negb (cleanupQuery env later n)) kept = kept).
    { clearbody kept. clear Hdel. induction kept as [|x l IH]; [reflexivity|].
      cbn. rewrite (Hnone x) by now left. cbn. f_equal. apply IH.
      - intros n Hn. apply Hkept. now right.
      - intros n Hn. apply Hnone. now right. }
    now rewrite Hdel, Hsame. }
  split; [|split].
  - intros n Hn Hgone. apply Hkept; [exact Hn|].
    destruct (cleanupQuery env later n) eqn:Hq; [reflexivity|].
    exfalso. apply Hgone. apply filter_In. split; [exact Hn | now rewrite Hq].
  - exact Hnothing.
  - intros Hw Hl Hle. apply Hnothing.
    unfold same_offset_thirty_days_ago in Hw, Hl.
    unfold thirtyDaysAgo, days_before. cbv zeta.
    fold thirty_days. change (30 * (24 * 60 * 60 * 1000)) with thirty_days.
    rewrite Hw, Hl. lia.
Qed.

End CleanupAlways.

(** The three notifications of section 8, cleaned at [T] and again two
    days later: the second cleanup removes the one read twenty-nine days
    before [T]; run at [T] again instead, it removes nothing. *)
Lemma cleanup_again_witness :
  let inbox := world_inbox [read_31_days_ago; read_29_days_ago; never_read] in
  let cleaned := state (cleanupOldNotifications env_up inbox) in
  events (cleanupOldNotifications env_up (set_clock T cleaned)) =
    [NotificationDeleteMany; ConsoleLog (CleanedUp 0)] /\
  notifications (state (cleanupOldNotifications env_up (set_clock (T + days 2) cleaned))) =
    [never_read].
Proof.
  cbv zeta.
  destruct (cleanup_again env_up
              (world_inbox [read_31_days_ago; read_29_days_ago; never_read]) T
              eq_refl eq_refl) as (_ & _ & H).
  destruct (H eq_refl eq_refl (Z.le_refl _)) as [_ Hev].
  split; [exact Hev | reflexivity].
Defined.

(** ** The scheduler keeps track of its tasks *)

Section Tracking.

Variable env : Env.

Lemma stopAll_stops_everything w :
  tracked w ->
  forall h t, nth_error (tasks (state (stopAll w))) h = Some t -> running t = false.
Proof.
  intros Htr h t Ht. rewrite stopAll_run in Ht.
  cbn [state tasks set_jobs] in Ht. apply stop_loop_tasks in Ht.
  destruct Ht as (t0 & Ht0 & Hr). rewrite Hr.
  destruct (existsb (fun j => Nat.eqb h (job j)) (jobs w)) eqn:He; [reflexivity|].
  destruct (running t0) eqn:Hrun; [|reflexivity].
  destruct (Htr h t0 Ht0 Hrun) as (j & Hj & Hjob).
  assert (Hex : existsb (fun j => Nat.eqb h (job j)) (jobs w) = true).
  { apply existsb_exists. exists j. split; [exact Hj|]. subst h. apply Nat.eqb_refl. }
  congruence.
Qed.

(** X7.  If every running cron task is held by a job of the scheduler,
    the same is true after [startAll] and after [stopAll].  From such a
    state [stopAll] leaves no task running at all, however many times
    [startAll] was called before, so that no schedule coming up
    afterwards runs a scan or a cleanup. *)
Theorem scheduler_keeps_track w :
  tracked w ->
  tracked (state (startAll w)) /\
  tracked (state (stopAll w)) /\
  (forall h t, nth_error (tasks (state (stopAll w))) h = Some t -> running t = false) /\
  (forall h, cron_fire env h (state (stopAll w)) =
             mkRun (Normal tt) (state (stopAll w)) []).
Proof.
  intros Htr.
  pose proof (stopAll_stops_everything w Htr) as Hstopped.
  split; [|split; [|split]].
  - rewrite startAll_run. cbn [state]. intros h t Ht Hrun.
    cbn [tasks jobs set_jobs set_tasks] in *.
    rewrite <- app_assoc in Ht. cbn [app] in Ht.
    destruct (Nat.lt_ge_cases h (List.length (tasks w))) as [Hlt | Hge].
    + rewrite nth_error_app1 in Ht by exact Hlt.
      destruct (Htr h t Ht Hrun) as (j & Hj & Hjob).
      exists j. split; [apply in_or_app; now left | exact Hjob].
    + rewrite nth_error_app2 in Ht by exact Hge.
      destruct (h - List.length (tasks w))%nat as [|[|k]] eqn:Hk.
      * eexists. split; [apply in_or_app; right; left; reflexivity|]. cbn. lia.
      * eexists. split; [apply in_or_app; right; right; left; reflexivity|].
        cbn. rewrite length_app. cbn. lia.
      * destruct k; discriminate.
  - intros h t Ht Hrun. rewrite (Hstopped h t Ht) in Hrun. discriminate.
  - exact Hstopped.
  - intros h. unfold cron_fire.
    destruct (nth_error (tasks (state (stopAll w))) h) as [t|] eqn:Ht; [|reflexivity].
    now rewrite (Hstopped h t Ht).
Qed.

End Tracking.

(** Started twice and then stopped, the scheduler runs nothing when the
    quarter hour comes. *)
Lemma scheduler_keeps_track_witness :
  let twice := state (startAll (state (startAll world_boot))) in
  tracked twice /\
  events (cron_fire env_up 2 (state (stopAll twice))) = [] /\
  events (cron_fire env_up 2 twice) <> [].
Proof.
  cbv zeta.
  assert (Hboot : tracked world_boot).
  { intros h t Ht. destruct h; discriminate. }
  destruct (scheduler_keeps_track env_up world_boot Hboot) as (Hone & _).
  destruct (scheduler_keeps_track env_up _ Hone) as (Htwo & _).
  destruct (scheduler_keeps_track env_up _ Htwo) as (_ & _ & _ & Hfire).
  split; [exact Htwo|]. split; [now rewrite Hfire|].
  vm_compute. discriminate.
Defined.

(** * The receipt controller *)

(** ** Parsing the text of a receipt *)

Section ParseProperties.

Lemma starts_with_occurs pat s :
  starts_with pat s = true <-> exists rest, s = pat ++ rest.
Proof.
  revert s. induction pat as [|p pat IH]; intros s; cbn.
  - split; [intros _; now exists s | reflexivity].
  - destruct s as [|c s]; [split; [discriminate | intros [r H]; discriminate]|].
    rewrite andb_true_iff, Z.eqb_eq, IH. split.
    + intros [-> [rest ->]]. now exists rest.
    + intros [rest H]. injection H as -> ->. split; [reflexivity | now exists rest].
Qed.

(** [includes] is the occurrence of the pattern somewhere in the string. *)
Lemma includes_occurs s pat : includes s pat = true <-> occurs_in pat s.
Proof.
  unfold occurs_in. induction s as [|c s IH]; cbn [includes].
  - rewrite orb_false_r, starts_with_occurs. split.
    + intros [rest H]. now exists [], rest.
    + intros [[|b before] [post H]]; [now exists post|discriminate].
  - rewrite orb_true_iff, starts_with_occurs, IH. split.
    + intros [[rest H] | [before [post H]]].
      * now exists [], rest.
      * exists (c :: before), post. cbn. now rewrite H.
    + intros [[|b before] [post H]].
      * left. now exists post.
      * right. injection H as -> ->. now exists before, post.
Qed.

Lemma first_category_other entries lower :
  first_category entries lower = "Other" ->
  (forall key words, In (key, words) entries -> key <> "Other") ->
  forall key words w, In (key, words) entries -> In w words ->
    includes lower (units w) = false.
Proof.
  induction entries as [|[k ws] entries IH]; intros Hother Hkeys key words w Hin Hw.
  - destruct Hin.
  - cbn [first_category] in Hother.
    destruct (existsb _ ws) eqn:Hex.
    + exfalso. apply (Hkeys k ws); [now left | exact Hother].
    + destruct Hin as [Heq | Hin].
      * injection Heq as <- <-.
        destruct (includes lower (units w)) eqn:Hi; [|reflexivity].
        assert (existsb (fun w => includes lower (units w)) ws = true).
        { apply existsb_exists. now exists w. }
        congruence.
      * apply (IH Hother (fun k' ws' H => Hkeys k' ws' (or_intror H)) key words w Hin Hw).
Qed.

Lemma first_category_none entries lower :
  (forall key words w, In (key, words) entries -> In w words ->
     includes lower (units w) = false) ->
  first_category entries lower = "Other".
Proof.
  induction entries as [|[k ws] entries IH]; intros Hnone; [reflexivity|].
  cbn [first_category].
  assert (Hex : existsb (fun w => includes lower (units w)) ws = false).
  { apply not_true_is_false. intros H. apply existsb_exists in H.
    destruct H as [w [Hw Hi]]. rewrite (Hnone k ws w) in Hi; [discriminate|now left|exact Hw]. }
  rewrite Hex. apply IH. intros key words w Hin Hw.
  apply (Hnone key words w); [now right | exact Hw].
Qed.

Variable Number : Type.
Variable parseFloat : JsString -> Number.
Variable toLowerCase : JsString -> JsString.

(** The loop answers ["Other"] or one of the keys. *)
Lemma first_category_key entries lower :
  first_category entries lower = "Other" \/
  In (first_category entries lower) (map fst entries).
Proof.
  induction entries as [|[k ws] entries IH]; [now left|].
  cbn [first_category map fst].
  destruct (existsb _ ws); [right; now left|].
  destruct IH as [IH | IH]; [now left | right; now right].
Qed.

(** The loop answers a key exactly when one of its words is found and
    no word of an entry before it is. *)
Lemma first_category_order entries lower earlier key words later :
  entries = earlier ++ (key, words) :: later ->
  NoDup (map fst entries) ->
  ~ In "Other" (map fst entries) ->
  (first_category entries lower = key <->
   existsb (fun w => includes lower (units w)) words = true /\
   forall k ws, In (k, ws) earlier ->
     existsb (fun w => includes lower (units w)) ws = false).
Proof.
  revert entries. induction earlier as [|[k0 ws0] earlier IH];
    intros entries -> Hnodup Hother.
  - cbn [app first_category map fst] in *.
    destruct (existsb _ words) eqn:Hex.
    + split; [intros _; split; [reflexivity | intros k ws []] | reflexivity].
    + split; [|intros [H _]; discriminate].
      intros Hkey. exfalso.
      destruct (first_category_key later lower) as [Ho | Hin].
      * apply Hother. left. congruence.
      * rewrite Hkey in Hin. now inversion Hnodup.
  - cbn [app first_category map fst] in *.
    assert (Hnodup' : NoDup (map fst (earlier ++ (key, words) :: later)))
      by now inversion Hnodup.
    assert (Hother' : ~ In "Other" (map fst (earlier ++ (key, words) :: later)))
      by (intros H; apply Hother; now right).
    specialize (IH _ eq_refl Hnodup' Hother').
    destruct (existsb _ ws0) eqn:Hex.
    + split.
      * intros ->. exfalso. inversion Hnodup as [|x l Hnotin _]. apply Hnotin.
        rewrite map_app. apply in_or_app. right. now left.
      * intros [_ Hnone]. rewrite (Hnone k0 ws0) in Hex by now left.
        discriminate.
    + rewrite IH. split.
      * intros [Hw Hnone]. split; [exact Hw|].
        intros k ws [Heq | Hin]; [injection Heq as <- <-; exact Hex | now apply (Hnone k)].
      * intros [Hw Hnone]. split; [exact Hw|].
        intros k ws Hin. apply (Hnone k). now right.
Qed.

(** X8.  The category of a receipt is ["Other"] exactly when no keyword
    of any category occurs anywhere in the lower-cased text; a keyword
    counts wherever it occurs, also inside a longer word.  The
    categories are tried in the order Food, Transport, Shopping, Bills,
    Health, and the first one with a keyword in the text wins: the
    category is a given one exactly when one of its keywords occurs and
    no keyword of a category before it does. *)
Theorem category_of_receipt text :
  let category := receipt_category (parseReceiptData Number parseFloat toLowerCase text) in
  (category = "Other" <->
   forall w, is_keyword w -> ~ occurs_in (units w) (toLowerCase text)) /\
  (forall w, In w ["hotel"; "restaurant"; "cafe"; "food"; "pizza"; "burger"] ->
     occurs_in (units w) (toLowerCase text) -> category = "Food") /\
  In category ["Food"; "Transport"; "Shopping"; "Bills"; "Health"; "Other"] /\
  map fst categories = ["Food"; "Transport"; "Shopping"; "Bills"; "Health"] /\
  (forall earlier key words later,
     categories = earlier ++ (key, words) :: later ->
     (category = key <->
      (exists w, In w words /\ occurs_in (units w) (toLowerCase text)) /\
      (forall k ws w, In (k, ws) earlier -> In w ws ->
         ~ occurs_in (units w) (toLowerCase text)))).
Proof.
  cbv zeta. unfold parseReceiptData. cbn [receipt_category].
  set (lower := toLowerCase text).
  split; [|split; [|split; [|split]]].
  - split.
    + intros Hother w (key & words & Hin & Hw) Hocc.
      apply includes_occurs in Hocc.
      rewrite (first_category_other categories lower Hother) with (key := key)
        (words := words) in Hocc; [discriminate| |exact Hin|exact Hw].
      intros k ws Hk. cbn in Hk.
      repeat (destruct Hk as [Hk | Hk]; [injection Hk as <- _; discriminate|]).
      destruct Hk.
    + intros Hnone. apply first_category_none.
      intros key words w Hin Hw. apply not_true_is_false. intros Hi.
      apply includes_occurs in Hi. apply (Hnone w); [|exact Hi].
      now exists key, words.
  - intros w Hw Hocc. apply includes_occurs in Hocc.
    unfold categories. cbn [first_category].
    assert (Hex : existsb (fun w => includes lower (units w))
                    ["hotel"; "restaurant"; "cafe"; "food"; "pizza"; "burger"] = true).
    { apply existsb_exists. now exists w. }
    now rewrite Hex.
  - unfold categories. cbn [first_category].
    repeat match goal with
           | |- In (if ?b then _ else _) _ => destruct b
           end; cbn; tauto.
  - reflexivity.
  - intros earlier key words later Hsplit.
    assert (Hnodup : NoDup (map fst categories)).
    { cbn. repeat constructor; cbn; intuition discriminate. }
    assert (Hother : ~ In "Other" (map fst categories)).
    { cbn. intuition discriminate. }
    rewrite (first_category_order categories lower earlier key words later
               Hsplit Hnodup Hother).
    rewrite existsb_exists. split.
    + intros [[w [Hw Hi]] Hnone]. split.
      * exists w. split; [exact Hw | now apply includes_occurs].
      * intros k ws w' Hin Hw' Hocc. apply includes_occurs in Hocc.
        assert (Hex : existsb (fun w => includes lower (units w)) ws = true)
          by (apply existsb_exists; now exists w').
        rewrite (Hnone k ws Hin) in Hex. discriminate.
    + intros [[w [Hw Hocc]] Hnone]. split.
      * exists w. split; [exact Hw | now apply includes_occurs].
      * intros k ws Hin. apply not_true_is_false. intros Hex.
        apply existsb_exists in Hex. destruct Hex as [w' [Hw' Hi]].
        apply (Hnone k ws w' Hin Hw'). now apply includes_occurs.
Qed.

End ParseProperties.

Section AmountProperties.

Lemma drop_while_suffix p s : exists before, s = before ++ drop_while p s.
Proof.
  induction s as [|c s [before IH]]; [now exists []|].
  cbn. destruct (p c); [|now exists []].
  exists (c :: before). cbn. now rewrite <- IH.
Qed.

Lemma optional_suffix p s : exists before, s = before ++ optional p s.
Proof.
  destruct s as [|c s]; [now exists []|].
  cbn. destruct (p c); [now exists [c] | now exists []].
Qed.

Lemma starts_ci_suffix pat s rest :
  starts_ci pat s = Some rest -> exists before, s = before ++ rest.
Proof.
  revert s. induction pat as [|p pat IH]; intros s H.
  - injection H as <-. now exists [].
  - destruct s as [|c s]; [discriminate|]. cbn in H.
    destruct (fold_case c =? fold_case p); [|discriminate].
    destruct (IH s H) as [before ->]. now exists (c :: before).
Qed.

Lemma take_drop_while p s : s = take_while p s ++ drop_while p s.
Proof.
  induction s as [|c s IH]; [reflexivity|].
  cbn. destruct (p c); [|reflexivity]. cbn. now rewrite <- IH.
Qed.

Lemma take_while_all p s : Forall (fun c => p c = true) (take_while p s).
Proof.
  induction s as [|c s IH]; [constructor|].
  cbn. destruct (p c) eqn:Hc; [now constructor | constructor].
Qed.

Lemma captured_from_suffix d rest before :
  captured_from d rest -> captured_from d (before ++ rest).
Proof.
  intros (Hne & Hall & pre & post & ->). repeat split; [exact Hne | exact Hall|].
  exists (before ++ pre), post. now rewrite <- app_assoc.
Qed.

Lemma amount_tail_captured s d : amount_tail s = Some d -> captured_from d s.
Proof.
  unfold amount_tail. intros H.
  destruct (drop_while_suffix is_whitespace s) as [before Hs].
  set (rest := drop_while is_whitespace s) in *.
  assert (Hd : take_while is_amount_char rest = d).
  { destruct (take_while is_amount_char rest); [discriminate | now injection H]. }
  rewrite Hs. apply captured_from_suffix. repeat split.
  - intros ->. rewrite Hd in H. discriminate.
  - rewrite <- Hd. apply take_while_all.
  - exists [], (drop_while is_amount_char rest). cbn. rewrite <- Hd.
    apply take_drop_while.
Qed.

Lemma labelled_tail_captured s d : labelled_tail s = Some d -> captured_from d s.
Proof.
  unfold labelled_tail. intros H. apply amount_tail_captured in H.
  destruct (drop_while_suffix is_whitespace s) as [b1 H1].
  destruct (optional_suffix is_colon_or_hyphen (drop_while is_whitespace s)) as [b2 H2].
  destruct (drop_while_suffix is_whitespace
              (optional is_colon_or_hyphen (drop_while is_whitespace s))) as [b3 H3].
  destruct (optional_suffix (Z.eqb rupee)
              (drop_while is_whitespace
                 (optional is_colon_or_hyphen (drop_while is_whitespace s)))) as [b4 H4].
  rewrite H1, H2, H3, H4.
  now repeat apply captured_from_suffix.
Qed.

Lemma regex_search_captured at_start s d :
  (forall s d, at_start s = Some d -> captured_from d s) ->
  regex_search at_start s = Some d -> captured_from d s.
Proof.
  intros Hat. induction s as [|c s IH]; cbn [regex_search]; intros H.
  - destruct (at_start []) eqn:Ha; [|discriminate]. injection H as <-. now apply Hat.
  - destruct (at_start (c :: s)) eqn:Ha.
    + injection H as <-. now apply Hat.
    + apply (captured_from_suffix d s [c]). now apply IH.
Qed.

Lemma amountRegexes_captured at_start :
  In at_start amountRegexes ->
  forall s d, at_start s = Some d -> captured_from d s.
Proof.
  intros [<- | [<- | [<- | []]]] s d H.
  - destruct (starts_ci (units "total") s) as [rest|] eqn:Hl; [|discriminate].
    destruct (starts_ci_suffix _ _ _ Hl) as [before ->].
    apply captured_from_suffix. now apply labelled_tail_captured.
  - destruct (starts_ci (units "amount") s) as [rest|] eqn:Hl; [|discriminate].
    destruct (starts_ci_suffix _ _ _ Hl) as [before ->].
    apply captured_from_suffix. now apply labelled_tail_captured.
  - destruct s as [|c rest]; [discriminate|].
    destruct (c =? rupee); [|discriminate].
    apply (captured_from_suffix d rest [c]). now apply amount_tail_captured.
Qed.

Lemma first_match_captured regexes text d :
  incl regexes amountRegexes ->
  first_match regexes text = Some d -> captured_from d text.
Proof.
  induction regexes as [|regex regexes IH]; intros Hincl H; [discriminate|].
  cbn [first_match] in H.
  destruct (regex_search regex text) as [c|] eqn:Hs.
  - injection H as <-.
    apply (regex_search_captured regex); [|exact Hs].
    apply amountRegexes_captured. apply Hincl. now left.
  - apply IH; [|exact H]. intros x Hx. apply Hincl. now right.
Qed.

Lemma regex_search_none at_start s :
  (forall before rest, s = before ++ rest -> at_start rest = None) ->
  regex_search at_start s = None.
Proof.
  induction s as [|c s IH]; intros H; cbn [regex_search].
  - now rewrite (H [] []).
  - rewrite (H [] (c :: s)) by reflexivity. apply IH.
    intros before rest ->. apply (H (c :: before) rest). reflexivity.
Qed.

Variable Number : Type.
Variable parseFloat : JsString -> Number.
Variable toLowerCase : JsString -> JsString.

(** X9.  When [parseReceiptData] finds an amount, it is [parseFloat] of
    a non-empty run of digits, dots and commas that occurs in the text,
    with the commas removed, so of digits and dots only.  The amount is
    [null] when the text holds no digit, dot or comma, and also, however
    many numbers it holds, when it holds neither a rupee sign nor the
    word "total" or "amount" in any case: a number needs a label. *)
Theorem amount_of_receipt text :
  let amount := receipt_amount (parseReceiptData Number parseFloat toLowerCase text) in
  (forall n, amount = Some n ->
     exists captured,
       captured <> [] /\ occurs_in captured text /\
       Forall (fun c => is_amount_char c = true) captured /\
       Forall (fun c => is_digit c = true \/ c = 46) (remove_commas captured) /\
       n = parseFloat (remove_commas captured)) /\
  (Forall (fun c => is_amount_char c = false) text -> amount = None) /\
  (~ In rupee text ->
   (forall before rest, text = before ++ rest ->
      starts_ci (units "total") rest = None /\
      starts_ci (units "amount") rest = None) ->
   amount = None).
Proof.
  cbv zeta. unfold parseReceiptData. cbn [receipt_amount].
  split; [|split].
  - intros n Hn.
    destruct (first_match amountRegexes text) as [captured|] eqn:Hm; [|discriminate].
    injection Hn as <-.
    destruct (first_match_captured amountRegexes text captured (incl_refl _) Hm)
      as (Hne & Hall & Hocc).
    exists captured. repeat split; try assumption.
    unfold remove_commas. apply Forall_forall. intros c Hc.
    apply filter_In in Hc. destruct Hc as [Hc Hcomma].
    rewrite Forall_forall in Hall. specialize (Hall c Hc).
    unfold is_amount_char in Hall.
    apply negb_true_iff, Z.eqb_neq in Hcomma.
    apply orb_true_iff in Hall. destruct Hall as [Hall | Hall].
    + apply orb_true_iff in Hall. destruct Hall as [Hd | Hdot];
        [now left | right; now apply Z.eqb_eq].
    + apply Z.eqb_eq in Hall. contradiction.
  - intros Hnone.
    destruct (first_match amountRegexes text) as [captured|] eqn:Hm; [|reflexivity].
    exfalso.
    destruct (first_match_captured amountRegexes text captured (incl_refl _) Hm)
      as (Hne & Hall & before & post & Htext).
    destruct captured as [|c captured]; [now apply Hne|].
    inversion Hall as [|? ? Hc _]; subst.
    rewrite Forall_forall in Hnone.
    rewrite (Hnone c) in Hc; [discriminate|].
    apply in_or_app. right. now left.
  - intros Hrupee Hlabel.
    assert (H : first_match amountRegexes text = None).
    { unfold amountRegexes. cbn [first_match].
      rewrite regex_search_none.
      2: { intros before rest Hs. now rewrite (proj1 (Hlabel before rest Hs)). }
      rewrite regex_search_none.
      2: { intros before rest Hs. now rewrite (proj2 (Hlabel before rest Hs)). }
      rewrite regex_search_none; [reflexivity|].
      intros before [|c rest] Hs; [reflexivity|].
      destruct (Z.eqb_spec c rupee) as [-> | _]; [|reflexivity].
      exfalso. apply Hrupee. rewrite Hs. apply in_or_app. right. now left. }
    now rewrite H.
Qed.

End AmountProperties.

(** A receipt, parsed. *)
Example parseReceiptData_example :
  parseReceiptData JsString (fun s => s) ascii_lower receipt_text =
    {| receipt_title := units "Cafe Aroma Pune";
       receipt_merchant := units "Cafe Aroma Pune";
       receipt_amount := Some (units "1180.50");
       receipt_category := "Other" |}.
Proof. vm_compute. reflexivity. Qed.

Section MerchantProperties.

Lemma drop_while_head p s :
  match drop_while p s with
  | c :: _ => p c = false
  | [] => True
  end.
Proof.
  induction s as [|c s IH]; [exact I|].
  cbn. destruct (p c) eqn:Hc; [exact IH | exact Hc].
Qed.

Lemma drop_while_forall (q p : Z -> bool) s :
  Forall (fun c => q c = true) s -> Forall (fun c => q c = true) (drop_while p s).
Proof.
  intros H. induction H as [|c s Hc H IH]; [constructor|].
  cbn. destruct (p c); [exact IH | now constructor].
Qed.

Lemma trim_forall (q : Z -> bool) s :
  Forall (fun c => q c = true) s -> Forall (fun c => q c = true) (trim s).
Proof.
  intros H. unfold trim.
  apply Forall_rev, drop_while_forall, Forall_rev, drop_while_forall, H.
Qed.

(** A trimmed string neither starts nor ends with white space. *)
Lemma trim_ends s :
  match trim s with
  | c :: _ => is_whitespace c = false
  | [] => True
  end /\
  match rev (trim s) with
  | c :: _ => is_whitespace c = false
  | [] => True
  end.
Proof.
  unfold trim. rewrite rev_involutive.
  set (y := drop_while is_whitespace s).
  pose proof (drop_while_head is_whitespace s) as Hy. fold y in Hy.
  pose proof (drop_while_head is_whitespace (rev y)) as Hx.
  destruct (drop_while_suffix is_whitespace (rev y)) as [before Hsuf].
  set (x := drop_while is_whitespace (rev y)) in *.
  split; [|exact Hx].
  clearbody x. destruct x as [|c x']; [exact I|].
  assert (Hrev : y = rev (c :: x') ++ rev before).
  { rewrite <- rev_app_distr, <- Hsuf. now rewrite rev_involutive. }
  destruct (rev (c :: x')) as [|d l] eqn:El.
  - apply (f_equal (@List.length Z)) in El. rewrite length_rev in El. discriminate.
  - rewrite Hrev in Hy. exact Hy.
Qed.

Lemma skipn_forall (q : Z -> bool) n s :
  Forall (fun c => q c = true) s -> Forall (fun c => q c = true) (skipn n s).
Proof.
  revert s. induction n as [|n IH]; intros s H; [exact H|].
  destruct H as [|c s Hc H]; [constructor | now apply IH].
Qed.

Lemma replace_ce_be_forall after_word s :
  Forall (fun c => is_alnum_or_space c = true) s ->
  Forall (fun c => is_alnum_or_space c = true) (replace_ce_be after_word s).
Proof.
  intros H. revert after_word. induction H as [|c s Hc H IH]; intros after_word.
  - cbn. destruct after_word; [constructor|]. constructor.
  - cbn [replace_ce_be].
    match goal with
    | |- Forall _ (if ?b then _ else _) => destruct b
    end.
    + apply Forall_app. split.
      * vm_compute. repeat constructor.
      * apply skipn_forall. now constructor.
    + constructor; [exact Hc | apply IH].
Qed.

Lemma filter_forall (q : Z -> bool) s : Forall (fun c => q c = true) (filter q s).
Proof. apply Forall_forall. intros c Hc. apply filter_In in Hc. apply Hc. Qed.

Variable Number : Type.
Variable parseFloat : JsString -> Number.
Variable toLowerCase : JsString -> JsString.

(** X10.  The merchant of a parsed receipt, which is also its title,
    holds only ASCII letters, digits and spaces and neither starts nor
    ends with a space.  It is ["Unknown Merchant"] when no line of the
    text is longer than three code units once trimmed; otherwise it
    comes from the first such line and from no other: two texts with the
    same first such line have the same merchant, whatever their other
    lines.  It is empty when that line holds no letter and no digit. *)
Theorem merchant_of_receipt text :
  let parsed := parseReceiptData Number parseFloat toLowerCase text in
  let merchant := receipt_merchant parsed in
  let long l := 3 <? Z.of_nat (List.length (trim l)) in
  receipt_title parsed = merchant /\
  Forall (fun c => is_alnum_or_space c = true) merchant /\
  match merchant with c :: _ => c <> 32 | [] => True end /\
  match rev merchant with c :: _ => c <> 32 | [] => True end /\
  (Forall (fun l => long l = false) (split_lines text) ->
     merchant = units "Unknown Merchant") /\
  (forall line others,
     filter long (split_lines text) = line :: others ->
     merchant = trim (replace_ce_be false (filter is_alnum_or_space line))) /\
  (forall line others others' text',
     filter long (split_lines text) = line :: others ->
     filter long (split_lines text') = line :: others' ->
     receipt_merchant (parseReceiptData Number parseFloat toLowerCase text') = merchant) /\
  (forall line others,
     filter long (split_lines text) = line :: others ->
     Forall (fun c => is_alnum_or_space c = true -> c = 32) line ->
     merchant = []).
Proof.
  cbv zeta. unfold parseReceiptData. cbn [receipt_title receipt_merchant].
  unfold merchant_of.
  set (long := fun l => 3 <? Z.of_nat (List.length (trim l))).
  split; [reflexivity|].
  assert (Hspace : forall c, is_whitespace c = false -> c <> 32).
  { intros c Hc ->. discriminate. }
  destruct (filter long (split_lines text)) as [|line others] eqn:Hlines.
  - split; [vm_compute; repeat constructor|].
    split; [discriminate|]. split; [discriminate|].
    split; [reflexivity|]. split; [discriminate|].
    split; [discriminate | discriminate].
  - assert (Hline : line <> []).
    { intros ->. assert (Hin : In [] (filter long (split_lines text)))
        by (rewrite Hlines; now left).
      apply filter_In in Hin. destruct Hin as [_ Hl]. discriminate. }
    destruct line as [|c0 line]; [now destruct Hline|].
    set (cleaned := replace_ce_be false (filter is_alnum_or_space (c0 :: line))).
    destruct (trim_ends cleaned) as [Hhd Hlast].
    split.
    { apply trim_forall, replace_ce_be_forall, filter_forall. }
    split. { destruct (trim cleaned); [exact I | now apply Hspace]. }
    split. { destruct (rev (trim cleaned)); [exact I | now apply Hspace]. }
    split.
    { intros Hshort. exfalso.
      assert (Hin : In (c0 :: line) (filter long (split_lines text)))
        by (rewrite Hlines; now left).
      apply filter_In in Hin. destruct Hin as [Hin Hl].
      rewrite Forall_forall in Hshort. specialize (Hshort _ Hin).
      unfold long in Hl, Hshort. cbv beta in Hshort, Hl. congruence. }
    split.
    { intros l o H. injection H as <- <-. reflexivity. }
    split.
    { intros l o o' text' H H'. injection H as <- <-. rewrite H'. reflexivity. }
    intros l o H Hblank. injection H as <- <-.
    assert (Hf : Forall (fun c => c = 32) (filter is_alnum_or_space (c0 :: line))).
    { apply Forall_forall. intros c Hc. apply filter_In in Hc.
      destruct Hc as [Hc Hk]. rewrite Forall_forall in Hblank. now apply Hblank. }
    assert (Hr : forall s, Forall (fun c => c = 32) s -> replace_ce_be false s = s) .
    { intros s Hs. induction Hs as [|c s -> Hs IH]; [reflexivity|].
      cbn [replace_ce_be]. cbn. now rewrite IH. }
    assert (Hd : forall s, Forall (fun c => c = 32) s -> drop_while is_whitespace s = []).
    { intros s Hs. induction Hs as [|c s -> Hs IH]; [reflexivity | exact IH]. }
    unfold cleaned. rewrite (Hr _ Hf). unfold trim. now rewrite (Hd _ Hf).
Qed.

End MerchantProperties.

(** ** The path of the preprocessed image *)

Section OcrPath.

Lemma strip_prefix_ci_sound pat s rest :
  strip_prefix_ci pat s = Some rest ->
  exists pre, s = pre ++ rest /\ map lower_ascii pre = map lower_ascii pat.
Proof.
  revert s. induction pat as [|p pat IH]; intros s H.
  - injection H as <-. now exists [].
  - destruct s as [|c s]; [discriminate|]. cbn in H.
    destruct (Ascii.eqb (lower_ascii c) (lower_ascii p)) eqn:Hc; [|discriminate].
    apply Ascii.eqb_eq in Hc.
    destruct (IH s H) as (pre & -> & Hpre).
    exists (c :: pre). cbn. now rewrite Hc, Hpre.
Qed.

Lemma strip_prefix_ci_complete pat pre rest :
  map lower_ascii pre = map lower_ascii pat ->
  strip_prefix_ci pat (pre ++ rest) = Some rest.
Proof.
  revert pre. induction pat as [|p pat IH]; intros pre H.
  - destruct pre; [reflexivity | discriminate].
  - destruct pre as [|c pre]; [discriminate|].
    injection H as Hc Hpre. cbn. rewrite Hc, Ascii.eqb_refl. now apply IH.
Qed.

Lemma extension_is_lower ext :
  In ext image_extensions ->
  map lower_ascii (list_ascii_of_string ext) = list_ascii_of_string ext /\
  (List.length (list_ascii_of_string ext) < 8)%nat.
Proof.
  intros [<- | [<- | [<- | [<- | []]]]]; split; try reflexivity; cbn; lia.
Qed.

Lemma strip_suffix_ci_sound ext p stem :
  In ext image_extensions ->
  strip_suffix_ci ext p = Some stem ->
  exists suffix,
    list_ascii_of_string p = stem ++ suffix /\
    map lower_ascii suffix = list_ascii_of_string ext.
Proof.
  intros Hext H. unfold strip_suffix_ci in H.
  destruct (strip_prefix_ci _ _) as [rest|] eqn:Hp; [|discriminate].
  injection H as <-.
  destruct (strip_prefix_ci_sound _ _ _ Hp) as (pre & Hrev & Hpre).
  exists (rev pre). split.
  - rewrite <- rev_app_distr, <- Hrev. now rewrite rev_involutive.
  - rewrite map_rev, Hpre, <- map_rev, rev_involutive.
    apply extension_is_lower, Hext.
Qed.

Lemma strip_suffix_ci_complete ext p stem suffix :
  In ext image_extensions ->
  list_ascii_of_string p = stem ++ suffix ->
  map lower_ascii suffix = list_ascii_of_string ext ->
  strip_suffix_ci ext p = Some stem.
Proof.
  intros Hext Hp Hs. unfold strip_suffix_ci.
  rewrite Hp, rev_app_distr, (strip_prefix_ci_complete _ (rev suffix) (rev stem)).
  - cbn. now rewrite rev_involutive.
  - rewrite !map_rev, Hs. f_equal. symmetry. apply extension_is_lower, Hext.
Qed.

Lemma stem_of_sound exts p stem :
  incl exts image_extensions ->
  stem_of exts p = Some stem ->
  exists ext, In ext exts /\ strip_suffix_ci ext p = Some stem.
Proof.
  induction exts as [|ext exts IH]; intros Hincl H; [discriminate|].
  cbn in H. destruct (strip_suffix_ci ext p) as [st|] eqn:Hs.
  - injection H as <-. exists ext. split; [now left | exact Hs].
  - destruct IH as (e & He & Hst); [intros x Hx; apply Hincl; now right | exact H|].
    exists e. split; [now right | exact Hst].
Qed.

Lemma stem_of_none exts p :
  stem_of exts p = None -> forall ext, In ext exts -> strip_suffix_ci ext p = None.
Proof.
  induction exts as [|e exts IH]; intros H ext Hin; [destruct Hin|].
  cbn in H. destruct (strip_suffix_ci e p) eqn:Hs; [discriminate|].
  destruct Hin as [<- | Hin]; [exact Hs | now apply IH].
Qed.

(** X11.  The path [preprocessImage] writes to differs from the path of
    the image exactly when that path ends in [.jpg], [.jpeg], [.png] or
    [.webp], in any mix of cases: it is then the path with that
    extension replaced by [_ocr.png].  For every other path, one ending
    in [.gif] or without extension, the output path is the input path
    itself. *)
Theorem ocr_path_replaces_the_extension p :
  (exists stem suffix ext,
     In ext image_extensions /\
     list_ascii_of_string p = stem ++ suffix /\
     map lower_ascii suffix = list_ascii_of_string ext /\
     ocr_path p = string_of_list_ascii (stem ++ list_ascii_of_string "_ocr.png") /\
     ocr_path p <> p)
  \/
  ((forall stem suffix ext,
      In ext image_extensions ->
      list_ascii_of_string p = stem ++ suffix ->
      map lower_ascii suffix <> list_ascii_of_string ext) /\
   ocr_path p = p).
Proof.
  unfold ocr_path. destruct (stem_of image_extensions p) as [stem|] eqn:Hstem.
  - left. destruct (stem_of_sound _ _ _ (incl_refl _) Hstem) as (ext & Hext & Hs).
    destruct (strip_suffix_ci_sound _ _ _ Hext Hs) as (suffix & Hp & Hsuf).
    exists stem, suffix, ext. repeat split; try assumption.
    intros Heq. apply (f_equal list_ascii_of_string) in Heq.
    rewrite list_ascii_of_string_of_list_ascii, Hp in Heq.
    apply app_inv_head in Heq.
    apply (f_equal (@List.length _)) in Heq.
    apply (f_equal (@List.length _)) in Hsuf. rewrite length_map in Hsuf.
    destruct (extension_is_lower ext Hext) as [_ Hlen].
    rewrite <- Heq in Hsuf. cbn in Hsuf. lia.
  - right. split; [|reflexivity].
    intros stem suffix ext Hext Hp Hsuf.
    pose proof (stem_of_none _ _ Hstem ext Hext) as Hnone.
    rewrite (strip_suffix_ci_complete ext p stem suffix Hext Hp Hsuf) in Hnone.
    discriminate.
Qed.

End OcrPath.

(** Three uploads. *)
Example ocr_path_examples :
  ocr_path "uploads/receipt-17.JPG" = "uploads/receipt-17_ocr.png" /\
  ocr_path "uploads/scan.jpeg" = "uploads/scan_ocr.png" /\
  ocr_path "uploads/receipt-17.gif" = "uploads/receipt-17.gif" /\
  ocr_path "uploads/4f7a9c" = "uploads/4f7a9c".
Proof. repeat split. Qed.

(** ** Running the controller *)

Lemma and_then_normal {E S A B} (m : Act E S A) (k : A -> Act E S B) s a s1 t1 :
  m s = mkRan (Normal a) s1 t1 ->
  and_then m k s =
    mkRan (completion (k a s1)) (final (k a s1)) (t1 ++ trace (k a s1)).
Proof. intros H. unfold and_then. now rewrite H. Qed.

Lemma and_then_throw {E S A B} (m : Act E S A) (k : A -> Act E S B) s e s1 t1 :
  m s = mkRan (Throw e) s1 t1 -> and_then m k s = mkRan (Throw e) s1 t1.
Proof. intros H. unfold and_then. now rewrite H. Qed.

Lemma attempt_normal {E S A} (body : Act E S A) handler s a s1 t1 :
  body s = mkRan (Normal a) s1 t1 -> attempt body handler s = mkRan (Normal a) s1 t1.
Proof. intros H. unfold attempt. now rewrite H. Qed.

Lemma attempt_throw {E S A} (body : Act E S A) handler s e s1 t1 :
  body s = mkRan (Throw e) s1 t1 ->
  attempt body handler s =
    mkRan (completion (handler e s1)) (final (handler e s1)) (t1 ++ trace (handler e s1)).
Proof. intros H. unfold attempt. now rewrite H. Qed.

Lemma ran_eta {E S A} (r : Ran E S A) : r = mkRan (completion r) (final r) (trace r).
Proof. now destruct r. Qed.

Section OcrRuns.

Variable Number : Type.
Variable parseFloat : JsString -> Number.
Variable toLowerCase : JsString -> JsString.
Variable toISOString : Date -> string.
Variable sharp : string -> string -> option JsError.
Variable tesseract : string -> Reply JsString.
Variable unlink_fault : string -> option JsError.

Local Abbreviation preprocess := (preprocessImage Number sharp).
Local Abbreviation extract := (extractTextFromImage Number sharp tesseract unlink_fault).
Local Abbreviation process :=
  (processReceipt Number parseFloat toLowerCase toISOString sharp tesseract
                  unlink_fault).

Lemma preprocessImage_run p s :
  preprocess p s =
    match sharp p (ocr_path p) with
    | None =>
        mkRan (Normal (ocr_path p))
              (set_files (add_file (ocr_path p) (files s)) s)
              [SharpToFile p (ocr_path p)]
    | Some e =>
        mkRan (Normal p) s
              [SharpToFile p (ocr_path p);
               OcrConsoleError (SharpFailed (message e))]
    end.
Proof.
  unfold preprocessImage, attempt, and_then, sharp_toFile.
  destruct (sharp p (ocr_path p)); reflexivity.
Qed.

Lemma initWorker_run s :
  initWorker Number s =
    if worker s then mkRan (Normal tt) s []
    else mkRan (Normal tt) (set_worker true s)
           [OcrConsoleLog InitializingWorker; CreateWorker; OcrConsoleLog WorkerReady].
Proof. unfold initWorker. destruct (worker s); reflexivity. Qed.

Lemma remove_file_absent file l :
  existsb (String.eqb file) l = false -> remove_file file l = l.
Proof.
  unfold remove_file. induction l as [|f l IH]; [reflexivity|].
  cbn. destruct (String.eqb file f); [discriminate|].
  intros H. cbn. now rewrite IH.
Qed.

Lemma set_files_same s : set_files (files s) s = s.
Proof. now destruct s. Qed.

(** [fs.unlink(file).catch(() => {})], run: the file is gone unless the
    system refuses. *)
Lemma unlink_quietly_run file s :
  catch_ignore Number (fs_unlink Number unlink_fault file) s =
    mkRan (Normal tt)
          (match unlink_fault file with
           | Some _ => s
           | None => set_files (remove_file file (files s)) s
           end)
          [Unlink file].
Proof.
  unfold catch_ignore, attempt, fs_unlink.
  destruct (unlink_fault file); [reflexivity|].
  destruct (existsb (String.eqb file) (files s)) eqn:Hex; [reflexivity|].
  cbn. now rewrite remove_file_absent, set_files_same.
Qed.

Lemma recognize_run image s :
  recognize Number tesseract image s =
    mkRan (match tesseract image with
           | Resolves text => Normal text
           | Rejects e => Throw e
           end) s [Recognize image].
Proof. unfold recognize. destruct (tesseract image); reflexivity. Qed.

(** [extractTextFromImage] from the call of [initWorker] on. *)
Lemma extract_tail_run processed p s1 :
  let s2 := if worker s1 then s1 else set_worker true s1 in
  let t2 := if worker s1 then []
            else [OcrConsoleLog InitializingWorker; CreateWorker;
                  OcrConsoleLog WorkerReady] in
  and_then (initWorker Number)
    (fun _ =>
       and_then (recognize Number tesseract processed)
         (fun text =>
            and_then
              (if negb (String.eqb processed p)
               then catch_ignore Number (fs_unlink Number unlink_fault processed)
               else pure tt)
              (fun _ => pure (trim text)))) s1 =
    match tesseract processed with
    | Rejects e => mkRan (Throw e) s2 (t2 ++ [Recognize processed])
    | Resolves text =>
        if String.eqb processed p
        then mkRan (Normal (trim text)) s2 (t2 ++ [Recognize processed])
        else mkRan (Normal (trim text))
               (match unlink_fault processed with
                | Some _ => s2
                | None => set_files (remove_file processed (files s2)) s2
                end)
               (t2 ++ [Recognize processed; Unlink processed])
    end.
Proof.
  cbv zeta.
  assert (Hafter : forall s2 t2,
    initWorker Number s1 = mkRan (Normal tt) s2 t2 ->
    and_then (initWorker Number)
      (fun _ =>
         and_then (recognize Number tesseract processed)
           (fun text =>
              and_then
                (if negb (String.eqb processed p)
                 then catch_ignore Number (fs_unlink Number unlink_fault processed)
                 else pure tt)
                (fun _ => pure (trim text)))) s1 =
      match tesseract processed with
      | Rejects e => mkRan (Throw e) s2 (t2 ++ [Recognize processed])
      | Resolves text =>
          if String.eqb processed p
          then mkRan (Normal (trim text)) s2 (t2 ++ [Recognize processed])
          else mkRan (Normal (trim text))
                 (match unlink_fault processed with
                  | Some _ => s2
                  | None => set_files (remove_file processed (files s2)) s2
                  end)
                 (t2 ++ [Recognize processed; Unlink processed])
      end).
  { intros s2 t2 Hinit.
    rewrite (and_then_normal _ _ _ _ _ _ Hinit). cbv beta.
    pose proof (recognize_run processed s2) as Hrec.
    destruct (tesseract processed) as [text|e].
    - rewrite (and_then_normal _ _ _ _ _ _ Hrec). cbv beta.
      destruct (String.eqb processed p); cbn [negb].
      + reflexivity.
      + rewrite (and_then_normal _ _ _ _ _ _ (unlink_quietly_run processed s2)).
        reflexivity.
    - rewrite (and_then_throw _ _ _ _ _ _ Hrec). reflexivity. }
  pose proof (initWorker_run s1) as Hinit.
  destruct (worker s1); now apply Hafter.
Qed.

(** [extractTextFromImage], run. *)
Lemma extractTextFromImage_run p s :
  let out := ocr_path p in
  let processed := match sharp p out with None => out | Some _ => p end in
  let s1 := match sharp p out with
            | None => set_files (add_file out (files s)) s
            | Some _ => s
            end in
  let t1 := match sharp p out with
            | None => [SharpToFile p out]
            | Some e => [SharpToFile p out; OcrConsoleError (SharpFailed (message e))]
            end in
  let s2 := if worker s then s1 else set_worker true s1 in
  let t2 := if worker s then []
            else [OcrConsoleLog InitializingWorker; CreateWorker;
                  OcrConsoleLog WorkerReady] in
  extract p s =
    match tesseract processed with
    | Rejects e => mkRan (Throw e) s2 (t1 ++ t2 ++ [Recognize processed])
    | Resolves text =>
        if String.eqb processed p
        then mkRan (Normal (trim text)) s2 (t1 ++ t2 ++ [Recognize processed])
        else mkRan (Normal (trim text))
               (match unlink_fault processed with
                | Some _ => s2
                | None => set_files (remove_file processed (files s2)) s2
                end)
               (t1 ++ t2 ++ [Recognize processed; Unlink processed])
    end.
Proof.
  cbv zeta. unfold extractTextFromImage.
  pose proof (preprocessImage_run p s) as Hpre.
  destruct (sharp p (ocr_path p)) as [err|];
    rewrite (and_then_normal _ _ _ _ _ _ Hpre); cbv beta;
    rewrite extract_tail_run; cbv zeta; cbn [worker set_files];
    destruct (tesseract _); [destruct (String.eqb _ p)| | destruct (String.eqb _ p)|];
    reflexivity.
Qed.

Lemma and_then_run {A B} (m : Act (OcrEvent Number) Server A)
      (k : A -> Act (OcrEvent Number) Server B) s :
  and_then m k s =
    match completion (m s) with
    | Normal a =>
        mkRan (completion (k a (final (m s)))) (final (k a (final (m s))))
              (trace (m s) ++ trace (k a (final (m s))))
    | Throw e => mkRan (Throw e) (final (m s)) (trace (m s))
    end.
Proof. reflexivity. Qed.

(** [processReceipt] on an uploaded file, run, from the outcome of
    [extractTextFromImage]. *)
Lemma processReceipt_run f s :
  process (Some f) s =
    match completion (extract (path f) s) with
    | Throw e =>
        mkRan (Normal tt) (final (extract (path f) s))
          (OcrConsoleLog (OcrHit (filename f)) :: trace (extract (path f) s) ++
           [OcrConsoleError (OcrFailed e);
            Respond 500
              (Failure (match message e with
                        | EmptyString => "OCR processing failed"
                        | m => m
                        end))])
    | Normal text =>
        mkRan (Normal tt)
          (match unlink_fault (path f) with
           | Some _ => final (extract (path f) s)
           | None =>
               set_files (remove_file (path f) (files (final (extract (path f) s))))
                         (final (extract (path f) s))
           end)
          (OcrConsoleLog (OcrHit (filename f)) :: trace (extract (path f) s) ++
           [Unlink (path f);
            if Z.of_nat (List.length text) <? 20
            then Respond 400 (Failure "OCR failed. Please upload a clearer image.")
            else Respond 200
                   (Parsed (parseReceiptData Number parseFloat toLowerCase text)
                           text 90 []
                           (before_T (toISOString (today (final (extract (path f) s))))))])
    end.
Proof.
  unfold processReceipt, attempt. cbv zeta.
  rewrite (and_then_normal _ _ _ _ _ _
             (eq_refl : tell (OcrConsoleLog (OcrHit (filename f))) s = mkRan (Normal tt) s _)).
  cbv beta.
  rewrite (and_then_run (extract (path f)) _ s).
  destruct (completion (extract (path f) s)) as [text|e]; [|reflexivity].
  rewrite (and_then_normal _ _ _ _ _ _ (unlink_quietly_run _ _)). cbv beta.
  destruct text as [|c text]; [destruct (unlink_fault (path f)); reflexivity|].
  change (match c :: text with [] => true | _ :: _ => false end) with false.
  cbn [orb].
  destruct (Z.of_nat (List.length (c :: text)) <? 20);
    destruct (unlink_fault (path f)); reflexivity.
Qed.

(** *** What [extractTextFromImage] leaves behind *)

Lemma extract_completion p s :
  completion (extract p s) =
    match tesseract (image_read sharp p) with
    | Resolves text => Normal (trim text)
    | Rejects e => Throw e
    end.
Proof.
  rewrite extractTextFromImage_run. cbv zeta. unfold image_read.
  destruct (sharp p (ocr_path p)); destruct (tesseract _);
    try destruct (String.eqb _ p); reflexivity.
Qed.

Lemma extract_never_responds p s :
  existsb is_response (trace (extract p s)) = false.
Proof.
  rewrite extractTextFromImage_run. cbv zeta.
  destruct (sharp p (ocr_path p)); destruct (worker s); destruct (tesseract _);
    try destruct (String.eqb _ p); reflexivity.
Qed.

Lemma extract_today p s : today (final (extract p s)) = today s.
Proof.
  rewrite extractTextFromImage_run. cbv zeta.
  destruct (sharp p (ocr_path p)); destruct (worker s); destruct (tesseract _);
    try destruct (String.eqb _ p); try destruct (unlink_fault _); reflexivity.
Qed.

Lemma extract_worker p s : worker (final (extract p s)) = true.
Proof.
  rewrite extractTextFromImage_run. cbv zeta.
  destruct (sharp p (ocr_path p)); destruct (worker s) eqn:Hw; destruct (tesseract _);
    try destruct (String.eqb _ p); try destruct (unlink_fault _);
    cbn [final worker set_worker set_files]; auto.
Qed.

Lemma extract_createWorker p s :
  filter is_createWorker (trace (extract p s)) =
    if worker s then [] else [CreateWorker].
Proof.
  rewrite extractTextFromImage_run. cbv zeta.
  destruct (sharp p (ocr_path p)); destruct (worker s); destruct (tesseract _);
    try destruct (String.eqb _ p); reflexivity.
Qed.

Lemma extract_unlinked p s :
  flat_map unlinked (trace (extract p s)) =
    match tesseract (image_read sharp p) with
    | Resolves _ =>
        if String.eqb (image_read sharp p) p then [] else [image_read sharp p]
    | Rejects _ => []
    end.
Proof.
  rewrite extractTextFromImage_run. cbv zeta. unfold image_read.
  destruct (sharp p (ocr_path p)); destruct (worker s); destruct (tesseract _);
    try destruct (String.eqb _ p); reflexivity.
Qed.

Lemma In_remove_file g file l :
  In g (remove_file file l) <-> In g l /\ g <> file.
Proof.
  unfold remove_file. rewrite filter_In.
  destruct (String.eqb_spec file g) as [->|Hne]; cbn; intuition congruence.
Qed.

Lemma In_add_file g file l : In g (add_file file l) <-> g = file \/ In g l.
Proof.
  unfold add_file. destruct (existsb (String.eqb file) l) eqn:Hex.
  - split; [auto|]. intros [->|H]; [|exact H].
    apply existsb_exists in Hex. destruct Hex as [x [Hx Heq]].
    apply String.eqb_eq in Heq. now subst.
  - cbn. intuition congruence.
Qed.

(** The files on disk after [extractTextFromImage]. *)
Lemma extract_files p s g :
  In g (files (final (extract p s))) <->
  match tesseract (image_read sharp p) with
  | Resolves _ =>
      if String.eqb (image_read sharp p) p
      then In g (files s) \/ (sharp p (ocr_path p) = None /\ g = ocr_path p)
      else match unlink_fault (ocr_path p) with
           | None => In g (files s) /\ g <> ocr_path p
           | Some _ => In g (files s) \/ g = ocr_path p
           end
  | Rejects _ => In g (files s) \/ (sharp p (ocr_path p) = None /\ g = ocr_path p)
  end.
Proof.
  rewrite extractTextFromImage_run. cbv zeta. unfold image_read.
  destruct (sharp p (ocr_path p)) as [err|] eqn:Hsharp.
  - assert (Hfiles : forall b : bool,
              files (if b then s else set_worker true s) = files s)
      by (now intros []).
    rewrite String.eqb_refl.
    destruct (tesseract p); cbn [final]; rewrite Hfiles;
      split; auto; intros [H|[H _]]; auto; discriminate.
  - assert (Hfiles : forall b : bool,
              files (if b then set_files (add_file (ocr_path p) (files s)) s
                     else set_worker true (set_files (add_file (ocr_path p) (files s)) s))
              = add_file (ocr_path p) (files s))
      by (now intros []).
    destruct (tesseract (ocr_path p)).
    + destruct (String.eqb (ocr_path p) p).
      * cbn [final]. rewrite Hfiles, In_add_file. intuition.
      * destruct (unlink_fault (ocr_path p)); cbn [final files set_files];
          rewrite ?In_remove_file, Hfiles, In_add_file; intuition.
    + cbn [final]. rewrite Hfiles, In_add_file. intuition.
Qed.

(** X12.  [extractTextFromImage] fails exactly when Tesseract rejects the
    image it is given, the preprocessed copy or, when sharp fails, the
    upload itself: a failure of sharp or of the removal of the copy never
    reaches the caller.  Its result is Tesseract's text without white
    space at either end.  It creates the worker if there was none, and
    never removes the file it was asked to read. *)
Theorem extractTextFromImage_result p s :
  completion (extract p s) =
    match tesseract (image_read sharp p) with
    | Resolves text => Normal (trim text)
    | Rejects e => Throw e
    end /\
  (forall text, completion (extract p s) = Normal text ->
     match text with c :: _ => is_whitespace c = false | [] => True end /\
     match rev text with c :: _ => is_whitespace c = false | [] => True end) /\
  worker (final (extract p s)) = true /\
  ~ In p (flat_map unlinked (trace (extract p s))).
Proof.
  split; [apply extract_completion|].
  split; [|split; [apply extract_worker|]].
  - intros text. rewrite extract_completion.
    destruct (tesseract _) as [t|]; [|discriminate].
    intros [= <-]. apply trim_ends.
  - rewrite extract_unlinked.
    destruct (tesseract _); [|auto].
    destruct (String.eqb_spec (image_read sharp p) p) as [|Hne]; [auto|].
    intros [H|[]]. now apply Hne.
Qed.

(** *** What [processReceipt] answers *)

(** X13.  [processReceipt] never throws, whatever sharp, Tesseract and
    the file system do, and it answers every request exactly once, as the
    last thing it does. *)
Theorem processReceipt_answers_once file s :
  completion (process file s) = Normal tt /\
  exists before status body,
    trace (process file s) = before ++ [Respond status body] /\
    existsb is_response before = false.
Proof.
  destruct file as [f|].
  - rewrite processReceipt_run.
    pose proof (extract_never_responds (path f) s) as Hquiet.
    destruct (completion (extract (path f) s)) as [text|e]; cbn [completion trace].
    + split; [reflexivity|].
      exists (OcrConsoleLog (OcrHit (filename f)) :: trace (extract (path f) s)
              ++ [Unlink (path f)]).
      destruct (Z.of_nat (List.length text) <? 20); do 2 eexists;
        (split; [cbn [app]; rewrite <- app_assoc; reflexivity|]);
        cbn [existsb is_response orb]; rewrite existsb_app, Hquiet; reflexivity.
    + split; [reflexivity|].
      exists (OcrConsoleLog (OcrHit (filename f)) :: trace (extract (path f) s)
              ++ [OcrConsoleError (OcrFailed e)]).
      do 2 eexists.
      split; [cbn [app]; rewrite <- app_assoc; reflexivity|].
      cbn [existsb is_response orb]. rewrite existsb_app, Hquiet. reflexivity.
  - split; [reflexivity|].
    exists [], 400, (Failure "No image uploaded"). split; reflexivity.
Qed.

Lemma In_quiet_trace status body (tr : list (OcrEvent Number)) :
  existsb is_response tr = false -> ~ In (Respond status body) tr.
Proof.
  intros Hquiet Hin.
  assert (existsb is_response tr = true) as Hex
    by (apply existsb_exists; eexists; split; [exact Hin|reflexivity]).
  congruence.
Qed.

(** X14.  The answer of [processReceipt]: 400 without a file; 500 with
    the error's message, or a default one when it is empty, exactly when
    Tesseract rejects the image it is given; 400 when the trimmed text has
    fewer than 20 code units; else 200 with the fields parsed from the
    trimmed text, the text itself, a confidence of 90, no items and the
    day of the clock.  A failure of sharp or of [fs.unlink] changes
    nothing in the answer. *)
Theorem processReceipt_response file s status body :
  In (Respond status body) (trace (process file s)) <->
  Respond status body =
    match file with
    | None => Respond 400 (Failure "No image uploaded")
    | Some f =>
        match tesseract (image_read sharp (path f)) with
        | Rejects e => Respond 500 (Failure (message_or_default e))
        | Resolves raw =>
            let text := trim raw in
            if Z.of_nat (List.length text) <? 20
            then Respond 400 (Failure "OCR failed. Please upload a clearer image.")
            else Respond 200
                   (Parsed (parseReceiptData Number parseFloat toLowerCase text)
                           text 90 [] (before_T (toISOString (today s))))
        end
    end.
Proof.
  destruct file as [f|].
  - rewrite processReceipt_run, extract_today, extract_completion.
    pose proof (In_quiet_trace status body _ (extract_never_responds (path f) s))
      as Hquiet.
    cbv zeta. unfold message_or_default.
    destruct (tesseract _) as [raw|e]; cbn [trace].
    + split.
      * intros [H|H]; [discriminate|].
        apply in_app_or in H. destruct H as [H|[H|[H|[]]]];
          [contradiction|discriminate|now symmetry].
      * intros ->. right. apply in_or_app. right. right. now left.
    + split.
      * intros [H|H]; [discriminate|].
        apply in_app_or in H. destruct H as [H|[H|[H|[]]]];
          [contradiction|discriminate|now symmetry].
      * intros ->. right. apply in_or_app. right. right. now left.
  - cbn. split; [intros [H|[]]; now symmetry|intros ->; now left].
Qed.

(** *** What [processReceipt] leaves on the disk *)

Lemma process_files_resolved f s g text :
  completion (extract (path f) s) = Normal text ->
  In g (files (final (process (Some f) s))) <->
  match unlink_fault (path f) with
  | None => In g (files (final (extract (path f) s))) /\ g <> path f
  | Some _ => In g (files (final (extract (path f) s)))
  end.
Proof.
  intros Hc. rewrite processReceipt_run, Hc. cbn [final].
  destruct (unlink_fault (path f)); [reflexivity|].
  cbn [files set_files]. apply In_remove_file.
Qed.

(** X15.  When Tesseract reads the image and the file system refuses no
    removal, [processReceipt] leaves nothing behind: the disk holds the
    files it held before, without the upload and, if sharp wrote it,
    without the preprocessed copy. *)
Theorem processReceipt_removes_its_files f s raw :
  tesseract (image_read sharp (path f)) = Resolves raw ->
  unlink_fault (path f) = None ->
  unlink_fault (ocr_path (path f)) = None ->
  forall g,
    In g (files (final (process (Some f) s))) <->
    In g (files s) /\ g <> path f /\
    (sharp (path f) (ocr_path (path f)) = None -> g <> ocr_path (path f)).
Proof.
  intros Hread Hupload Hcopy g.
  pose proof (extract_completion (path f) s) as Hc. rewrite Hread in Hc.
  rewrite (process_files_resolved f s g _ Hc), Hupload.
  rewrite extract_files, Hread, Hcopy.
  unfold image_read.
  destruct (sharp (path f) (ocr_path (path f))) as [err|] eqn:Hsharp.
  - rewrite String.eqb_refl. intuition congruence.
  - destruct (String.eqb_spec (ocr_path (path f)) (path f)) as [Heq|Hne].
    + rewrite Heq. intuition congruence.
    + intuition congruence.
Qed.

(** X16.  When Tesseract rejects the image, [processReceipt] removes no
    file at all: the upload stays on the disk and so does the
    preprocessed copy, if sharp wrote one. *)
Theorem processReceipt_failure_leaves_files f s e :
  tesseract (image_read sharp (path f)) = Rejects e ->
  flat_map unlinked (trace (process (Some f) s)) = [] /\
  forall g,
    In g (files (final (process (Some f) s))) <->
    In g (files s) \/
    (sharp (path f) (ocr_path (path f)) = None /\ g = ocr_path (path f)).
Proof.
  intros Hread.
  pose proof (extract_completion (path f) s) as Hc. rewrite Hread in Hc.
  pose proof (extract_unlinked (path f) s) as Hun. rewrite Hread in Hun.
  split.
  - rewrite processReceipt_run, Hc. cbn [trace flat_map unlinked app].
    rewrite flat_map_app, Hun. reflexivity.
  - intros g. rewrite processReceipt_run, Hc. cbn [final].
    rewrite extract_files, Hread. reflexivity.
Qed.

(** X17.  The OCR worker is created at most once: by the first request
    that carries a file, and by no request once [worker] is set; no
    request resets it. *)
Theorem worker_is_created_once file s :
  filter is_createWorker (trace (process file s)) =
    (if has_file file && negb (worker s) then [CreateWorker] else []) /\
  worker (final (process file s)) = has_file file || worker s.
Proof.
  destruct file as [f|]; [|split; reflexivity].
  rewrite processReceipt_run.
  pose proof (extract_createWorker (path f) s) as Hcreate.
  pose proof (extract_worker (path f) s) as Hworker.
  cbn [has_file andb orb].
  destruct (completion (extract (path f) s)) as [text|e]; cbn [trace final].
  - split.
    + cbn [filter is_createWorker]. rewrite filter_app, Hcreate.
      destruct (Z.of_nat (List.length text) <? 20); destruct (worker s); reflexivity.
    + destruct (unlink_fault (path f)); exact Hworker.
  - split; [|exact Hworker].
    cbn [filter is_createWorker]. rewrite filter_app, Hcreate.
    destruct (worker s); reflexivity.
Qed.

End OcrRuns.

(** A request served from upload to answer. *)
Example processReceipt_example :
  processReceipt_on sharp_up tesseract_reads (Some receipt_upload) disk =
    mkRan (Normal tt)
      {| today := T; files := ["uploads/keep.txt"]; worker := true |}
      [OcrConsoleLog (OcrHit "r1.jpg");
       SharpToFile "uploads/r1.jpg" "uploads/r1_ocr.png";
       OcrConsoleLog InitializingWorker; CreateWorker; OcrConsoleLog WorkerReady;
       Recognize "uploads/r1_ocr.png";
       Unlink "uploads/r1_ocr.png";
       Unlink "uploads/r1.jpg";
       Respond 200
         (Parsed {| receipt_title := units "Cafe Aroma Pune";
                    receipt_merchant := units "Cafe Aroma Pune";
                    receipt_amount := Some (units "1180.50");
                    receipt_category := "Other" |}
                 (trim receipt_text) 90 [] "2023-11-14")].
Proof. vm_compute. reflexivity. Qed.

Lemma processReceipt_removes_its_files_witness :
  tesseract_reads (image_read sharp_up (path receipt_upload)) = Resolves receipt_text /\
  unlink_up (path receipt_upload) = None /\
  unlink_up (ocr_path (path receipt_upload)) = None /\
  forall g,
    In g (files (final (processReceipt_on sharp_up tesseract_reads
                          (Some receipt_upload) disk))) <->
    In g (files disk) /\ g <> path receipt_upload /\
    (sharp_up (path receipt_upload) (ocr_path (path receipt_upload)) = None ->
     g <> ocr_path (path receipt_upload)).
Proof.
  split; [reflexivity|]. split; [reflexivity|]. split; [reflexivity|].
  apply (processReceipt_removes_its_files JsString (fun s => s) ascii_lower iso_T
           sharp_up tesseract_reads unlink_up receipt_upload disk receipt_text);
    reflexivity.
Defined.

Lemma processReceipt_failure_leaves_files_witness :
  tesseract_down (image_read sharp_up (path receipt_upload)) =
    Rejects {| message := "Worker terminated" |} /\
  flat_map unlinked
    (trace (processReceipt_on sharp_up tesseract_down (Some receipt_upload) disk)) = [] /\
  forall g,
    In g (files (final (processReceipt_on sharp_up tesseract_down
                          (Some receipt_upload) disk))) <->
    In g (files disk) \/
    (sharp_up (path receipt_upload) (ocr_path (path receipt_upload)) = None /\
     g = ocr_path (path receipt_upload)).
Proof.
  split; [reflexivity|].
  apply (processReceipt_failure_leaves_files JsString (fun s => s) ascii_lower iso_T
           sharp_up tesseract_down unlink_up receipt_upload disk
           {| message := "Worker terminated" |}).
  reflexivity.
Defined.

(** ** The financial advisor's controller *)

Lemma and_then_eq {E S A B} (m : Act E S A) (k : A -> Act E S B) s r :
  m s = r ->
  and_then m k s =
    match completion r with
    | Normal a =>
        mkRan (completion (k a (final r))) (final (k a (final r)))
              (trace r ++ trace (k a (final r)))
    | Throw e => mkRan (Throw e) (final r) (trace r)
    end.
Proof. intros <-. reflexivity. Qed.

(** One step of a sequence whose first action is a call of the controller. *)
Ltac advisor_step :=
  match goal with
  | |- context [and_then ?m ?k ?s] =>
      let r := eval cbv beta iota delta
                 [Advisor.find Advisor.reading Advisor.destructure Advisor.call_engine pure raise] in (m s) in
      rewrite (and_then_eq m k s r eq_refl);
      cbn [completion final trace]; cbv beta
  end.

Section AdvisorProperties.

Variables Question ExpenseDoc IncomeDoc Number Holding Advice : Type.
Variable plus : Number -> Number -> Number.
Variable zero : Number.
Variable expense_user : ExpenseDoc -> ObjectId.
Variable expense_date : ExpenseDoc -> option Date.
Variable income_user : IncomeDoc -> ObjectId.
Variable income_amount : IncomeDoc -> Number.
Variable holding_user : Holding -> ObjectId.
Variable LocalTZA : Z -> bool -> Z.
Variable find_fault : Advisor.Collection -> option JsError.
Variable advisorEngine :
  Advisor.Input Question ExpenseDoc Number Holding -> Reply Advice.

Local Abbreviation advise :=
  (Advisor.getFinancialAdvice plus zero expense_user expense_date income_user
     income_amount holding_user LocalTZA find_fault advisorEngine).
Local Abbreviation gathered :=
  (Advisor.gathered plus zero expense_user expense_date income_user income_amount
     holding_user LocalTZA).
Local Abbreviation Call := (Advisor.Call Question ExpenseDoc Number Holding Advice).
Local Abbreviation Store := (Advisor.Store ExpenseDoc IncomeDoc Holding).

(** A request that fails with [e] after the calls [calls]. *)
Local Abbreviation failed calls e s :=
  (mkRan (Normal tt) s
     (calls ++ [Advisor.ConsoleError e; Advisor.Respond 500 Advisor.apology])
   : Ran Call Store unit).

(** [getFinancialAdvice], run. *)
Lemma getFinancialAdvice_run req s :
  advise req s =
    match Advisor.user req with
    | None => failed [] (TypeError_reading "_id") s
    | Some userId =>
    match Advisor.body req with
    | None => failed [] Advisor.cannot_destructure s
    | Some q =>
    match find_fault Advisor.Expenses with
    | Some e => failed [Advisor.Find Advisor.Expenses] e s
    | None =>
    match find_fault Advisor.Incomes with
    | Some e => failed [Advisor.Find Advisor.Expenses; Advisor.Find Advisor.Incomes] e s
    | None =>
    match find_fault Advisor.Portfolios with
    | Some e =>
        failed [Advisor.Find Advisor.Expenses; Advisor.Find Advisor.Incomes;
                Advisor.Find Advisor.Portfolios] e s
    | None =>
    match advisorEngine (gathered userId q s) with
    | Rejects e =>
        failed [Advisor.Find Advisor.Expenses; Advisor.Find Advisor.Incomes;
                Advisor.Find Advisor.Portfolios;
                Advisor.Engine (gathered userId q s)] e s
    | Resolves advice =>
        mkRan (Normal tt) s
          [Advisor.Find Advisor.Expenses; Advisor.Find Advisor.Incomes;
           Advisor.Find Advisor.Portfolios;
           Advisor.Engine (gathered userId q s);
           Advisor.Respond 200
             (Advisor.Advised advice (Advisor.stats_of (gathered userId q s)))]
    end end end end end end.
Proof.
  unfold Advisor.getFinancialAdvice, attempt. cbv zeta.
  destruct (Advisor.user req) as [userId|]; [|reflexivity].
  advisor_step.
  destruct (Advisor.body req) as [q|]; [|reflexivity].
  advisor_step. advisor_step.
  advisor_step. destruct (find_fault Advisor.Expenses); [reflexivity|].
  cbn [completion final trace]. cbv beta.
  advisor_step. destruct (find_fault Advisor.Incomes); [reflexivity|].
  cbn [completion final trace]. cbv beta.
  advisor_step. destruct (find_fault Advisor.Portfolios); [reflexivity|].
  cbn [completion final trace]. cbv beta.
  advisor_step.
  change (advisorEngine _) with (advisorEngine (gathered userId q s)).
  destruct (advisorEngine (gathered userId q s)); reflexivity.
Qed.

(** X18.  [getFinancialAdvice] never throws and answers every request
    exactly once, as the last thing it does; it changes nothing in the
    collections. *)
Theorem getFinancialAdvice_answers_once req s :
  completion (advise req s) = Normal tt /\
  final (advise req s) = s /\
  exists before status body,
    trace (advise req s) = before ++ [Advisor.Respond status body] /\
    existsb Advisor.is_response before = false.
Proof.
  rewrite getFinancialAdvice_run.
  destruct (Advisor.user req); [destruct (Advisor.body req)|];
    [destruct (find_fault Advisor.Expenses); [|
     destruct (find_fault Advisor.Incomes); [|
     destruct (find_fault Advisor.Portfolios); [|
     destruct (advisorEngine _)]]]| |];
    (split; [reflexivity|]; split; [reflexivity|]);
    match goal with
    | |- exists before _ _, trace ?r = _ /\ _ =>
        exists (removelast (trace r)); do 2 eexists; split; reflexivity
    end.
Qed.

(** What [gathered] holds: the user's own expenses dated at the cut-off
    or later, the sum of the user's incomes of any date, the user's own
    holdings. *)
Lemma gathered_own userId (q : Question) s :
  Advisor.question (gathered userId q s) = q /\
  (forall d,
     In d (Advisor.expenses (gathered userId q s)) <->
     In d (Advisor.Expense s) /\ expense_user d = userId /\
     exists date, expense_date d = Some date /\ days_before LocalTZA (Advisor.now s) 90 <= date) /\
  Advisor.income (gathered userId q s) =
    Advisor.total plus zero income_amount
      (filter (fun i => String.eqb (income_user i) userId) (Advisor.Income s)) /\
  (forall h,
     In h (Advisor.portfolio (gathered userId q s)) <->
     In h (Advisor.Portfolio s) /\ holding_user h = userId).
Proof.
  split; [reflexivity|]. split; [|split; [reflexivity|]].
  - intros d. cbn [Advisor.gathered Advisor.expenses]. rewrite filter_In.
    unfold Advisor.recent_expense_of. rewrite andb_true_iff, String.eqb_eq.
    destruct (expense_date d) as [date|].
    + rewrite Z.leb_le. split.
      * intros [Hin [Hu Hd]]. eauto.
      * intros [Hin [Hu [date' [[= <-] Hd]]]]. auto.
    + split.
      * intros [_ [_ H]]. discriminate.
      * intros [_ [_ [date' [H _]]]]. discriminate.
  - intros h. cbn [Advisor.gathered Advisor.portfolio].
    now rewrite filter_In, String.eqb_eq.
Qed.

(** X19.  The advisor engine is called at most once, only after all three
    queries went through, and only with the data of the user who asks:
    the user's own expenses dated at the cut-off or later, expenses
    dated in the future among them, the sum of the user's incomes of any
    date, and the user's own holdings.  The cut-off is the same
    wall-clock time ninety calendar days before the request in the time
    zone of the process; an expense without a date is left out. *)
Theorem advisor_engine_gets_the_users_own_data req s input :
  In input (flat_map Advisor.engine_inputs (trace (advise req s))) ->
  flat_map Advisor.engine_inputs (trace (advise req s)) = [input] /\
  (forall c, find_fault c = None) /\
  exists userId,
    Advisor.user req = Some userId /\
    Advisor.body req = Some (Advisor.question input) /\
    (forall d,
       In d (Advisor.expenses input) <->
       In d (Advisor.Expense s) /\ expense_user d = userId /\
       exists date,
         expense_date d = Some date /\ days_before LocalTZA (Advisor.now s) 90 <= date) /\
    Advisor.income input =
      Advisor.total plus zero income_amount
        (filter (fun i => String.eqb (income_user i) userId) (Advisor.Income s)) /\
    (forall h,
       In h (Advisor.portfolio input) <->
       In h (Advisor.Portfolio s) /\ holding_user h = userId).
Proof.
  rewrite getFinancialAdvice_run.
  destruct (Advisor.user req) as [userId|]; [|intros []].
  destruct (Advisor.body req) as [q|]; [|intros []].
  destruct (find_fault Advisor.Expenses) eqn:HE; [intros []|].
  destruct (find_fault Advisor.Incomes) eqn:HI; [intros []|].
  destruct (find_fault Advisor.Portfolios) eqn:HP; [intros []|].
  assert (Hcalled : forall c, find_fault c = None) by (now intros []).
  destruct (gathered_own userId q s) as [Hq [Hexp [Hinc Hport]]].
  destruct (advisorEngine (gathered userId q s));
    (intros [<-|[]]; split; [reflexivity|]; split; [exact Hcalled|];
     exists userId; rewrite Hq; auto).
Qed.

(** X20.  The answer of [getFinancialAdvice]: 200 with the engine's advice
    and the counts and the sum of what the engine was given, when the
    request has a user and a body, the three queries go through and the
    engine returns; in every other case 500 with one fixed text, which
    carries nothing of the error. *)
Theorem getFinancialAdvice_response req s status body :
  In (Advisor.Respond status body) (trace (advise req s)) <->
  Advisor.Respond (Question := Question) (ExpenseDoc := ExpenseDoc)
                  (Holding := Holding) status body =
    match Advisor.user req, Advisor.body req with
    | Some userId, Some q =>
        if Advisor.queries_succeed find_fault
        then match advisorEngine (gathered userId q s) with
             | Resolves advice =>
                 Advisor.Respond 200
                   (Advisor.Advised advice (Advisor.stats_of (gathered userId q s)))
             | Rejects _ => Advisor.Respond 500 Advisor.apology
             end
        else Advisor.Respond 500 Advisor.apology
    | _, _ => Advisor.Respond 500 Advisor.apology
    end.
Proof.
  rewrite getFinancialAdvice_run. unfold Advisor.queries_succeed.
  destruct (Advisor.user req); [destruct (Advisor.body req)|];
    [destruct (find_fault Advisor.Expenses); [|
     destruct (find_fault Advisor.Incomes); [|
     destruct (find_fault Advisor.Portfolios); [|
     destruct (advisorEngine _)]]]| |];
    cbn [trace app In];
    (split;
     [intros H;
      repeat (destruct H as [H|H]; [try discriminate H; now symmetry|]);
      destruct H
     |intros ->; auto 10]).
Qed.

End AdvisorProperties.

(** A user's question, answered. *)
Example getFinancialAdvice_example :
  trace (advise_on (fun _ => None)) =
    [Advisor.Find Advisor.Expenses; Advisor.Find Advisor.Incomes;
     Advisor.Find Advisor.Portfolios;
     Advisor.Engine advisor_input;
     Advisor.Respond 200
       (Advisor.Advised "Spend less than you earn."
          {| Advisor.stats_expenses := 2;
             Advisor.stats_income := 520;
             Advisor.stats_portfolioCount := 1 |})].
Proof. vm_compute. reflexivity. Qed.

Lemma advisor_engine_gets_the_users_own_data_witness :
  In advisor_input
     (flat_map Advisor.engine_inputs (trace (advise_on (fun _ => None)))) /\
  flat_map Advisor.engine_inputs (trace (advise_on (fun _ => None))) = [advisor_input] /\
  (forall c : Advisor.Collection, (fun _ => @None JsError) c = None) /\
  exists userId,
    Advisor.user advisor_request = Some userId /\
    Advisor.body advisor_request = Some (Advisor.question advisor_input) /\
    (forall d,
       In d (Advisor.expenses advisor_input) <->
       In d (Advisor.Expense advisor_store) /\ fst d = userId /\
       exists date,
         snd d = Some date /\ days_before india (Advisor.now advisor_store) 90 <= date) /\
    Advisor.income advisor_input =
      Advisor.total Z.add 0 snd
        (filter (fun i => String.eqb (fst i) userId) (Advisor.Income advisor_store)) /\
    (forall h,
       In h (Advisor.portfolio advisor_input) <->
       In h (Advisor.Portfolio advisor_store) /\ h = userId).
Proof.
  assert (Hin : In advisor_input
                   (flat_map Advisor.engine_inputs (trace (advise_on (fun _ => None)))))
    by (left; reflexivity).
  split; [exact Hin|].
  exact (advisor_engine_gets_the_users_own_data _ _ _ _ _ _ Z.add 0 fst snd fst snd
           (fun h : ObjectId => h) india (fun _ => None) advisor_engine
           advisor_request advisor_store advisor_input Hin).
Defined.
